(** * pptx.packaging: loading and saving Open XML packages

    A shallow embedding of [pptx/packaging.py].  Python objects become
    records, dictionaries become [gmap]s, exceptions become the [Raise]
    branch of a result type, and the mutable process state (the
    [PartTypeSpec] instance cache, the package being loaded, the disk)
    is threaded explicitly through a state monad. *)

From stdpp Require Import base strings list gmap fin_maps fin_sets sorting.
From Stdlib Require Import Ascii.


(** ** Python values *)

(** A value that is either a [str] or [None], as returned by
    [element.get(name)]. *)
Abbreviation pystr := (option string).

(** ['%s' % v] for a [str] or [None]. *)
Definition fmt_s (v : pystr) : string := default "None" v.

(** [s.startswith(pre)] *)
Fixpoint startswith (s pre : string) {struct pre} : bool :=
  match pre, s with
  | "", _ => true
  | String a pre', String b s' => Ascii.eqb a b && startswith s' pre'
  | String _ _, "" => false
  end.

(** [s.endswith(suf)] *)
Definition endswith (s suf : string) : bool :=
  startswith (String.rev s) (String.rev suf).

(** [s[1:]] *)
Definition tail1 (s : string) : string :=
  match s with
  | "" => ""
  | String _ s' => s'
  end.

(** The exceptions raised by the module (and by the Python runtime on its
    behalf).  The message is kept where the source formats one. *)
Inductive exn : Type :=
  | LookupError (msg : string)
  | KeyError (msg : string)
  | DuplicateKeyError (msg : string)
  | CorruptedPackageError (msg : string)
  | NotXMLError (msg : string)
  | PackageNotFoundError (msg : string)
  | TypeError (msg : string)
  | AttributeError (msg : string)
  | IOError (msg : string).

(** Outcome of running a piece of code: a value, a raised exception, or
    [OutOfFuel] when a fuel-bounded recursion was cut short. *)
Inductive res (A : Type) : Type :=
  | Ok (a : A)
  | Raise (e : exn)
  | OutOfFuel.
Arguments Ok {A} a.
Arguments Raise {A} e.
Arguments OutOfFuel {A}.

(** ** [os.path] (posixpath) *)

Module posixpath.

(** [(p[:i], p[i:])] for [i = p.rfind(c)], [None] when [c] is absent. *)
Fixpoint cut_before_last (c : ascii) (p : string) : option (string * string) :=
  match p with
  | "" => None
  | String a p' =>
      match cut_before_last c p' with
      | Some (h, t) => Some (String a h, t)
      | None => if Ascii.eqb a c then Some ("", p) else None
      end
  end.

(** [(p[:i], p[i:])] for [i = p.rfind(c) + 1], [None] when [c] is absent. *)
Fixpoint cut_after_last (c : ascii) (p : string) : option (string * string) :=
  match p with
  | "" => None
  | String a p' =>
      match cut_after_last c p' with
      | Some (h, t) => Some (String a h, t)
      | None => if Ascii.eqb a c then Some (String a "", p') else None
      end
  end.

(** [s == c * len(s)] *)
Fixpoint all_char (c : ascii) (s : string) : bool :=
  match s with
  | "" => true
  | String a s' => Ascii.eqb a c && all_char c s'
  end.

(** [s.rstrip(c)] *)
Fixpoint rstrip (c : ascii) (s : string) : string :=
  match s with
  | "" => ""
  | String a s' =>
      match rstrip c s' with
      | "" => if Ascii.eqb a c then "" else String a ""
      | r => String a r
      end
  end.

(** [os.path.split(p)] *)
Definition split (p : string) : string * string :=
  let '(head, tail) := default ("", p) (cut_after_last "/" p) in
  let head :=
    if bool_decide (head ≠ "") && negb (all_char "/" head)
    then rstrip "/" head else head in
  (head, tail).

(** [os.path.splitext(p)]: the extension starts at the last dot of the
    last path component, leading dots of that component not counting. *)
Definition splitext (p : string) : string * string :=
  let '(dir, name) := default ("", p) (cut_after_last "/" p) in
  match cut_before_last "." name with
  | Some (stem, ext) =>
      if all_char "." stem then (p, "") else (dir +:+ stem, ext)
  | None => (p, "")
  end.

(** [os.path.join(a, b)] *)
Definition join (a b : string) : string :=
  if startswith b "/" then b
  else if bool_decide (a = "") || endswith a "/" then a +:+ b
  else a +:+ "/" +:+ b.

(** [s.split(c)] *)
Fixpoint split_on (c : ascii) (s : string) : list string :=
  match s with
  | "" => [""]
  | String a s' =>
      if Ascii.eqb a c then "" :: split_on c s'
      else match split_on c s' with
           | w :: ws => String a w :: ws
           | [] => [String a ""]
           end
  end.

(** [sep.join(l)] *)
Fixpoint join_with (sep : string) (l : list string) : string :=
  match l with
  | [] => ""
  | [w] => w
  | w :: ws => w +:+ sep +:+ join_with sep ws
  end.

(** One iteration of the component loop of [normpath]. *)
Definition norm_step (initial_slashes : nat) (new_comps : list string)
    (comp : string) : list string :=
  if bool_decide (comp = "") || bool_decide (comp = ".") then new_comps
  else if bool_decide (comp ≠ "..")
          || (bool_decide (initial_slashes = 0) && bool_decide (new_comps = []))
          || (bool_decide (new_comps ≠ []) && bool_decide (last new_comps = Some ".."))
       then new_comps ++ [comp]
  else if bool_decide (new_comps ≠ []) then removelast new_comps
  else new_comps.

Definition initial_slashes (path : string) : nat :=
  if startswith path "/" then
    if startswith path "//" && negb (startswith path "///") then 2 else 1
  else 0.

Definition norm_comps (path : string) : list string :=
  foldl (norm_step (initial_slashes path)) [] (split_on "/" path).

(** [os.path.normpath(path)] *)
Definition normpath (path : string) : string :=
  if bool_decide (path = "") then "."
  else
    let path' := join_with "/" (norm_comps path) in
    let path' :=
      match initial_slashes path with
      | 0 => path'
      | 1 => "/" +:+ path'
      | _ => "//" +:+ path'
      end in
    if bool_decide (path' = "") then "." else path'.

(** [os.path.abspath(path)], with [cwd] the value of [os.getcwd()]. *)
Definition abspath (cwd path : string) : string :=
  normpath (if startswith path "/" then path else join cwd path).

End posixpath.

(** ** XML element trees ([lxml.etree]) *)

(** An element: its tag (in Clark notation [{uri}local] when namespaced),
    the default namespace its [nsmap] declares, its attributes in
    insertion order and its children. *)
#[warnings="-register-all"]
Inductive etree : Type :=
  | Element (tag : string) (nsmap : option string)
      (attrib : list (string * string)) (children : list etree).

Definition tag (e : etree) : string := let 'Element t _ _ _ := e in t.
Definition nsmap (e : etree) : option string := let 'Element _ n _ _ := e in n.
Definition attrib (e : etree) : list (string * string) := let 'Element _ _ a _ := e in a.
Definition children (e : etree) : list etree := let 'Element _ _ _ c := e in c.

(** [element.get(name)] *)
Definition get (e : etree) (name : string) : pystr :=
  (λ kv : string * string, kv.2) <$> head (filter (λ kv, kv.1 = name) (attrib e)).

(** [element.findall(tagname)]: the direct children carrying that tag. *)
Definition findall (e : etree) (tagname : string) : list etree :=
  filter (λ c, tag c = tagname) (children e).

(** [element.set(name, value)]; lxml rejects a [None] value. *)
Definition set (e : etree) (name : string) (value : pystr) : res etree :=
  match value with
  | None => Raise (TypeError "Argument must be bytes or unicode, got 'NoneType'")
  | Some v =>
      let 'Element t n a c := e in
      Ok (Element t n
            (if bool_decide (name ∈ a.*1)
             then (λ kv, if bool_decide (kv.1 = name) then (name, v) else kv) <$> a
             else a ++ [(name, v)]) c)
  end.

(** [parent.append(child)] *)
Definition append (parent child : etree) : etree :=
  let 'Element t n a c := parent in Element t n a (c ++ [child]).

(** What a serialised tree is read back as: an element whose tag carries
    no namespace belongs to the default namespace in scope, since the
    serialiser writes its bare name below the [xmlns] declaration. *)
Fixpoint resolve_ns (scope : option string) (e : etree) : etree :=
  let 'Element t n a c := e in
  let scope := match n with Some uri => Some uri | None => scope end in
  Element
    (match scope with
     | Some uri => if startswith t "{" then t else "{" +:+ uri +:+ "}" +:+ t
     | None => t
     end)
    n a (map (resolve_ns scope) c).

(** ** Static format tables ([pptx.spec]) *)

(** One entry of [pptx.spec.pml_parttypes]. *)
Record parttype : Type := {
  pt_basename : string;
  pt_ext : string;
  pt_cardinality : string;
  pt_required : bool;
  pt_baseURI : string;
  pt_has_rels : string;
  pt_rel_type : string
}.

(** ** Data model *)

(** Attributes of an initialised [PartTypeSpec] instance. *)
Record PartTypeSpec_attrs {loadclass : Type} : Type := {
  content_type : string;
  basename : string;
  ext : string;
  cardinality : string;
  required : bool;
  baseURI : string;
  has_rels : string;
  rel_type : string;
  loadclass_of : option loadclass
}.
Arguments PartTypeSpec_attrs : clear implicits.

(** A [PartTypeSpec] instance: whether [_loaded] has been set, and the
    spec attributes once [__init__] has got as far as assigning them. *)
Record PartTypeSpec_obj {loadclass : Type} : Type := {
  _loaded : bool;
  attrs : option (PartTypeSpec_attrs loadclass)
}.
Arguments PartTypeSpec_obj : clear implicits.

Record Relationship : Type := {
  rId : pystr;
  reltype : pystr;
  target : pystr
}.

(** A [RelationshipCollection]: the list itself, its [_id_dict], and the
    [baseURI] it delegates to its parent relationships item. *)
Record RelationshipCollection : Type := {
  rc_baseURI : string;
  rc_list : list Relationship;
  _id_dict : gmap pystr Relationship
}.

Record PackageRelationshipsItem : Type := {
  pkg_relationships : RelationshipCollection
}.

Record PartRelationshipsItem : Type := {
  pri_baseURI : string;
  pri_itemURI : string;
  pri_relationships : RelationshipCollection
}.

(** A [Part]; [typespec] is the address of its cached [PartTypeSpec]. *)
Record Part {bytes : Type} : Type := {
  partname : string;
  typespec : nat;
  blob : option bytes;
  element : option etree;
  relsitem : option PartRelationshipsItem
}.
Arguments Part : clear implicits.

(** [part.relationships] *)
Definition relationships {bytes} (part : Part bytes) : option RelationshipCollection :=
  pri_relationships <$> relsitem part.

(** An entry of the disk: an expanded package directory (its files keyed
    by their path below the directory, leading slash included), a zip
    archive (its members in archive order) or some other file. *)
Inductive disk_entry {bytes : Type} : Type :=
  | Directory (files : list (string * bytes))
  | ZipArchive (members : list (string * bytes))
  | PlainFile.
Arguments disk_entry : clear implicits.

(** The process state: the class attributes of [PartTypeSpec]
    ([instances], [loadclassmap], [defloadclass]) with the instances they
    refer to ([objects], addressed by index), the package object being
    operated on ([parts] with its [partname_dict], and the package
    relationships item), the disk, and a ghost log of the item URIs
    whose streams were opened. *)
Record state {bytes loadclass : Type} : Type := {
  instances : gmap pystr nat;
  loadclassmap : gmap pystr loadclass;
  defloadclass : option loadclass;
  objects : list (PartTypeSpec_obj loadclass);
  parts : list (Part bytes);
  partname_dict : gmap string (Part bytes);
  pkg_relsitem : option PackageRelationshipsItem;
  disk : gmap string (disk_entry bytes);
  reads : list string
}.
Arguments state : clear implicits.

(** ** State and exceptions

    A computation over a mutable state [S] that returns a value, raises
    or runs out of fuel; the state it leaves behind is kept in each case
    (an exception does not undo the mutations made before it). *)

Definition M (S A : Type) : Type := S → res A * S.

Definition ret {S A} (a : A) : M S A := λ st, (Ok a, st).

Definition raise {S A} (e : exn) : M S A := λ st, (Raise e, st).

Definition bind {S A B} (c : M S A) (k : A → M S B) : M S B :=
  λ st, match c st with
        | (Ok a, st') => k a st'
        | (Raise e, st') => (Raise e, st')
        | (OutOfFuel, st') => (OutOfFuel, st')
        end.

(** A computation that touches no state. *)
Definition lift {S A} (r : res A) : M S A := λ st, (r, st).

Definition gets {S A} (f : S → A) : M S A := λ st, (Ok (f st), st).

Definition modify {S} (f : S → S) : M S unit := λ st, (Ok tt, f st).

Global Arguments bind : simpl never.
Global Arguments ret : simpl never.
Global Arguments raise : simpl never.
Global Arguments lift : simpl never.
Global Arguments gets : simpl never.
Global Arguments modify : simpl never.

(** [c] leaves the observation [f] of the state as it found it. *)
Definition keeps {S A B} (f : S → B) (c : M S A) : Prop :=
  ∀ st r st', c st = (r, st') → f st' = f st.

Notation "'let*' x ':=' c 'in' k" := (bind c (λ x, k))
  (at level 10, x pattern, c at level 100, k at level 200).
Notation "c ;; k" := (bind c (λ _, k))
  (at level 100, k at level 200, right associativity).

(** ** The environment of the module

    What the module imports and does not define itself: byte strings and
    the XML library working on them, the working directory, and the
    constants of [pptx.spec]. *)
Class Environment : Type := {
  (** Python byte strings holding item bodies. *)
  bytes : Type;
  (** The model classes [PartTypeSpec.register] associates with content types. *)
  loadclass : Type;
  (** [etree.parse(stream, XMLParser(remove_blank_text=True)).getroot()],
      [None] standing for [XMLSyntaxError]. *)
  parse : bytes → option etree;
  (** [util.prettify_nsdecls(etree.tostring(element, ...))] *)
  tostring : etree → bytes;
  (** [os.getcwd()] *)
  cwd : string;
  (** [pptx.spec.pml_parttypes] *)
  pml_parttypes : gmap string parttype;
  (** [pptx.spec.default_content_types], keyed by extension with its dot. *)
  default_content_types : gmap string string;
  (** [pptx.spec.nsmap['ct']] and [pptx.spec.nsmap['pr']] *)
  ns_ct : string;
  ns_pr : string;
  (** Whether [open(path, 'wb')] can make a file at an absolute path that
      holds none: the directory the path lies in exists and can be written
      to. The module makes and removes no directory, so that this does
      not change while it runs. *)
  creatable : string → bool
}.

(** [pptx.spec.qname(prefix, tagroot)]: the Clark-notation tag name in the
    namespace the prefix stands for. *)
Definition clark (uri tagroot : string) : string := "{" +:+ uri +:+ "}" +:+ tagroot.

Section packaging.
Context `{env : Environment}.

Local Abbreviation State := (state bytes loadclass).
Local Abbreviation M := (M State).

(** *** Field updates of the process state *)

Definition with_instances (v : gmap pystr nat) (st : State) : State :=
  {| instances := v; loadclassmap := loadclassmap st;
     defloadclass := defloadclass st; objects := objects st;
     parts := parts st; partname_dict := partname_dict st;
     pkg_relsitem := pkg_relsitem st; disk := disk st; reads := reads st |}.

Definition with_loadclassmap (v : gmap pystr loadclass) (st : State) : State :=
  {| instances := instances st; loadclassmap := v;
     defloadclass := defloadclass st; objects := objects st;
     parts := parts st; partname_dict := partname_dict st;
     pkg_relsitem := pkg_relsitem st; disk := disk st; reads := reads st |}.

Definition with_defloadclass (v : option loadclass) (st : State) : State :=
  {| instances := instances st; loadclassmap := loadclassmap st;
     defloadclass := v; objects := objects st;
     parts := parts st; partname_dict := partname_dict st;
     pkg_relsitem := pkg_relsitem st; disk := disk st; reads := reads st |}.

Definition with_objects (v : list (PartTypeSpec_obj loadclass)) (st : State) : State :=
  {| instances := instances st; loadclassmap := loadclassmap st;
     defloadclass := defloadclass st; objects := v;
     parts := parts st; partname_dict := partname_dict st;
     pkg_relsitem := pkg_relsitem st; disk := disk st; reads := reads st |}.

Definition with_parts (v : list (Part bytes)) (d : gmap string (Part bytes))
    (st : State) : State :=
  {| instances := instances st; loadclassmap := loadclassmap st;
     defloadclass := defloadclass st; objects := objects st;
     parts := v; partname_dict := d;
     pkg_relsitem := pkg_relsitem st; disk := disk st; reads := reads st |}.

Definition with_pkg_relsitem (v : option PackageRelationshipsItem) (st : State) : State :=
  {| instances := instances st; loadclassmap := loadclassmap st;
     defloadclass := defloadclass st; objects := objects st;
     parts := parts st; partname_dict := partname_dict st;
     pkg_relsitem := v; disk := disk st; reads := reads st |}.

Definition with_disk (v : gmap string (disk_entry bytes)) (st : State) : State :=
  {| instances := instances st; loadclassmap := loadclassmap st;
     defloadclass := defloadclass st; objects := objects st;
     parts := parts st; partname_dict := partname_dict st;
     pkg_relsitem := pkg_relsitem st; disk := v; reads := reads st |}.

Definition with_reads (v : list string) (st : State) : State :=
  {| instances := instances st; loadclassmap := loadclassmap st;
     defloadclass := defloadclass st; objects := objects st;
     parts := parts st; partname_dict := partname_dict st;
     pkg_relsitem := pkg_relsitem st; disk := disk st; reads := v |}.

(** *** PartTypeSpec *)

(** [PartTypeSpec.__new__(cls, content_type)]: the cached instance, or a
    fresh one entered in the cache. *)
Definition PartTypeSpec_new (content_type : pystr) : M nat := λ st,
  match instances st !! content_type with
  | Some inst => (Ok inst, st)
  | None =>
      let inst := length (objects st) in
      (Ok inst,
       with_instances (<[content_type := inst]> (instances st))
         (with_objects (objects st ++ [{| _loaded := false; attrs := None |}]) st))
  end.

(** [PartTypeSpec.__init__(self, content_type)] *)
Definition PartTypeSpec_init (self : nat) (content_type : pystr) : M unit := λ st,
  match objects st !! self with
  | None => (Raise (AttributeError "no such instance"), st)
  | Some o =>
      if _loaded o then (Ok tt, st)
      else
        let st := with_objects (<[self := {| _loaded := true; attrs := attrs o |}]> (objects st)) st in
        match content_type ≫= (λ c, (c,.) <$> pml_parttypes !! c) with
        | None =>
            (Raise (KeyError ("no content type '" +:+ fmt_s content_type
                              +:+ "' in pptx.spec.pml_parttypes")), st)
        | Some (c, ptsdict) =>
            let a :=
              {| content_type := c;
                 basename := pt_basename ptsdict;
                 ext := pt_ext ptsdict;
                 cardinality := pt_cardinality ptsdict;
                 required := pt_required ptsdict;
                 baseURI := pt_baseURI ptsdict;
                 has_rels := pt_has_rels ptsdict;
                 rel_type := pt_rel_type ptsdict;
                 loadclass_of :=
                   match loadclassmap st !! content_type with
                   | Some c => Some c
                   | None => defloadclass st
                   end |} in
            (Ok tt, with_objects (<[self := {| _loaded := true; attrs := Some a |}]> (objects st)) st)
        end
  end.

(** The call [PartTypeSpec(content_type)]: [__new__], then [__init__] on
    the instance it returned. *)
Definition PartTypeSpec (content_type : pystr) : M nat :=
  let* inst := PartTypeSpec_new content_type in
  PartTypeSpec_init inst content_type ;;
  ret inst.

(** [PartTypeSpec.register(loadclassmap)] *)
Definition register (m : gmap pystr loadclass) : M unit :=
  modify (λ st, with_loadclassmap (m ∪ loadclassmap st) st).

(** [PartTypeSpec.register_def_loadclass(defloadclass)] *)
Definition register_def_loadclass (c : option loadclass) : M unit :=
  modify (with_defloadclass c).

(** Reading an attribute of the instance at address [self]. *)
Definition getattr {A} (self : nat) (name : string)
    (f : PartTypeSpec_attrs loadclass → A) : M A := λ st,
  match objects st !! self ≫= attrs with
  | Some a => (Ok (f a), st)
  | None =>
      (Raise (AttributeError ("'PartTypeSpec' object has no attribute '" +:+ name +:+ "'")), st)
  end.

(** [typespec.format] *)
Definition format (self : nat) : M string :=
  let* e := getattr self "ext" ext in
  ret (if bool_decide (e = ".xml") then "xml" else "binary").

(** *** FileSystem classes

    A filesystem object is modelled with the contents found at its path
    when it was constructed: loading only reads, so every access made
    through the object sees that same archive. *)

Inductive FileSystem : Type :=
  | DirectoryFileSystem (path : string) (files : list (string * bytes))
  | ZipFileSystem (path : string) (members : list (string * bytes)).

(** [sorted(l)] on byte strings. *)
Definition sorted (l : list string) : list string := merge_sort String.le l.

(** [ZipFileSystem.itemURIs], from the archive's member list. *)
Definition zip_itemURIs (members : list (string * bytes)) : list string :=
  sorted ((λ name, "/" +:+ name) <$> filter (λ name, ¬ endswith name "/") members.*1).

Definition itemURIs (fs : FileSystem) : list string :=
  match fs with
  | DirectoryFileSystem _ files => sorted files.*1
  | ZipFileSystem _ members => zip_itemURIs members
  end.

(** [itemURI in fs] *)
Definition contains (fs : FileSystem) (itemURI : string) : bool :=
  bool_decide (itemURI ∈ itemURIs fs).

(** [zip.read(membername)]: the last member of that name. *)
Definition zip_read (members : list (string * bytes)) (membername : string)
    : option bytes :=
  (λ kv : string * bytes, kv.2) <$> last (filter (λ kv, kv.1 = membername) members).

(** [fs.getstream(itemURI).read()] *)
Definition getstream (fs : FileSystem) (itemURI : string) : M bytes :=
  if negb (contains fs itemURI)
  then raise (LookupError ("No package item with URI '" +:+ itemURI +:+ "'"))
  else
    modify (λ st, with_reads (reads st ++ [itemURI]) st) ;;
    match fs with
    | DirectoryFileSystem _ files =>
        match head (filter (λ kv, kv.1 = itemURI) files) with
        | Some kv => ret kv.2
        | None => raise (IOError "No such file or directory")
        end
    | ZipFileSystem _ members =>
        match zip_read members (tail1 itemURI) with
        | Some b => ret b
        | None => raise (KeyError "There is no item named that in the archive")
        end
    end.

(** [fs.getelement(itemURI)] *)
Definition getelement (fs : FileSystem) (itemURI : string) : M etree :=
  if negb (contains fs itemURI)
  then raise (LookupError ("No package item with URI '" +:+ itemURI +:+ "'"))
  else
    let* stream := getstream fs itemURI in
    match parse stream with
    | Some element => ret element
    | None => raise (NotXMLError ("package item " +:+ itemURI +:+ " is not XML"))
    end.

(** [FileSystem(path)]: the factory looks at what is on disk at [path].
    The disk is keyed by absolute normalised paths and [path] is looked
    up at [os.path.abspath(path)], the path the file system object keeps
    and reads from afterwards. This is the file [os.path.isdir] and
    [os.path.isfile] find at [path] itself when [path] names it without
    detour: not empty, no trailing slash, no '..' behind a directory
    that is missing, no doubled leading slash. *)
Definition FileSystem_new (path : string) : M FileSystem := λ st,
  match disk st !! posixpath.abspath cwd path with
  | Some (Directory files) =>
      (Ok (DirectoryFileSystem (posixpath.abspath cwd path) files), st)
  | Some (ZipArchive members) =>
      (Ok (ZipFileSystem (posixpath.abspath cwd path) members), st)
  | _ => (Raise (PackageNotFoundError ("Package not found at " +:+ path)), st)
  end.

(** The archive at [path], as every [zipfile.ZipFile(self.path, ...)] of
    the writing methods finds it. *)
Definition zip_open (path : string) : M (list (string * bytes)) := λ st,
  match disk st !! path with
  | Some (ZipArchive members) => (Ok members, st)
  | _ => (Raise (IOError ("cannot open zip file " +:+ path)), st)
  end.

(** [ZipFileSystem(path).new()]: [zipfile.ZipFile(self.path, 'w')]
    truncates the file already there and makes the archive where there
    is no file, which takes a directory to make it in; it raises
    [IOError] on a directory and where no file can be made. *)
Definition ZipFileSystem_new (path : string) : M string := λ st,
  let path := posixpath.abspath cwd path in
  match disk st !! path with
  | Some (Directory _) => (Raise (IOError ("Is a directory: " +:+ path)), st)
  | Some _ => (Ok path, with_disk (<[path := ZipArchive []]> (disk st)) st)
  | None =>
      if creatable path
      then (Ok path, with_disk (<[path := ZipArchive []]> (disk st)) st)
      else (Raise (IOError ("No such file or directory: " +:+ path)), st)
  end.

(** [zip.writestr(membername, data)] on the archive at [path], opened in
    mode ['a']. *)
Definition zip_writestr (path membername : string) (data : bytes) : M unit :=
  let* members := zip_open path in
  modify (λ st, with_disk (<[path := ZipArchive (members ++ [(membername, data)])]> (disk st)) st).

(** [zipfs.write_blob(blob, itemURI)] *)
Definition write_blob (path : string) (blob : option bytes) (itemURI : string) : M unit :=
  let* members := zip_open path in
  if bool_decide (itemURI ∈ zip_itemURIs members)
  then raise (DuplicateKeyError ("Item with URI '" +:+ itemURI +:+ "' already in package"))
  else
    match blob with
    | Some b => zip_writestr path (tail1 itemURI) b
    | None => raise (TypeError "must be string or buffer, not None")
    end.

(** [zipfs.write_element(element, itemURI)] *)
Definition write_element (path : string) (element : option etree) (itemURI : string)
    : M unit :=
  let* members := zip_open path in
  if bool_decide (itemURI ∈ zip_itemURIs members)
  then raise (DuplicateKeyError ("Item with URI '" +:+ itemURI +:+ "' already in package"))
  else
    match element with
    | Some e => zip_writestr path (tail1 itemURI) (tostring e)
    | None => raise (TypeError "Type 'NoneType' cannot be serialized.")
    end.

(** *** ContentTypesItem *)

Record ContentTypesItem : Type := {
  defaults : option (gmap pystr pystr);
  overrides : option (gmap pystr pystr)
}.

(** [ContentTypesItem()] *)
Definition ContentTypesItem_init : ContentTypesItem :=
  {| defaults := None; overrides := None |}.

(** [ContentTypesItem.__getitem__(partname)] *)
Definition ContentTypesItem_getitem (self : ContentTypesItem) (partname : string)
    : res pystr :=
  match defaults self, overrides self with
  | Some d, Some o =>
      match o !! Some partname with
      | Some ct => Ok ct
      | None =>
          let ext := (posixpath.splitext partname).2 in
          let ext := if startswith ext "." then tail1 ext else ext in
          match d !! Some ext with
          | Some ct => Ok ct
          | None =>
              Raise (LookupError ("No part name '" +:+ partname
                                  +:+ "' in package content types item"))
          end
      end
  | _, _ =>
      Raise (LookupError ("No part name '" +:+ partname +:+ "' in [Content_Types].xml"))
  end.

(** [{k: v for ...}]: later entries replace earlier ones. *)
Definition dict_of {K} `{Countable K} {V} (l : list (K * V)) : gmap K V :=
  foldl (λ m kv, <[kv.1 := kv.2]> m) ∅ l.

(** The body of the [for part in parts] loop of [compose]. *)
Fixpoint compose_loop (ps : list (Part bytes)) (d o : gmap pystr pystr)
    : M ContentTypesItem :=
  match ps with
  | [] => ret {| defaults := Some d; overrides := Some o |}
  | part :: ps' =>
      let ext := (posixpath.splitext (partname part)).2 in
      if bool_decide (ext = ".xml") then
        let* ct := getattr (typespec part) "content_type" content_type in
        compose_loop ps' d (<[Some (partname part) := Some ct]> o)
      else
        match default_content_types !! ext with
        | Some v => compose_loop ps' (<[Some (tail1 ext) := Some v]> d) o
        | None =>
            raise (LookupError ("extension '" +:+ ext
                                +:+ "' not found in default_content_types"))
        end
  end.

(** [ContentTypesItem().compose(parts)] *)
Definition compose (ps : list (Part bytes)) : M ContentTypesItem :=
  match default_content_types !! ".rels", default_content_types !! ".xml" with
  | Some rels_ct, Some xml_ct =>
      compose_loop ps (<[Some "xml" := Some xml_ct]> (<[Some "rels" := Some rels_ct]> ∅)) ∅
  | _, _ => raise (KeyError "default_content_types")
  end.

(** Python 2 orders [None] before every string. *)
Definition pystr_le (a b : pystr) : Prop :=
  match a, b with
  | None, _ => True
  | Some _, None => False
  | Some x, Some y => String.le x y
  end.

Global Instance pystr_le_dec : RelDecision pystr_le.
Proof. intros [x|] [y|]; simpl; apply _. Defined.

(** [sorted(d.keys())] *)
Definition sorted_keys (d : gmap pystr pystr) : list pystr :=
  merge_sort pystr_le (map_to_list d).*1.

(** The children one map contributes to the content types element. *)
Fixpoint ct_children (tagname keyattr : string) (d : gmap pystr pystr)
    (keys : list pystr) : res (list etree) :=
  match keys with
  | [] => Ok []
  | k :: keys' =>
      match set (Element tagname None [] []) keyattr k with
      | Ok subelm =>
          match set subelm "ContentType" (default None (d !! k)) with
          | Ok subelm =>
              match ct_children tagname keyattr d keys' with
              | Ok l => Ok (subelm :: l)
              | r => r
              end
          | Raise e => Raise e
          | OutOfFuel => OutOfFuel
          end
      | Raise e => Raise e
      | OutOfFuel => OutOfFuel
      end
  end.

(** [cti.element] *)
Definition ContentTypesItem_element (self : ContentTypesItem) : res etree :=
  let section tagname keyattr (m : option (gmap pystr pystr)) :=
    match m with
    | Some d => ct_children (clark ns_ct tagname) keyattr d (sorted_keys d)
    | None => Ok []
    end in
  match section "Default" "Extension" (defaults self) with
  | Ok ds =>
      match section "Override" "PartName" (overrides self) with
      | Ok os => Ok (Element (clark ns_ct "Types") (Some ns_ct) [] (ds ++ os))
      | Raise e => Raise e
      | OutOfFuel => OutOfFuel
      end
  | Raise e => Raise e
  | OutOfFuel => OutOfFuel
  end.

(** [ContentTypesItem().load(fs)] *)
Definition ContentTypesItem_load (fs : FileSystem) : M ContentTypesItem :=
  let* element := getelement fs "/[Content_Types].xml" in
  let ds := findall element (clark ns_ct "Default") in
  let os := findall element (clark ns_ct "Override") in
  ret {| defaults := Some (dict_of ((λ d, (get d "Extension", get d "ContentType")) <$> ds));
         overrides := Some (dict_of ((λ o, (get o "PartName", get o "ContentType")) <$> os)) |}.

(** *** Relationships *)

(** [Relationship(parent, element)]; the parent is the collection the
    relationship is added to, which carries the base URI. *)
Definition Relationship_init (element : etree) : Relationship :=
  {| rId := get element "Id";
     reltype := get element "Type";
     target := get element "Target" |}.

(** [rel.element] *)
Definition Relationship_element (self : Relationship) : res etree :=
  match set (Element "Relationship" None [] []) "Id" (rId self) with
  | Ok e =>
      match set e "Type" (reltype self) with
      | Ok e => set e "Target" (target self)
      | r => r
      end
  | r => r
  end.

(** [rel.target_partname], for a relationship of the collection [parent] *)
Definition target_partname (parent : RelationshipCollection) (self : Relationship)
    : res string :=
  match target self with
  | Some t => Ok (posixpath.abspath cwd (posixpath.join (rc_baseURI parent) t))
  | None => Raise (AttributeError "'NoneType' object has no attribute 'startswith'")
  end.

(** [RelationshipCollection(parent)], [parent.baseURI] being [baseURI] *)
Definition RelationshipCollection_init (baseURI : string) : RelationshipCollection :=
  {| rc_baseURI := baseURI; rc_list := []; _id_dict := ∅ |}.

(** [RelationshipCollection.additem(rel_elm)]: the outcome and the
    collection afterwards. *)
Definition additem (self : RelationshipCollection) (rel_elm : etree)
    : res Relationship * RelationshipCollection :=
  let rel := Relationship_init rel_elm in
  if bool_decide (is_Some (_id_dict self !! rId rel))
  then (Raise (DuplicateKeyError ("cannot add relationship with duplicate key ('"
                                  +:+ fmt_s (rId rel) +:+ "')")), self)
  else (Ok rel,
        {| rc_baseURI := rc_baseURI self;
           rc_list := rc_list self ++ [rel];
           _id_dict := <[rId rel := rel]> (_id_dict self) |}).

(** [RelationshipCollection.getitem(key)] *)
Definition RelationshipCollection_getitem (self : RelationshipCollection) (key : pystr)
    : res Relationship :=
  match _id_dict self !! key with
  | Some rel => Ok rel
  | None =>
      Raise (LookupError ("getitem() lookup in RelationshipCollection failed with key '"
                          +:+ fmt_s key +:+ "'"))
  end.

(** The [for r in relationships: additem(r)] loop of [RelationshipsItem.load]. *)
Fixpoint additems (self : RelationshipCollection) (elms : list etree)
    : res RelationshipCollection :=
  match elms with
  | [] => Ok self
  | r :: elms' =>
      match additem self r with
      | (Ok _, self') => additems self' elms'
      | (Raise e, _) => Raise e
      | (OutOfFuel, _) => OutOfFuel
      end
  end.

(** [RelationshipsItem.load(fs, itemURI)], for an item whose [baseURI]
    property gives [baseURI]; returns the collection it now holds. *)
Definition RelationshipsItem_load (baseURI : string) (fs : FileSystem)
    (itemURI : string) : M RelationshipCollection :=
  let* element := getelement fs itemURI in
  lift (additems (RelationshipCollection_init baseURI)
          (findall element (clark ns_pr "Relationship"))).

(** The [for rel in relationships] loop of [RelationshipsItem.element]. *)
Fixpoint append_rels (element : etree) (rels : list Relationship) : res etree :=
  match rels with
  | [] => Ok element
  | rel :: rels' =>
      match Relationship_element rel with
      | Ok e => append_rels (append element e) rels'
      | r => r
      end
  end.

(** [relsitem.element] *)
Definition RelationshipsItem_element (rels : RelationshipCollection) : res etree :=
  append_rels (Element (clark ns_pr "Relationships") (Some ns_pr) [] []) (rc_list rels).

(** [PackageRelationshipsItem().load(fs)] *)
Definition PackageRelationshipsItem_load (fs : FileSystem) : M PackageRelationshipsItem :=
  let* rels := RelationshipsItem_load "/" fs "/_rels/.rels" in
  ret {| pkg_relationships := rels |}.

(** [PartRelationshipsItem().load(part, fs, itemURI)], [part.itemURI]
    being [part_itemURI] *)
Definition PartRelationshipsItem_load (part_itemURI : string) (fs : FileSystem)
    (itemURI : string) : M PartRelationshipsItem :=
  let baseURI := (posixpath.split part_itemURI).1 in
  let* rels := RelationshipsItem_load baseURI fs itemURI in
  ret {| pri_baseURI := baseURI; pri_itemURI := itemURI; pri_relationships := rels |}.

(** *** Parts *)

(** [Part.__relsitemURI(typespec, partname, fs)] *)
Definition relsitemURI (typespec : nat) (partname : string) (fs : FileSystem)
    : M pystr :=
  let* hr := getattr typespec "has_rels" has_rels in
  if bool_decide (hr = "never") then ret None
  else
    let '(head, tail) := posixpath.split partname in
    let relsitemURI := head +:+ "/_rels/" +:+ tail +:+ ".rels" in
    let present := contains fs relsitemURI in
    if bool_decide (hr = "optional")
    then ret (if present then Some relsitemURI else None)
    else ret (Some relsitemURI).

(** The first half of [Part.load]: the element if the part is XML, the
    blob otherwise. *)
Definition load_body (fs : FileSystem) (partname : string) (typespec : nat)
    : M (option bytes * option etree) :=
  let* fmt := format typespec in
  if bool_decide (fmt = "xml")
  then let* e := getelement fs partname in ret (None, Some e)
  else let* b := getstream fs partname in ret (Some b, None).

(** The second half of [Part.load]: the relationships item, if the part
    has one. *)
Definition load_relsitem (fs : FileSystem) (partname : string) (typespec : nat)
    : M (option PartRelationshipsItem) :=
  let* relsitemURI := relsitemURI typespec partname fs in
  match relsitemURI with
  | Some uri =>
      if bool_decide (uri = "") then ret None
      else if negb (contains fs uri)
      then raise (CorruptedPackageError ("required relationships item '" +:+ uri
                                         +:+ "' not found in package"))
      else let* ri := PartRelationshipsItem_load partname fs uri in ret (Some ri)
  | None => ret None
  end.

(** [Part().load(fs, partname, content_type)] *)
Definition Part_load (fs : FileSystem) (partname : string) (content_type : pystr)
    : M (Part bytes) :=
  let* typespec := PartTypeSpec content_type in
  let* (blob, element) := load_body fs partname typespec in
  let* relsitem := load_relsitem fs partname typespec in
  ret {| partname := partname; typespec := typespec; blob := blob;
         element := element; relsitem := relsitem |}.

(** [partname in parts] *)
Definition PartCollection_contains (st : State) (partname : string) : bool :=
  bool_decide (is_Some (partname_dict st !! partname)).

(** [parts.getitem(partname)] *)
Definition PartCollection_getitem (partname : string) : M (Part bytes) := λ st,
  match partname_dict st !! partname with
  | Some part => (Ok part, st)
  | None =>
      (Raise (LookupError ("getitem() lookup in PartCollection failed with partname '"
                           +:+ partname +:+ "'")), st)
  end.

(** [parts.loadpart(fs, partname, content_type)] *)
Definition loadpart (fs : FileSystem) (partname : string) (content_type : pystr)
    : M (Part bytes) :=
  let* known := gets (λ st, PartCollection_contains st partname) in
  if (known : bool)
  then raise (DuplicateKeyError ("cannot add part with duplicate key ('"
                                 +:+ partname +:+ "')"))
  else
    let* part := Part_load fs partname content_type in
    modify (λ st, with_parts (parts st ++ [part])
                    (<[partname := part]> (partname_dict st)) st) ;;
    ret part.

(** *** Package *)

(** [Package()] *)
Definition Package_init : M unit :=
  modify (λ st, with_pkg_relsitem None (with_parts [] ∅ st)).

(** The [for r in rels] loop of [loadparts]; [recurse] stands for the
    recursive call [self.loadparts(fs, cti, part.relationships)]. *)
Fixpoint loadparts_loop (recurse : RelationshipCollection → M unit)
    (fs : FileSystem) (cti : ContentTypesItem) (rels : RelationshipCollection)
    (rs : list Relationship) : M unit :=
  match rs with
  | [] => ret tt
  | r :: rs' =>
      let* partname := lift (target_partname rels r) in
      let* known := gets (λ st, PartCollection_contains st partname) in
      if (known : bool) then loadparts_loop recurse fs cti rels rs'
      else
        let* ct := lift (ContentTypesItem_getitem cti partname) in
        let* part := loadpart fs partname ct in
        match relationships part with
        | Some prels =>
            if bool_decide (rc_list prels ≠ []) then recurse prels else ret tt
        | None => ret tt
        end ;;
        loadparts_loop recurse fs cti rels rs'
  end.

(** [Package.loadparts(fs, cti, rels)]; [fuel] bounds the depth of the
    recursion. *)
Fixpoint loadparts (fuel : nat) (fs : FileSystem) (cti : ContentTypesItem)
    (rels : RelationshipCollection) : M unit :=
  match fuel with
  | 0 => λ st, (OutOfFuel, st)
  | S fuel' => loadparts_loop (loadparts fuel' fs cti) fs cti rels (rc_list rels)
  end.

(** [Package.open(path)]; no recursion can go deeper than the archive
    has items. *)
Definition Package_open (path : string) : M unit :=
  let* fs := FileSystem_new path in
  let* cti := ContentTypesItem_load fs in
  let* relsitem := PackageRelationshipsItem_load fs in
  modify (with_pkg_relsitem (Some relsitem)) ;;
  loadparts (S (length (itemURIs fs))) fs cti (pkg_relationships relsitem).

(** [Package.__normalizedpath(path)] *)
Definition normalizedpath (path : string) : string :=
  if endswith path ".pptx" then path else path +:+ ".pptx".

(** The [for part in self.parts] loop of [save]. *)
Fixpoint save_parts (zipfs : string) (ps : list (Part bytes)) : M unit :=
  match ps with
  | [] => ret tt
  | part :: ps' =>
      let* fmt := format (typespec part) in
      (if bool_decide (fmt = "xml")
       then write_element zipfs (element part) (partname part)
       else write_blob zipfs (blob part) (partname part)) ;;
      match relsitem part with
      | Some relsitem =>
          let* e := lift (RelationshipsItem_element (pri_relationships relsitem)) in
          write_element zipfs (Some e) (pri_itemURI relsitem)
      | None => ret tt
      end ;;
      save_parts zipfs ps'
  end.

(** [Package.save(path)] *)
Definition Package_save (path : string) : M unit :=
  let path := normalizedpath path in
  let* zipfs := ZipFileSystem_new path in
  let* ps := gets parts in
  let* cti := compose ps in
  let* e := lift (ContentTypesItem_element cti) in
  write_element zipfs (Some e) "/[Content_Types].xml" ;;
  let* relsitem := gets pkg_relsitem in
  match relsitem with
  | None => raise (AttributeError "'NoneType' object has no attribute 'element'")
  | Some relsitem =>
      let* e := lift (RelationshipsItem_element (pkg_relationships relsitem)) in
      write_element zipfs (Some e) "/_rels/.rels" ;;
      let* ps := gets parts in
      save_parts zipfs ps
  end.

End packaging.

(** ** Content-type resolution as the specification words it *)

(** [s.lower()] on ASCII letters. *)
Definition lower_ascii (a : ascii) : ascii :=
  let n := nat_of_ascii a in
  if bool_decide (65 ≤ n ≤ 90)%nat then ascii_of_nat (n + 32) else a.

Fixpoint lower (s : string) : string :=
  match s with
  | "" => ""
  | String a s' => String (lower_ascii a) (lower s')
  end.

(** The extension of an item path, its dot stripped. *)
Definition extension (item_path : string) : string :=
  let e := (posixpath.splitext item_path).2 in
  if startswith e "." then tail1 e else e.

(** Override first, then the default for the extension as [norm] spells
    it, then failure. *)
Definition resolve (norm : string → string) (overrides defaults : gmap pystr pystr)
    (item_path : string) : res pystr :=
  match overrides !! Some item_path with
  | Some ct => Ok ct
  | None =>
      match defaults !! Some (norm (extension item_path)) with
      | Some ct => Ok ct
      | None =>
          Raise (LookupError ("No part name '" +:+ item_path
                              +:+ "' in package content types item"))
      end
  end.

(** ** Invariants and specification predicates *)

(** [c in s] *)
Fixpoint mem_char (c : ascii) (s : string) : bool :=
  match s with
  | "" => false
  | String a s' => Ascii.eqb a c || mem_char c s'
  end.

(** A proper segment of a normalised path. *)
Definition segment (w : string) : Prop :=
  w ≠ "" ∧ w ≠ "." ∧ w ≠ ".." ∧ mem_char "/" w = false.

Section invariants.
Context `{env : Environment}.
Local Abbreviation State := (state bytes loadclass).

(** The attributes [__init__] gives the instance for content type [c]
    from its table entry. *)
Definition spec_attrs (c : string) (pt : parttype) (lc : option loadclass)
    : PartTypeSpec_attrs loadclass :=
  {| content_type := c; basename := pt_basename pt; ext := pt_ext pt;
     cardinality := pt_cardinality pt; required := pt_required pt;
     baseURI := pt_baseURI pt; has_rels := pt_has_rels pt;
     rel_type := pt_rel_type pt; loadclass_of := lc |}.

(** The cache invariant: every cached address is allocated, no two
    content types share an instance, there are as many instances as
    cached content types, and every cached instance has been through
    [__init__], with the table's attributes when its content type is
    in the table. *)
Definition registry_wf (st : State) : Prop :=
  (∀ ct a, instances st !! ct = Some a → a < length (objects st))
  ∧ (∀ ct1 ct2 a, instances st !! ct1 = Some a → instances st !! ct2 = Some a → ct1 = ct2)
  ∧ length (objects st) = size (instances st)
  ∧ (∀ ct a, instances st !! ct = Some a →
       ∃ o, objects st !! a = Some o ∧ _loaded o = true
            ∧ match ct ≫= (λ c, (c,.) <$> pml_parttypes !! c) with
              | Some (c, pt) => ∃ lc, attrs o = Some (spec_attrs c pt lc)
              | None => attrs o = None
              end).

(** One operation on the registry: a construction, or a registration
    of load classes. *)
Inductive registry_step : State → State → Prop :=
  | step_construct ct r st st' :
      PartTypeSpec ct st = (r, st') → registry_step st st'
  | step_register m st st' :
      register m st = (Ok tt, st') → registry_step st st'
  | step_register_def d st st' :
      register_def_loadclass d st = (Ok tt, st') → registry_step st st'.

(** Observations of the state that the registry, the read log, ... do not
    enter. *)
Definition registry_blind {B} (f : State → B) : Prop :=
  (∀ v st, f (with_instances v st) = f st) ∧ (∀ v st, f (with_objects v st) = f st).
Definition reads_blind {B} (f : State → B) : Prop :=
  ∀ v st, f (with_reads v st) = f st.

(** The companion relationships item of a part. *)
Definition companion (partname : string) : string :=
  (posixpath.split partname).1 +:+ "/_rels/" +:+ (posixpath.split partname).2 +:+ ".rels".

(** The part collection is consistent: no part name occurs twice in the
    list, the dictionary indexes exactly the parts of the list by
    their names, and every part was found in [fs]. *)
Definition parts_wf (fs : FileSystem) (st : State) : Prop :=
  NoDup (partname <$> parts st)
  ∧ (∀ p part, partname_dict st !! p = Some part ↔ part ∈ parts st ∧ partname part = p)
  ∧ (∀ part, part ∈ parts st → contains fs (partname part) = true).

(** The collection of [st'] is that of [st] with parts added. *)
Definition extends (st st' : State) : Prop :=
  (∃ new, parts st' = parts st ++ new)
  ∧ (∀ p part, partname_dict st !! p = Some part → partname_dict st' !! p = Some part).

(** The targets of the relationships [rs] of [rels] are loaded. *)
Definition targets_loaded (rels : RelationshipCollection) (rs : list Relationship)
    (st : State) : Prop :=
  ∀ r, r ∈ rs → ∃ p, target_partname rels r = Ok p ∧ is_Some (partname_dict st !! p).

(** Every part added since [st] has the targets of its own
    relationships loaded. *)
Definition closed_from (st st' : State) : Prop :=
  ∀ part prels,
    part ∈ parts st' → partname_dict st !! partname part = None →
    relationships part = Some prels →
    targets_loaded prels (rc_list prels) st'.

(** The item paths the relationship graph reaches from [rels], read off
    the loaded parts of [st]. *)
Inductive reachable (st : State) (rels : RelationshipCollection) : string → Prop :=
  | reach_root r p :
      r ∈ rc_list rels → target_partname rels r = Ok p → reachable st rels p
  | reach_step q part prels r p :
      reachable st rels q →
      partname_dict st !! q = Some part →
      relationships part = Some prels →
      r ∈ rc_list prels → target_partname prels r = Ok p →
      reachable st rels p.

(** Items of [fs] that are not loaded yet. *)
Definition remaining (fs : FileSystem) (st : State) : nat :=
  size (list_to_set (itemURIs fs) ∖ dom (partname_dict st) : gset string).

(** [c] always comes to an end. *)
Definition total {A} (c : M State A) : Prop := ∀ st, (c st).1 ≠ OutOfFuel.

(** What a completed walk over the relationships [rs] of [rels]
    guarantees. *)
Definition load_post (fs : FileSystem) (rels : RelationshipCollection)
    (rs : list Relationship) (st st' : State) : Prop :=
  parts_wf fs st' ∧ extends st st' ∧ targets_loaded rels rs st' ∧ closed_from st st'.

End invariants.


Section roundtrip_invariants.
Context `{env : Environment}.
Local Abbreviation State := (state bytes loadclass).

(** A collection as [RelationshipsItem.load] builds it. *)
Definition loaded_collection (baseURI : string) (rels : RelationshipCollection) : Prop :=
  ∃ elms, additems (RelationshipCollection_init baseURI) elms = Ok rels.


(** An item URI that names an archive member. *)
Definition member_uri (u : string) : Prop :=
  startswith u "/" = true ∧ endswith (tail1 u) "/" = false.










End roundtrip_invariants.

(** ** Further accessors and predicates *)

Section more_definitions.
Context `{env : Environment}.
Local Abbreviation State := (state bytes loadclass).
Local Abbreviation M := (M State).

(** [fs.getblob(itemURI)] *)
Definition getblob (fs : FileSystem) (itemURI : string) : M bytes :=
  if negb (contains fs itemURI)
  then raise (LookupError ("No package item with URI '" +:+ itemURI +:+ "'"))
  else getstream fs itemURI.

(** [len(cti)] *)
Definition ContentTypesItem_len (self : ContentTypesItem) : nat :=
  let count := match defaults self with Some d => size d | None => 0 end in
  count + match overrides self with Some o => size o | None => 0 end.

(** The dictionary of a relationship collection indexes exactly the
    relationships of its list, by their ids, which are distinct. *)
Definition collection_wf (self : RelationshipCollection) : Prop :=
  NoDup (rId <$> rc_list self)
  ∧ ∀ k r, _id_dict self !! k = Some r ↔ r ∈ rc_list self ∧ rId r = k.

(** A relationship all of whose attributes are set. *)
Definition complete (r : Relationship) : Prop :=
  is_Some (rId r) ∧ is_Some (reltype r) ∧ is_Some (target r).

(** Every key and value of the map is a string. *)
Definition all_str (m : gmap pystr pystr) : Prop :=
  ∀ k v, m !! k = Some v → is_Some k ∧ is_Some v.

(** A part whose item path has the extension '.xml'. *)
Definition is_xml (part : Part bytes) : Prop :=
  (posixpath.splitext (partname part)).2 = ".xml".

Global Instance is_xml_dec (part : Part bytes) : Decision (is_xml part).
Proof. unfold is_xml. apply _. Defined.

(** [c] comes to an end and changes nothing but the disk, where it
    leaves every path but [z] alone and an archive at [z] an archive. *)
Definition only_writes {A} (z : string) (c : M A) : Prop :=
  ∀ st r st',
    c st = (r, st') →
    r ≠ OutOfFuel
    ∧ st' = with_disk (disk st') st
    ∧ (∀ p, p ≠ z → disk st' !! p = disk st !! p)
    ∧ (∀ ms, disk st !! z = Some (ZipArchive ms) →
         ∃ ms', disk st' !! z = Some (ZipArchive ms')).

(** Every part of [st'] was in [st] already or is reachable from
    [rels]. *)
Definition only_reachable (rels : RelationshipCollection) (st st' : State) : Prop :=
  ∀ part, part ∈ parts st' → part ∈ parts st ∨ reachable st' rels (partname part).

(** An observation of the state that loading cannot change: it looks
    at none of the registry, the read log, the part collection and the
    package relationships. *)
Definition load_blind {B} (f : State → B) : Prop :=
  registry_blind f ∧ reads_blind f
  ∧ (∀ v d st, f (with_parts v d st) = f st)
  ∧ (∀ v st, f (with_pkg_relsitem v st) = f st).

(** The names of the archive members [save] writes for a part. *)
Definition part_members (part : Part bytes) : list string :=
  tail1 (partname part)
  :: match relsitem part with
     | Some ri => [tail1 (pri_itemURI ri)]
     | None => []
     end.

(** The archive members [save] writes for a part, names and contents:
    the part item, from the element of the part when its type is
    written as XML and from its blob otherwise, and then the
    relationships item of the part if it has one; [None] where one of
    the writes has nothing to write. *)
Definition part_items (objs : list (PartTypeSpec_obj loadclass)) (part : Part bytes)
    : option (list (string * bytes)) :=
  a ← objs !! typespec part ≫= attrs;
  data ← (if bool_decide (ext a = ".xml") then tostring <$> element part else blob part);
  match relsitem part with
  | Some ri =>
      match RelationshipsItem_element (pri_relationships ri) with
      | Ok e => Some [(tail1 (partname part), data); (tail1 (pri_itemURI ri), tostring e)]
      | _ => None
      end
  | None => Some [(tail1 (partname part), data)]
  end.

(** The members [save] writes for the parts [ps], in their order. *)
Fixpoint parts_items (objs : list (PartTypeSpec_obj loadclass)) (ps : list (Part bytes))
    : option (list (string * bytes)) :=
  match ps with
  | [] => Some []
  | part :: ps' =>
      items ← part_items objs part;
      rest ← parts_items objs ps';
      Some (items ++ rest)
  end.

(** Modelled from the spec: the relationships item of a part, as the
    docstring of [RelationshipsItem] places it: in the directory
    '_rels' beside the part, under the file name of the part with
    '.rels' appended ('/ppt/slides/_rels/slide1.xml.rels' for
    '/ppt/slides/slide1.xml'). *)
Definition sibling (partname : string) : string :=
  posixpath.join (posixpath.join (posixpath.split partname).1 "_rels")
    ((posixpath.split partname).2 +:+ ".rels").

(** A relationship of the relationships item [uri] of [fs], read with
    base URI [baseURI], has the target part name [p]. *)
Definition declares (fs : FileSystem) (baseURI uri p : string) : Prop :=
  ∃ (st st' : State) rels r,
    RelationshipsItem_load baseURI fs uri st = (Ok rels, st')
    ∧ r ∈ rc_list rels ∧ target_partname rels r = Ok p.

End more_definitions.
(** ** A small package to run the code on *)

Module Example.

(** A toy byte-string type: a document is the tree it encodes, anything
    else is not XML. *)
Inductive doc : Type :=
  | XmlDoc (e : etree)
  | Raw (s : string).

Definition ct_presentation : string :=
  "application/vnd.openxmlformats-officedocument.presentationml.presentation.main+xml".
Definition ct_slideMaster : string :=
  "application/vnd.openxmlformats-officedocument.presentationml.slideMaster+xml".
Definition ct_slideLayout : string :=
  "application/vnd.openxmlformats-officedocument.presentationml.slideLayout+xml".
Definition ct_theme : string :=
  "application/vnd.openxmlformats-officedocument.theme+xml".
Definition ct_png : string := "image/png".
Definition rt (name : string) : string :=
  "http://schemas.openxmlformats.org/officeDocument/2006/relationships/" +:+ name.

Definition pt_presentation : parttype :=
  {| pt_basename := "presentation"; pt_ext := ".xml"; pt_cardinality := "single";
     pt_required := true; pt_baseURI := "/ppt"; pt_has_rels := "always";
     pt_rel_type := rt "officeDocument" |}.
Definition pt_slideMaster : parttype :=
  {| pt_basename := "slideMaster"; pt_ext := ".xml"; pt_cardinality := "multiple";
     pt_required := true; pt_baseURI := "/ppt/slideMasters"; pt_has_rels := "always";
     pt_rel_type := rt "slideMaster" |}.
Definition pt_slideLayout : parttype :=
  {| pt_basename := "slideLayout"; pt_ext := ".xml"; pt_cardinality := "multiple";
     pt_required := true; pt_baseURI := "/ppt/slideLayouts"; pt_has_rels := "always";
     pt_rel_type := rt "slideLayout" |}.
Definition pt_theme : parttype :=
  {| pt_basename := "theme"; pt_ext := ".xml"; pt_cardinality := "multiple";
     pt_required := true; pt_baseURI := "/ppt/theme"; pt_has_rels := "optional";
     pt_rel_type := rt "theme" |}.
Definition pt_png : parttype :=
  {| pt_basename := "image"; pt_ext := ".png"; pt_cardinality := "multiple";
     pt_required := false; pt_baseURI := "/ppt/media"; pt_has_rels := "never";
     pt_rel_type := rt "image" |}.

Definition parttypes : gmap string parttype :=
  list_to_map [
    (ct_presentation, pt_presentation); (ct_slideMaster, pt_slideMaster);
    (ct_slideLayout, pt_slideLayout); (ct_theme, pt_theme); (ct_png, pt_png) ].

Definition def_cts : gmap string string :=
  list_to_map [
    (".png", "image/png");
    (".rels", "application/vnd.openxmlformats-package.relationships+xml");
    (".xml", "application/xml") ].

Definition uri_ct : string :=
  "http://schemas.openxmlformats.org/package/2006/content-types".
Definition uri_pr : string :=
  "http://schemas.openxmlformats.org/package/2006/relationships".

#[export] Instance toy_env : Environment := {|
  bytes := doc;
  loadclass := string;
  parse := λ b, match b with XmlDoc e => Some (resolve_ns None e) | Raw _ => None end;
  tostring := XmlDoc;
  cwd := "/home/user";
  pml_parttypes := parttypes;
  default_content_types := def_cts;
  ns_ct := uri_ct;
  ns_pr := uri_pr;
  creatable := λ p, String.eqb (posixpath.split p).1 "/home/user"
|}.

(** The process before anything was loaded. *)
Definition initial (d : gmap string (disk_entry doc)) : state doc string :=
  {| instances := ∅; loadclassmap := ∅; defloadclass := None; objects := [];
     parts := []; partname_dict := ∅; pkg_relsitem := None; disk := d; reads := [] |}.

Definition Default (extension ct : string) : etree :=
  Element "Default" None [("Extension", extension); ("ContentType", ct)] [].
Definition Override (name ct : string) : etree :=
  Element "Override" None [("PartName", name); ("ContentType", ct)] [].
Definition Types (entries : list etree) : doc :=
  XmlDoc (Element "Types" (Some uri_ct) [] entries).
Definition Rel (id type tgt : string) : etree :=
  Element "Relationship" None [("Id", id); ("Type", type); ("Target", tgt)] [].
Definition Rels (entries : list etree) : doc :=
  XmlDoc (Element "Relationships" (Some uri_pr) [] entries).
Definition body (name : string) : doc :=
  XmlDoc (Element ("{http://schemas.openxmlformats.org/presentationml/2006/main}" +:+ name)
            None [] []).

(** A deck whose slide master and slide layout refer to each other. *)
Definition deck : list (string * doc) := [
  ("[Content_Types].xml",
   Types [Default "rels" "application/vnd.openxmlformats-package.relationships+xml";
          Default "xml" "application/xml";
          Default "png" "image/png";
          Override "/ppt/presentation.xml" ct_presentation;
          Override "/ppt/slideMasters/slideMaster1.xml" ct_slideMaster;
          Override "/ppt/slideLayouts/slideLayout1.xml" ct_slideLayout;
          Override "/ppt/theme/theme1.xml" ct_theme]);
  ("_rels/.rels", Rels [Rel "rId1" (rt "officeDocument") "ppt/presentation.xml"]);
  ("ppt/presentation.xml", body "presentation");
  ("ppt/_rels/presentation.xml.rels",
   Rels [Rel "rId1" (rt "slideMaster") "slideMasters/slideMaster1.xml"]);
  ("ppt/slideMasters/slideMaster1.xml", body "sldMaster");
  ("ppt/slideMasters/_rels/slideMaster1.xml.rels",
   Rels [Rel "rId1" (rt "slideLayout") "../slideLayouts/slideLayout1.xml";
         Rel "rId2" (rt "theme") "../theme/theme1.xml"]);
  ("ppt/slideLayouts/slideLayout1.xml", body "sldLayout");
  ("ppt/slideLayouts/_rels/slideLayout1.xml.rels",
   Rels [Rel "rId1" (rt "slideMaster") "../slideMasters/slideMaster1.xml";
         Rel "rId2" (rt "image") "../media/image1.png"]);
  ("ppt/theme/theme1.xml", body "theme");
  ("ppt/media/image1.png", Raw "PNG") ].

(** A package without parts. *)
Definition blank : list (string * doc) := [
  ("[Content_Types].xml",
   Types [Default "rels" "application/vnd.openxmlformats-package.relationships+xml";
          Default "xml" "application/xml"]);
  ("_rels/.rels", Rels []) ].

(** A deck whose only part has an extension unknown to
    [default_content_types]. *)
Definition legacy : list (string * doc) := [
  ("[Content_Types].xml",
   Types [Default "rels" "application/vnd.openxmlformats-package.relationships+xml";
          Default "xml" "application/xml";
          Override "/ppt/theme/theme1.thmx" ct_theme]);
  ("_rels/.rels", Rels [Rel "rId1" (rt "theme") "ppt/theme/theme1.thmx"]);
  ("ppt/theme/theme1.thmx", body "theme") ].

Definition deck_disk : gmap string (disk_entry doc) :=
  {[ "/home/user/deck.pptx" := ZipArchive deck;
     "/home/user/blank.pptx" := ZipArchive blank;
     "/home/user/legacy.pptx" := ZipArchive legacy ]}.

Definition deck_fs : FileSystem := ZipFileSystem "/home/user/deck.pptx" deck.

(** The content types item and package relationships of [deck], as
    [Package.open] loads them. *)
Definition deck_cti : ContentTypesItem :=
  match ContentTypesItem_load deck_fs (initial deck_disk) with
  | (Ok cti, _) => cti
  | _ => ContentTypesItem_init
  end.
Definition deck_rels : RelationshipCollection :=
  match PackageRelationshipsItem_load deck_fs (initial deck_disk) with
  | (Ok ri, _) => pkg_relationships ri
  | _ => RelationshipCollection_init "/"
  end.

(** A part as a collection holds it before anything else is loaded. *)
Definition one_part : Part doc :=
  {| partname := "/ppt/presentation.xml"; typespec := 0; blob := None;
     element := None; relsitem := None |}.

End Example.


(** ** More data to run the code on *)

Module Fixture.
Import Example.

(** The value a computation returned, [d] if it raised. *)
Definition ok_or {A} (d : A) (r : res A) : A :=
  match r with
  | Ok a => a
  | _ => d
  end.

(** A disk with an empty archive. *)
Definition scratch_disk : gmap string (disk_entry doc) :=
  {[ "/home/user/new.pptx" := ZipArchive [] ]}.

(** An archive whose only part lies directly below the root. *)
Definition flat : list (string * doc) := [
  ("[Content_Types].xml",
   Types [Default "rels" "application/vnd.openxmlformats-package.relationships+xml";
          Default "xml" "application/xml";
          Override "/presentation.xml" ct_presentation]);
  ("_rels/.rels", Rels [Rel "rId1" (rt "officeDocument") "presentation.xml"]);
  ("presentation.xml", body "presentation");
  ("_rels/presentation.xml.rels", Rels []) ].

Definition flat_fs : FileSystem := ZipFileSystem "/home/user/flat.pptx" flat.

(** An archive whose theme lies directly below the root and refers to
    an image through its relationships item. *)
Definition rooted : list (string * doc) := [
  ("[Content_Types].xml",
   Types [Default "rels" "application/vnd.openxmlformats-package.relationships+xml";
          Default "xml" "application/xml";
          Default "png" "image/png";
          Override "/theme1.xml" ct_theme]);
  ("_rels/.rels", Rels [Rel "rId1" (rt "theme") "theme1.xml"]);
  ("theme1.xml", body "theme");
  ("_rels/theme1.xml.rels", Rels [Rel "rId1" (rt "image") "media/image1.png"]);
  ("media/image1.png", Raw "PNG") ].

Definition rooted_fs : FileSystem := ZipFileSystem "/home/user/rooted.pptx" rooted.

Definition rooted_disk : gmap string (disk_entry doc) :=
  {[ "/home/user/rooted.pptx" := ZipArchive rooted ]}.

(** The content types item and package relationships of [rooted], as
    [Package.open] loads them. *)
Definition rooted_cti : ContentTypesItem :=
  ok_or ContentTypesItem_init (ContentTypesItem_load rooted_fs (initial rooted_disk)).1.
Definition rooted_rels : RelationshipCollection :=
  match PackageRelationshipsItem_load rooted_fs (initial rooted_disk) with
  | (Ok ri, _) => pkg_relationships ri
  | _ => RelationshipCollection_init "/"
  end.

(** The process after [deck.pptx] was opened. *)
Definition opened : state doc string :=
  (Package_open "deck.pptx" (initial deck_disk)).2.

(** The theme part of [deck], as loaded. *)
Definition theme_part : Part doc :=
  ok_or one_part (loadpart deck_fs "/ppt/theme/theme1.xml" (Some ct_theme)
                    (initial deck_disk)).1.
End Fixture.
(** * Properties *)

Example split_slide : posixpath.split "/ppt/slides/slide1.xml" = ("/ppt/slides", "slide1.xml").
Proof. reflexivity. Qed.
Example split_root : posixpath.split "/presentation.xml" = ("/", "presentation.xml").
Proof. reflexivity. Qed.
Example splitext_slide : posixpath.splitext "/ppt/slides/slide1.xml" = ("/ppt/slides/slide1", ".xml").
Proof. reflexivity. Qed.
Example splitext_dotfile : posixpath.splitext "/_rels/.rels" = ("/_rels/.rels", "").
Proof. reflexivity. Qed.
Example splitext_dir_dot : posixpath.splitext "/a.b/c" = ("/a.b/c", "").
Proof. reflexivity. Qed.
Example splitext_two : posixpath.splitext "/a/..x.tar.gz" = ("/a/..x.tar", ".gz").
Proof. reflexivity. Qed.
Example normpath_up : posixpath.normpath "/ppt/slides/../slideLayouts/./x.xml" = "/ppt/slideLayouts/x.xml".
Proof. reflexivity. Qed.
Example normpath_rel : posixpath.normpath "../a/../../b/" = "../../b".
Proof. reflexivity. Qed.
Example normpath_root_up : posixpath.normpath "/../.." = "/".
Proof. reflexivity. Qed.
Example normpath_two : posixpath.normpath "//a//b" = "//a/b".
Proof. reflexivity. Qed.
Example normpath_three : posixpath.normpath "///a" = "/a".
Proof. reflexivity. Qed.

Section monad_lemmas.
Context {S : Type}.

Lemma bind_Ok_inv {A B} (c : M S A) (k : A → M S B) st b st2 :
  bind c k st = (Ok b, st2) →
  ∃ a st1, c st = (Ok a, st1) ∧ k a st1 = (Ok b, st2).
Proof.
  unfold bind. destruct (c st) as [[a| |] st1]; intros; simplify_eq; eauto.
Qed.

Lemma bind_run_Ok {A B} (c : M S A) (k : A → M S B) st a st1 :
  c st = (Ok a, st1) → bind c k st = k a st1.
Proof. unfold bind. by intros ->. Qed.

Lemma bind_run_Raise {A B} (c : M S A) (k : A → M S B) st e st1 :
  c st = (Raise e, st1) → bind c k st = (Raise e, st1).
Proof. unfold bind. by intros ->. Qed.

Lemma keeps_ret {A B} (f : S → B) (a : A) : keeps f (ret a).
Proof. intros st r st' [= _ <-]. done. Qed.

Lemma keeps_raise {A B} (f : S → B) e : keeps f (raise (A:=A) e).
Proof. intros st r st' [= _ <-]. done. Qed.

Lemma keeps_lift {A B} (f : S → B) (x : res A) : keeps f (lift x).
Proof. intros st r st' [= _ <-]. done. Qed.

Lemma keeps_gets {A B} (f : S → B) (g : S → A) : keeps f (gets g).
Proof. intros st r st' [= _ <-]. done. Qed.

Lemma keeps_modify {B} (f : S → B) (g : S → S) :
  (∀ st, f (g st) = f st) → keeps f (modify g).
Proof. intros Hg st r st' [= _ <-]. done. Qed.

Lemma keeps_bind {A B C} (f : S → C) (c : M S A) (k : A → M S B) :
  keeps f c → (∀ a, keeps f (k a)) → keeps f (bind c k).
Proof.
  intros Hc Hk st r st'. unfold bind.
  destruct (c st) as [[a| |] st1] eqn:Hrun; intros; simplify_eq;
    try (by eapply Hc).
  etrans; [by eapply Hk|by eapply Hc].
Qed.
End monad_lemmas.

Ltac keeps_step :=
  first
    [ apply keeps_ret | apply keeps_raise | apply keeps_lift | apply keeps_gets
    | apply keeps_bind; [|intros ?]
    | apply keeps_modify; intros; done ].

Section path_lemmas.
Import posixpath.

Lemma startswith_slash s :
  startswith s "/" = true ↔ ∃ s', s = String "/"%char s'.
Proof.
  destruct s as [|a s].
  - split; [done|]. by intros [? ?].
  - change (startswith (String a s) "/") with (Ascii.eqb "/" a && true).
    destruct (Ascii.eqb_spec "/"%char a) as [<-|Hne]; cbn.
    + split; eauto.
    + split; [done|]. intros [? ?]. congruence.
Qed.

Lemma join_absolute a b :
  startswith a "/" = true → startswith (join a b) "/" = true.
Proof.
  intros Ha. unfold join. destruct (startswith b "/") eqn:Hb; [done|].
  apply startswith_slash in Ha as [a' ->].
  case_match; apply startswith_slash; cbn; eauto.
Qed.

Lemma initial_slashes_absolute p :
  startswith p "/" = true → initial_slashes p = 1 ∨ initial_slashes p = 2.
Proof. unfold initial_slashes. intros ->. case_match; auto. Qed.

Lemma split_on_no_sep c s : Forall (λ w, mem_char c w = false) (split_on c s).
Proof.
  induction s as [|a s IH]; cbn; [by repeat constructor|].
  destruct (Ascii.eqb a c) eqn:Hac; [by constructor|].
  destruct (split_on c s) as [|w ws]; [by repeat constructor; cbn; rewrite Hac|].
  inversion_clear IH. constructor; [|done]. cbn. by rewrite Hac.
Qed.

Lemma Forall_removelast {A} (P : A → Prop) (l : list A) :
  Forall P l → Forall P (removelast l).
Proof.
  induction 1 as [|x l Hx Hl IH]; cbn; [done|].
  destruct l; [done|]. by constructor.
Qed.

Lemma last_segment acc w : Forall segment acc → last acc = Some w → segment w.
Proof.
  intros Hacc Hl. apply last_Some in Hl as [acc' ->].
  apply Forall_app in Hacc as [_ Hx]. by inversion_clear Hx.
Qed.

Lemma norm_step_segments n acc w :
  n ≠ 0 → mem_char "/" w = false →
  Forall segment acc → Forall segment (norm_step n acc w).
Proof.
  intros Hn Hw Hacc. unfold norm_step.
  repeat case_bool_decide; cbn; try done; try lia;
    try (by apply Forall_removelast);
    try (apply Forall_app; split; [done|]; by repeat constructor).
  all: exfalso; by destruct (last_segment _ _ Hacc ltac:(eassumption)) as (_ & _ & ? & _).
Qed.

Lemma norm_comps_segments p :
  startswith p "/" = true → Forall segment (norm_comps p).
Proof.
  intros Hp. unfold norm_comps.
  assert (initial_slashes p ≠ 0) as Hn
    by (destruct (initial_slashes_absolute p Hp) as [Hi | Hi]; rewrite Hi; done).
  generalize (split_on_no_sep "/" p).
  generalize (split_on "/" p) as ws. generalize (initial_slashes p) Hn. clear.
  intros n Hn ws. generalize (Forall_nil_2 segment). generalize (@nil string) as acc.
  induction ws as [|w ws IH]; intros acc Hacc Hws; cbn; [done|].
  inversion_clear Hws. apply IH; [|done]. by apply norm_step_segments.
Qed.

Lemma normpath_absolute p :
  startswith p "/" = true →
  ∃ slashes, (slashes = "/" ∨ slashes = "//")
    ∧ normpath p = slashes +:+ join_with "/" (norm_comps p).
Proof.
  intros Hp. unfold normpath.
  pose proof Hp as [p' ->]%startswith_slash.
  rewrite bool_decide_eq_false_2 by done.
  destruct (initial_slashes_absolute _ Hp) as [-> | ->]; cbn; eauto.
Qed.

Lemma normpath_startswith p :
  startswith p "/" = true → startswith (normpath p) "/" = true.
Proof.
  intros (s & [-> | ->] & ->)%normpath_absolute; apply startswith_slash; cbn; eauto.
Qed.

Lemma abspath_absolute cwd p : startswith p "/" = true → abspath cwd p = normpath p.
Proof. unfold abspath. by intros ->. Qed.

Lemma cut_after_last_head c a p h t :
  cut_after_last c (String a p) = Some (h, t) → ∃ h', h = String a h'.
Proof.
  cbn. destruct (cut_after_last c p) as [[h' t']|].
  - intros [= <- <-]. eauto.
  - case_match; intros; simplify_eq. eauto.
Qed.

Lemma rstrip_empty c s : rstrip c s = "" → all_char c s = true.
Proof.
  induction s as [|a s IH]; cbn; [done|].
  destruct (rstrip c s); [|done].
  destruct (Ascii.eqb a c); [|done]. intros _. by rewrite IH.
Qed.

Lemma rstrip_head c a s :
  all_char c (String a s) = false → ∃ r, rstrip c (String a s) = String a r.
Proof.
  cbn. intros Hall. destruct (rstrip c s) eqn:Hr; [|eauto].
  destruct (Ascii.eqb a c); [|eauto].
  apply rstrip_empty in Hr. by rewrite Hr in Hall.
Qed.

Lemma split_absolute p :
  startswith p "/" = true → startswith (split p).1 "/" = true.
Proof.
  intros [p' ->]%startswith_slash. unfold split.
  destruct (cut_after_last "/" (String "/" p')) as [[h t]|] eqn:Hcut.
  - apply cut_after_last_head in Hcut as [h' ->]. cbn -[all_char rstrip].
    destruct (all_char "/" (String "/" h')) eqn:Hall; cbn -[rstrip].
    + done.
    + destruct (rstrip_head _ _ _ Hall) as [r ->]. done.
  - cbn in Hcut. by destruct (cut_after_last "/" p') as [[??]|].
Qed.
End path_lemmas.

Section properties.
Context `{env : Environment}.
Local Abbreviation State := (state bytes loadclass).
Local Abbreviation M := (M State).

(** C10. Looking any item path up in a content types item on which
    neither [load] nor [compose] was called (both maps unset) raises
    [LookupError]; no value comes back and no other exception is
    raised. *)
Theorem unpopulated_index_lookup_fails (partname : string) :
  ContentTypesItem_getitem ContentTypesItem_init partname
  = Raise (LookupError ("No part name '" +:+ partname +:+ "' in [Content_Types].xml")).
Proof. reflexivity. Qed.

Lemma getitem_unset (self : ContentTypesItem) (partname : string) :
  defaults self = None ∨ overrides self = None →
  ContentTypesItem_getitem self partname
  = Raise (LookupError ("No part name '" +:+ partname +:+ "' in [Content_Types].xml")).
Proof.
  unfold ContentTypesItem_getitem. intros [-> | Ho]; [done|].
  rewrite Ho. by destruct (defaults self).
Qed.

Lemma getitem_resolve (d o : gmap pystr pystr) (partname : string) :
  ContentTypesItem_getitem {| defaults := Some d; overrides := Some o |} partname
  = resolve id o d partname.
Proof. reflexivity. Qed.

(** C4 (amended). [cti[p]] returns the override of [p] when there is one,
    whatever the defaults hold; otherwise the default of the extension of
    [p], the leading dot removed and the case kept as it is; and raises
    [LookupError] when neither map matches.  The lookup is [resolve] with
    the identity in the place of lower-casing. *)
Theorem content_type_resolution (d o : gmap pystr pystr) (p : string) :
  let cti := {| defaults := Some d; overrides := Some o |} in
  (∀ ct, o !! Some p = Some ct → ContentTypesItem_getitem cti p = Ok ct)
  ∧ (∀ ct, o !! Some p = None → d !! Some (extension p) = Some ct →
       ContentTypesItem_getitem cti p = Ok ct)
  ∧ (o !! Some p = None → d !! Some (extension p) = None →
       ∃ msg, ContentTypesItem_getitem cti p = Raise (LookupError msg))
  ∧ ContentTypesItem_getitem cti p = resolve id o d p.
Proof.
  cbn zeta. rewrite getitem_resolve. unfold resolve, id.
  repeat split.
  - by intros ct ->.
  - by intros ct -> ->.
  - intros -> ->. eauto.
Qed.
Lemma PartTypeSpec_cached (st : State) ct a :
  registry_wf st → instances st !! ct = Some a →
  PartTypeSpec ct st = (Ok a, st).
Proof.
  intros (_ & _ & _ & Hl) Hi.
  destruct (Hl _ _ Hi) as (o & Ho & Hld & _).
  unfold PartTypeSpec, bind, PartTypeSpec_new, PartTypeSpec_init, ret.
  by rewrite Hi, Ho, Hld.
Qed.

Lemma PartTypeSpec_fresh (st : State) ct :
  instances st !! ct = None →
  let a := length (objects st) in
  let st0 := with_instances (<[ct := a]> (instances st)) st in
  PartTypeSpec ct st =
    match ct ≫= (λ c, (c,.) <$> pml_parttypes !! c) with
    | None =>
        (Raise (KeyError ("no content type '" +:+ fmt_s ct
                          +:+ "' in pptx.spec.pml_parttypes")),
         with_objects (objects st ++ [{| _loaded := true; attrs := None |}]) st0)
    | Some (c, pt) =>
        (Ok a,
         with_objects (objects st ++
           [{| _loaded := true;
               attrs := Some (spec_attrs c pt
                                (match loadclassmap st !! ct with
                                 | Some l => Some l | None => defloadclass st end)) |}]) st0)
    end.
Proof.
  intros Hi a st0.
  unfold PartTypeSpec, bind, PartTypeSpec_new, PartTypeSpec_init, ret.
  rewrite Hi. cbn.
  rewrite lookup_app_r by lia. rewrite Nat.sub_diag. cbn.
  assert (∀ x y : PartTypeSpec_obj loadclass, <[length (objects st) := x]> (objects st ++ [y]) = objects st ++ [x]) as Hins.
  { intros x y. rewrite insert_app_r_alt by lia. by rewrite Nat.sub_diag. }
  destruct (ct ≫= _) as [[c pt]|] eqn:Hct; cbn.
  - unfold with_objects; cbn. rewrite !Hins. done.
  - unfold with_objects; cbn. rewrite !Hins. done.
Qed.

Lemma registry_wf_PartTypeSpec (st st' : State) ct r :
  registry_wf st → PartTypeSpec ct st = (r, st') → registry_wf st'.
Proof.
  intros Hwf Hrun.
  destruct (instances st !! ct) as [a|] eqn:Hi.
  { rewrite (PartTypeSpec_cached st ct a Hwf Hi) in Hrun. by simplify_eq. }
  rewrite (PartTypeSpec_fresh st ct Hi) in Hrun. cbn zeta in Hrun.
  destruct Hwf as (Hb & Hinj & Hsz & Hl).
  assert (∀ o, (_loaded o = true
                ∧ match ct ≫= (λ c, (c,.) <$> pml_parttypes !! c) with
                  | Some (c, pt) => ∃ lc, attrs o = Some (spec_attrs c pt lc)
                  | None => attrs o = None
                  end) →
            registry_wf (with_objects (objects st ++ [o])
             (with_instances (<[ct := length (objects st)]> (instances st)) st))) as Hgen.
  { intros o [Hld Hat]. unfold registry_wf; cbn. repeat split.
    - intros ct' a'. rewrite lookup_insert. case_decide; intros ?; simplify_eq.
      + rewrite length_app; cbn; lia.
      + rewrite length_app; cbn. specialize (Hb _ _ H0). lia.
    - intros ct1 ct2 a'. rewrite !lookup_insert.
      repeat case_decide; intros ??; simplify_eq; try done.
      + specialize (Hb _ _ H2). lia.
      + specialize (Hb _ _ H1). lia.
      + eauto.
    - rewrite length_app, map_size_insert_None by done. cbn. lia.
    - intros ct' a'. rewrite lookup_insert. case_decide; intros ?; simplify_eq.
      + exists o. rewrite lookup_app_r by lia. rewrite Nat.sub_diag. eauto.
      + destruct (Hl _ _ H0) as (o' & Ho' & ? & ?). exists o'.
        rewrite lookup_app_l by (by eapply lookup_lt_Some). eauto. }
  destruct (ct ≫= _) as [[c pt]|] eqn:Hct; simplify_eq; apply Hgen; cbn; eauto.
Qed.


Lemma registry_step_wf (st st' : State) :
  registry_step st st' → registry_wf st → registry_wf st'.
Proof.
  destruct 1 as [ct r st st' H|m st st' H|d st st' H]; intros Hwf.
  - by eapply registry_wf_PartTypeSpec.
  - unfold register, modify in H. by simplify_eq.
  - unfold register_def_loadclass, modify in H. by simplify_eq.
Qed.

Lemma registry_step_keeps (st st' : State) ct a o :
  registry_step st st' → registry_wf st →
  instances st !! ct = Some a → objects st !! a = Some o →
  instances st' !! ct = Some a ∧ objects st' !! a = Some o.
Proof.
  destruct 1 as [ct' r st st' H|m st st' H|d st st' H]; intros Hwf Hi Ho.
  - destruct (instances st !! ct') as [a'|] eqn:Hi'.
    { rewrite (PartTypeSpec_cached st ct' a' Hwf Hi') in H. by simplify_eq. }
    rewrite (PartTypeSpec_fresh st ct' Hi') in H. cbn zeta in H.
    assert (ct ≠ ct') by congruence.
    destruct (ct' ≫= _) as [[c pt]|]; simplify_eq; cbn;
      rewrite lookup_insert_ne by done;
      (split; [done|]); rewrite lookup_app_l by (by eapply lookup_lt_Some); done.
  - unfold register, modify in H. by simplify_eq.
  - unfold register_def_loadclass, modify in H. by simplify_eq.
Qed.

Lemma registry_steps_keep (st st' : State) ct a o :
  rtc registry_step st st' → registry_wf st →
  instances st !! ct = Some a → objects st !! a = Some o →
  registry_wf st' ∧ instances st' !! ct = Some a ∧ objects st' !! a = Some o.
Proof.
  induction 1 as [|st st1 st2 Hstep _ IH]; [done|].
  intros Hwf Hi Ho.
  destruct (registry_step_keeps _ _ _ _ _ Hstep Hwf Hi Ho).
  apply IH; eauto using registry_step_wf.
Qed.

(** C7. For a content type [c] of the format table, constructing
    [PartTypeSpec(c)] succeeds with an initialised instance at some address
    [a]; after any further constructions and registrations, constructing
    again returns the same address without changing the state, the
    attributes at [a] are the same, [c] is the only content type cached at
    [a], and there are as many instances as cached content types. *)
Theorem cache_identity (st : State) (c : string) (pt : parttype) :
  registry_wf st → pml_parttypes !! c = Some pt →
  ∃ a st1 lc,
    PartTypeSpec (Some c) st = (Ok a, st1)
    ∧ objects st1 !! a = Some {| _loaded := true; attrs := Some (spec_attrs c pt lc) |}
    ∧ (∀ st2, rtc registry_step st1 st2 →
         PartTypeSpec (Some c) st2 = (Ok a, st2)
         ∧ objects st2 !! a = Some {| _loaded := true; attrs := Some (spec_attrs c pt lc) |}
         ∧ (∀ ct', instances st2 !! ct' = Some a ↔ ct' = Some c)
         ∧ length (objects st2) = size (instances st2)).
Proof.
  intros Hwf Hpt.
  destruct (PartTypeSpec (Some c) st) as [r st1] eqn:Hrun.
  pose proof (registry_wf_PartTypeSpec _ _ _ _ Hwf Hrun) as Hwf1.
  assert (∃ a lc, r = Ok a ∧ instances st1 !! Some c = Some a
          ∧ objects st1 !! a = Some {| _loaded := true; attrs := Some (spec_attrs c pt lc) |})
    as (a & lc & -> & Hi1 & Ho1).
  { destruct (instances st !! Some c) as [a|] eqn:Hi.
    - rewrite (PartTypeSpec_cached st _ a Hwf Hi) in Hrun. simplify_eq.
      destruct Hwf as (_ & _ & _ & Hl).
      destruct (Hl _ _ Hi) as ([ld at'] & Ho & Hld & Hat).
      cbn in Hat. rewrite Hpt in Hat. destruct Hat as [lc Hlc]. cbn in *. simplify_eq. eauto.
    - rewrite (PartTypeSpec_fresh st _ Hi) in Hrun. cbn in Hrun.
      rewrite Hpt in Hrun. cbn in Hrun. simplify_eq. do 2 eexists.
      split; [done|]. cbn. rewrite lookup_insert_eq. split; [done|].
      rewrite lookup_app_r by lia. by rewrite Nat.sub_diag. }
  exists a, st1, lc. repeat split; try done;
    destruct (registry_steps_keep _ _ _ _ _ H Hwf1 Hi1 Ho1) as (Hwf2 & Hi2 & Ho2);
    try done.
  - by apply PartTypeSpec_cached.
  - intros Hi'. destruct Hwf2 as (_ & Hinj & _). eauto.
  - by intros ->.
  - by destruct Hwf2 as (_ & _ & ? & _).
Qed.

(** C8. For a content type that is not in the format table and not yet
    cached, the first [PartTypeSpec] construction raises [KeyError], but
    the second one returns the instance the first one left in the
    cache, which has no attributes: a lookup of an unregistered content
    type can return an instance. *)
Theorem unknown_content_type_cached (st : State) (ct : pystr) :
  instances st !! ct = None →
  ct ≫= (λ c, (c,.) <$> pml_parttypes !! c) = None →
  ∃ st1 a,
    PartTypeSpec ct st
    = (Raise (KeyError ("no content type '" +:+ fmt_s ct
                        +:+ "' in pptx.spec.pml_parttypes")), st1)
    ∧ PartTypeSpec ct st1 = (Ok a, st1)
    ∧ objects st1 !! a = Some {| _loaded := true; attrs := None |}.
Proof.
  intros Hi Hct. rewrite (PartTypeSpec_fresh st ct Hi). cbn zeta. rewrite Hct.
  eexists _, (length (objects st)). split; [done|].
  assert (∀ (l : list (PartTypeSpec_obj loadclass)) x, (l ++ [x]) !! length l = Some x) as Hlast.
  { intros l x. rewrite lookup_app_r by lia. by rewrite Nat.sub_diag. }
  split; [|cbn; apply Hlast].
  unfold PartTypeSpec, bind, PartTypeSpec_new, PartTypeSpec_init, ret.
  unfold with_objects, with_instances. simpl.
  rewrite lookup_insert_eq. simpl. rewrite Hlast. done.
Qed.

Lemma keeps_PartTypeSpec {B} (f : State → B) ct :
  registry_blind f → keeps f (PartTypeSpec ct).
Proof.
  intros [Hi Ho] st r st'.
  unfold PartTypeSpec, bind, PartTypeSpec_new, PartTypeSpec_init, ret.
  repeat (case_match; simplify_eq; simpl in * ); intros; simplify_eq;
    rewrite ?Ho, ?Hi; done.
Qed.

Lemma keeps_getattr {A B} (f : State → B) a n (g : _ → A) : keeps f (getattr a n g).
Proof. intros st r st'. unfold getattr. case_match; intros; by simplify_eq. Qed.

Lemma keeps_format {B} (f : State → B) a : keeps f (format a).
Proof. unfold format. repeat keeps_step. apply keeps_getattr. Qed.

Lemma keeps_getstream {B} (f : State → B) fs u : reads_blind f → keeps f (getstream fs u).
Proof.
  intros Hf. unfold getstream. case_match; [keeps_step|].
  keeps_step. { apply keeps_modify. intros. apply Hf. }
  destruct fs; case_match; keeps_step.
Qed.

Lemma keeps_getelement {B} (f : State → B) fs u : reads_blind f → keeps f (getelement fs u).
Proof.
  intros Hf. unfold getelement. case_match; [keeps_step|].
  keeps_step. { by apply keeps_getstream. }
  case_match; keeps_step.
Qed.

Lemma keeps_RelationshipsItem_load {B} (f : State → B) b fs u :
  reads_blind f → keeps f (RelationshipsItem_load b fs u).
Proof.
  intros Hf. unfold RelationshipsItem_load. keeps_step; [by apply keeps_getelement|keeps_step].
Qed.

Lemma keeps_load_body {B} (f : State → B) fs p ts :
  reads_blind f → keeps f (load_body fs p ts).
Proof.
  intros Hf. unfold load_body. keeps_step; [apply keeps_format|].
  case_match; repeat keeps_step; by (apply keeps_getelement || apply keeps_getstream).
Qed.

Lemma keeps_relsitemURI {B} (f : State → B) ts p fs : keeps f (relsitemURI ts p fs).
Proof.
  unfold relsitemURI. keeps_step; [apply keeps_getattr|].
  repeat case_match; keeps_step.
Qed.

Lemma keeps_load_relsitem {B} (f : State → B) fs p ts :
  reads_blind f → keeps f (load_relsitem fs p ts).
Proof.
  intros Hf. unfold load_relsitem. keeps_step; [apply keeps_relsitemURI|].
  repeat case_match; try (by keeps_step).
  apply keeps_bind; [|intros; keeps_step].
  unfold PartRelationshipsItem_load.
  apply keeps_bind; [by apply keeps_RelationshipsItem_load|intros; keeps_step].
Qed.

Lemma keeps_Part_load {B} (f : State → B) fs p ct :
  registry_blind f → reads_blind f → keeps f (Part_load fs p ct).
Proof.
  intros Hr Hf. unfold Part_load.
  keeps_step; [by apply keeps_PartTypeSpec|].
  keeps_step; [by apply keeps_load_body|].
  destruct a0. keeps_step; [by apply keeps_load_relsitem|]. keeps_step.
Qed.


Lemma loadpart_known fs p ct (st : State) :
  is_Some (partname_dict st !! p) →
  loadpart fs p ct st
  = (Raise (DuplicateKeyError ("cannot add part with duplicate key ('" +:+ p +:+ "')")), st).
Proof.
  intros Hin. unfold loadpart, bind, gets, PartCollection_contains.
  by rewrite bool_decide_eq_true_2.
Qed.

Lemma loadpart_Ok_inv fs p ct (st st' : State) part :
  loadpart fs p ct st = (Ok part, st') →
  partname_dict st !! p = None
  ∧ ∃ st1, Part_load fs p ct st = (Ok part, st1)
           ∧ st' = with_parts (parts st1 ++ [part]) (<[p := part]> (partname_dict st1)) st1.
Proof.
  unfold loadpart, bind at 1, gets, PartCollection_contains.
  case_bool_decide as Hin; [done|].
  intros (part' & st1 & Hload & Hrest)%bind_Ok_inv.
  unfold bind, modify, ret in Hrest. simplify_eq.
  split; [|by eauto].
  by apply eq_None_not_Some.
Qed.

(** C6. [loadpart] on an item path that is in the part collection, be it
    there from the start or by an earlier [loadpart], raises
    [DuplicateKeyError] and leaves the state as it was; [additem] on a
    relationship element whose id is in the collection, from the start or
    by an earlier [additem], raises [DuplicateKeyError] and leaves the
    collection as it was. *)
Theorem duplicates_rejected :
  (∀ fs p ct (st : State),
     is_Some (partname_dict st !! p) →
     loadpart fs p ct st
     = (Raise (DuplicateKeyError ("cannot add part with duplicate key ('" +:+ p +:+ "')")),
        st))
  ∧ (∀ fs p ct ct' (st st' : State) part,
       loadpart fs p ct st = (Ok part, st') →
       loadpart fs p ct' st'
       = (Raise (DuplicateKeyError ("cannot add part with duplicate key ('" +:+ p +:+ "')")),
          st'))
  ∧ (∀ self rel_elm,
       is_Some (_id_dict self !! get rel_elm "Id") →
       additem self rel_elm
       = (Raise (DuplicateKeyError ("cannot add relationship with duplicate key ('"
                                    +:+ fmt_s (get rel_elm "Id") +:+ "')")), self))
  ∧ (∀ self e1 e2 rel self',
       additem self e1 = (Ok rel, self') →
       get e2 "Id" = get e1 "Id" →
       additem self' e2
       = (Raise (DuplicateKeyError ("cannot add relationship with duplicate key ('"
                                    +:+ fmt_s (get e2 "Id") +:+ "')")), self')).
Proof.
  assert (∀ self rel_elm,
       is_Some (_id_dict self !! get rel_elm "Id") →
       additem self rel_elm
       = (Raise (DuplicateKeyError ("cannot add relationship with duplicate key ('"
                                    +:+ fmt_s (get rel_elm "Id") +:+ "')")), self)) as Hadd.
  { intros self rel_elm Hin. unfold additem. cbn. by rewrite bool_decide_eq_true_2. }
  split_and!.
  - apply loadpart_known.
  - intros fs p ct ct' st st' part (_ & st1 & _ & ->)%loadpart_Ok_inv.
    apply loadpart_known. cbn. by rewrite lookup_insert_eq.
  - done.
  - intros self e1 e2 rel self'. unfold additem. cbn.
    case_bool_decide; [done|]. intros [= <- <-] Heq.
    apply Hadd. cbn. rewrite Heq, lookup_insert_eq. done.
Qed.


Lemma getstream_state fs u (st st' : State) r :
  getstream fs u st = (r, st') →
  st' = if contains fs u then with_reads (reads st ++ [u]) st else st.
Proof.
  unfold getstream. destruct (contains fs u); cbn.
  - unfold bind, modify, ret, raise. destruct fs; repeat case_match; intros; by simplify_eq.
  - unfold raise. intros; by simplify_eq.
Qed.

Lemma getelement_state fs u (st st' : State) r :
  getelement fs u st = (r, st') →
  st' = if contains fs u then with_reads (reads st ++ [u]) st else st.
Proof.
  unfold getelement. destruct (contains fs u) eqn:Hc; cbn.
  - unfold bind. destruct (getstream fs u st) as [r1 st1] eqn:Hs.
    apply getstream_state in Hs. rewrite Hc in Hs. subst st1.
    unfold ret, raise. repeat case_match; intros; by simplify_eq.
  - unfold raise. intros; by simplify_eq.
Qed.

Lemma getelement_Ok_contains fs u (st st' : State) e :
  getelement fs u st = (Ok e, st') → contains fs u = true.
Proof. unfold getelement. by destruct (contains fs u). Qed.

Lemma getstream_Ok_contains fs u (st st' : State) b :
  getstream fs u st = (Ok b, st') → contains fs u = true.
Proof. unfold getstream. by destruct (contains fs u). Qed.

Lemma load_body_Ok fs p ts (st st' : State) be :
  load_body fs p ts st = (Ok be, st') →
  contains fs p = true ∧ st' = with_reads (reads st ++ [p]) st.
Proof.
  unfold load_body. intros (fmt & st1 & Hfmt & Hrest)%bind_Ok_inv.
  assert (st1 = st) as ->.
  { unfold format, bind, getattr, ret in Hfmt. repeat case_match; by simplify_eq. }
  case_bool_decide.
  - apply bind_Ok_inv in Hrest as (e & st2 & He & Hret).
    unfold ret in Hret. simplify_eq.
    pose proof (getelement_Ok_contains _ _ _ _ _ He) as Hc.
    apply getelement_state in He. rewrite Hc in He. done.
  - apply bind_Ok_inv in Hrest as (e & st2 & He & Hret).
    unfold ret in Hret. simplify_eq.
    pose proof (getstream_Ok_contains _ _ _ _ _ He) as Hc.
    apply getstream_state in He. rewrite Hc in He. done.
Qed.

Lemma RelationshipsItem_load_state b fs u (st st' : State) r :
  RelationshipsItem_load b fs u st = (r, st') →
  st' = if contains fs u then with_reads (reads st ++ [u]) st else st.
Proof.
  unfold RelationshipsItem_load, bind.
  destruct (getelement fs u st) as [r1 st1] eqn:He.
  apply getelement_state in He. subst st1.
  unfold lift. repeat case_match; intros; by simplify_eq.
Qed.

Lemma PartRelationshipsItem_load_state p fs u (st st' : State) r :
  PartRelationshipsItem_load p fs u st = (r, st') →
  st' = if contains fs u then with_reads (reads st ++ [u]) st else st.
Proof.
  unfold PartRelationshipsItem_load, bind. cbn zeta.
  destruct (RelationshipsItem_load _ fs u st) as [r1 st1] eqn:He.
  apply RelationshipsItem_load_state in He. subst st1.
  unfold ret. repeat case_match; intros; by simplify_eq.
Qed.

Lemma companion_nonempty p : companion p ≠ "".
Proof.
  unfold companion. destruct (posixpath.split p).1; [done|]. done.
Qed.

Lemma relsitemURI_run ts p fs (st : State) a :
  objects st !! ts ≫= attrs = Some a →
  relsitemURI ts p fs st
  = (Ok (if bool_decide (has_rels a = "never") then None
         else if bool_decide (has_rels a = "optional")
              then if contains fs (companion p) then Some (companion p) else None
              else Some (companion p)), st).
Proof.
  intros Ha. unfold relsitemURI, bind, getattr. rewrite Ha.
  unfold companion. destruct (posixpath.split p) as [h t]. cbn.
  repeat case_bool_decide; done.
Qed.

Lemma load_relsitem_run fs p ts (st : State) a :
  objects st !! ts ≫= attrs = Some a →
  load_relsitem fs p ts st
  = if bool_decide (has_rels a = "never") then (Ok None, st)
    else if bool_decide (has_rels a = "optional") && negb (contains fs (companion p))
    then (Ok None, st)
    else if negb (contains fs (companion p))
    then (Raise (CorruptedPackageError ("required relationships item '" +:+ companion p
                                        +:+ "' not found in package")), st)
    else (let* ri := PartRelationshipsItem_load p fs (companion p) in ret (Some ri)) st.
Proof.
  intros Ha. unfold load_relsitem.
  rewrite (bind_run_Ok _ _ _ _ _ (relsitemURI_run _ _ _ _ _ Ha)).
  pose proof (companion_nonempty p) as Hne.
  destruct (contains fs (companion p)) eqn:Hc;
    repeat case_bool_decide; simplify_eq; cbn; rewrite ?Hc; done.
Qed.

(** How [Part.load] treats the relationships item at the URI it
    computes, [companion p], once the type spec and the body of the part
    are loaded: with [has_rels] 'always' and no item there it raises
    [CorruptedPackageError]; with 'never' it returns the part without
    relationships, having read the part item only; with 'optional' and
    no item there likewise; with 'optional' or 'always' and the item
    there, it is read, once, and its outcome is the outcome of the
    load. *)
Lemma Part_load_companion fs p ct (st st1 st2 : State) ts b e a :
  PartTypeSpec ct st = (Ok ts, st1) →
  objects st1 !! ts ≫= attrs = Some a →
  load_body fs p ts st1 = (Ok (b, e), st2) →
  let part ri :=
    {| partname := p; typespec := ts; blob := b; element := e; relsitem := ri |} in
  (has_rels a = "always" → contains fs (companion p) = false →
     Part_load fs p ct st
     = (Raise (CorruptedPackageError ("required relationships item '" +:+ companion p
                                      +:+ "' not found in package")), st2)
     ∧ reads st2 = reads st ++ [p])
  ∧ (has_rels a = "never" →
       Part_load fs p ct st = (Ok (part None), st2)
       ∧ relationships (part None) = None
       ∧ reads st2 = reads st ++ [p])
  ∧ (has_rels a = "optional" → contains fs (companion p) = false →
       Part_load fs p ct st = (Ok (part None), st2)
       ∧ relationships (part None) = None
       ∧ reads st2 = reads st ++ [p])
  ∧ (has_rels a = "optional" ∨ has_rels a = "always" →
       contains fs (companion p) = true →
       ∃ r st3,
         PartRelationshipsItem_load p fs (companion p) st2 = (r, st3)
         ∧ Part_load fs p ct st
           = (match r with
              | Ok ri => Ok (part (Some ri))
              | Raise e => Raise e
              | OutOfFuel => OutOfFuel
              end, st3)
         ∧ reads st3 = reads st ++ [p; companion p]).
Proof.
  intros Hts Ha Hbody part.
  pose proof (keeps_PartTypeSpec reads ct (conj (λ _ _, eq_refl) (λ _ _, eq_refl)) _ _ _ Hts)
    as Hreads1.
  destruct (load_body_Ok _ _ _ _ _ _ Hbody) as [_ Hst2].
  assert (reads st2 = reads st ++ [p]) as Hreads2.
  { rewrite Hst2. cbn. by rewrite Hreads1. }
  assert (objects st2 !! ts ≫= attrs = Some a) as Ha2 by (by rewrite Hst2).
  assert (Part_load fs p ct st
          = let '(r, st3) := load_relsitem fs p ts st2 in
            (match r with
             | Ok ri => Ok (part ri)
             | Raise e => Raise e
             | OutOfFuel => OutOfFuel
             end, st3)) as ->.
  { unfold Part_load. rewrite (bind_run_Ok _ _ _ _ _ Hts).
    rewrite (bind_run_Ok _ _ _ _ _ Hbody). unfold bind, ret.
    destruct (load_relsitem fs p ts st2) as [[ri| |] st3]; done. }
  rewrite (load_relsitem_run _ _ _ _ _ Ha2).
  split_and!.
  - intros -> Hc. cbn. rewrite Hc. done.
  - intros ->. cbn. done.
  - intros -> Hc. cbn. rewrite Hc. done.
  - intros Hhr Hc.
    destruct (PartRelationshipsItem_load p fs (companion p) st2) as [r st3] eqn:Hri.
    exists r, st3. split; [done|].
    pose proof (PartRelationshipsItem_load_state _ _ _ _ _ _ Hri) as Hst3.
    rewrite Hc in Hst3.
    split.
    + rewrite Hc. rewrite andb_false_r. cbn.
      rewrite bool_decide_eq_false_2 by (destruct Hhr as [-> | ->]; done).
      unfold bind. rewrite Hri. by destruct r.
    + rewrite Hst3. cbn. rewrite Hreads2. by rewrite <-app_assoc.
Qed.

Lemma additems_baseURI self elms self' :
  additems self elms = Ok self' → rc_baseURI self' = rc_baseURI self.
Proof.
  revert self. induction elms as [|e elms IH]; intros self; cbn.
  - by intros [= ->].
  - unfold additem. case_bool_decide; [done|]. intros ->%IH. done.
Qed.

Lemma RelationshipsItem_load_baseURI b fs u (st st' : State) rels :
  RelationshipsItem_load b fs u st = (Ok rels, st') → rc_baseURI rels = b.
Proof.
  unfold RelationshipsItem_load.
  intros (e & st1 & _ & Hadd)%bind_Ok_inv. unfold lift in Hadd.
  injection Hadd as Hadd _. by apply additems_baseURI in Hadd.
Qed.

(** C9. The target part name of a relationship is the normalised join of
    the base URI of its collection with the target: an absolute path
    whose components are neither empty, '.' nor '..'.  The base URI is
    '/' for the package relationships item and the directory of the
    part's item path for a part relationships item.  The part
    /ppt/slides/slide1.xml with target ../slideLayouts/slideLayout1.xml
    resolves to /ppt/slideLayouts/slideLayout1.xml. *)
Theorem target_resolution :
  (∀ rels r t,
     target r = Some t → startswith (rc_baseURI rels) "/" = true →
     let joined := posixpath.join (rc_baseURI rels) t in
     target_partname rels r = Ok (posixpath.normpath joined)
     ∧ ∃ slashes comps,
         (slashes = "/" ∨ slashes = "//")
         ∧ posixpath.normpath joined = slashes +:+ posixpath.join_with "/" comps
         ∧ Forall segment comps)
  ∧ (∀ fs (st st' : State) ri,
       PackageRelationshipsItem_load fs st = (Ok ri, st') →
       rc_baseURI (pkg_relationships ri) = "/")
  ∧ (∀ p fs uri (st st' : State) ri,
       PartRelationshipsItem_load p fs uri st = (Ok ri, st') →
       rc_baseURI (pri_relationships ri) = (posixpath.split p).1
       ∧ (startswith p "/" = true → startswith (posixpath.split p).1 "/" = true))
  ∧ target_partname
      {| rc_baseURI := (posixpath.split "/ppt/slides/slide1.xml").1;
         rc_list := []; _id_dict := ∅ |}
      {| rId := Some "rId1"; reltype := None;
         target := Some "../slideLayouts/slideLayout1.xml" |}
    = Ok "/ppt/slideLayouts/slideLayout1.xml".
Proof.
  split_and!.
  - intros rels r t Ht Hbase joined.
    pose proof (join_absolute _ t Hbase) as Habs. fold joined in Habs.
    split.
    + unfold target_partname. rewrite Ht. fold joined.
      by rewrite abspath_absolute.
    + destruct (normpath_absolute _ Habs) as (s & Hs & Hn).
      exists s, (posixpath.norm_comps joined). split_and!; [done..|].
      by apply norm_comps_segments.
  - intros fs st st' ri. unfold PackageRelationshipsItem_load.
    intros (rels & st1 & Hl & Hret)%bind_Ok_inv. unfold ret in Hret. simplify_eq.
    cbn. by eapply RelationshipsItem_load_baseURI.
  - intros p fs uri st st' ri. unfold PartRelationshipsItem_load.
    intros (rels & st1 & Hl & Hret)%bind_Ok_inv. unfold ret in Hret. simplify_eq.
    cbn. split; [by eapply RelationshipsItem_load_baseURI|apply split_absolute].
  - reflexivity.
Qed.
Lemma total_ret {A} (a : A) : total (ret a).
Proof. by intros st. Qed.
Lemma total_raise {A} e : total (raise (A:=A) e).
Proof. by intros st. Qed.
Lemma total_gets {A} (g : State → A) : total (gets g).
Proof. by intros st. Qed.
Lemma total_modify g : total (modify (S:=State) g).
Proof. by intros st. Qed.
Lemma total_bind {A B} (c : M A) (k : A → M B) :
  total c → (∀ a, total (k a)) → total (bind c k).
Proof.
  intros Hc Hk st. unfold bind. specialize (Hc st).
  destruct (c st) as [[a| |] st1]; cbn in *; try done. apply Hk.
Qed.

Lemma total_PartTypeSpec ct : total (PartTypeSpec ct).
Proof.
  intros st. unfold PartTypeSpec, bind, PartTypeSpec_new, PartTypeSpec_init, ret.
  repeat (case_match; simplify_eq; cbn in * ); done.
Qed.
Lemma total_getattr {A} a n (g : _ → A) : total (getattr a n g).
Proof. intros st. unfold getattr. by case_match. Qed.
Lemma total_getstream fs u : total (getstream fs u).
Proof.
  unfold getstream. case_match; [apply total_raise|].
  apply total_bind; [apply total_modify|intros _].
  destruct fs; case_match; (apply total_ret || apply total_raise).
Qed.
Lemma total_getelement fs u : total (getelement fs u).
Proof.
  unfold getelement. case_match; [apply total_raise|].
  apply total_bind; [apply total_getstream|intros b].
  case_match; (apply total_ret || apply total_raise).
Qed.
Lemma additems_total self elms : additems self elms ≠ OutOfFuel.
Proof.
  revert self. induction elms as [|e elms IH]; intros self; cbn; [done|].
  unfold additem. case_bool_decide; [done|]. apply IH.
Qed.
Lemma total_RelationshipsItem_load b fs u : total (RelationshipsItem_load b fs u).
Proof.
  unfold RelationshipsItem_load.
  apply total_bind; [apply total_getelement|intros e st]. apply additems_total.
Qed.
Lemma total_Part_load fs p ct : total (Part_load fs p ct).
Proof.
  unfold Part_load. apply total_bind; [apply total_PartTypeSpec|intros ts].
  apply total_bind.
  { unfold load_body, format.
    apply total_bind; [apply total_bind; [apply total_getattr|intros; apply total_ret]|].
    intros fmt. case_match;
      (apply total_bind; [apply total_getelement || apply total_getstream
                         |intros; apply total_ret]). }
  intros [b e]. apply total_bind; [|intros; apply total_ret].
  unfold load_relsitem. apply total_bind.
  { unfold relsitemURI. apply total_bind; [apply total_getattr|intros hr].
    repeat case_match; apply total_ret. }
  intros [uri|]; [|apply total_ret].
  repeat case_match; try apply total_ret; try apply total_raise.
  apply total_bind; [|intros; apply total_ret].
  unfold PartRelationshipsItem_load.
  apply total_bind; [apply total_RelationshipsItem_load|intros; apply total_ret].
Qed.
Lemma total_loadpart fs p ct : total (loadpart fs p ct).
Proof.
  unfold loadpart. apply total_bind; [apply total_gets|intros [|]]; [apply total_raise|].
  apply total_bind; [apply total_Part_load|intros part].
  apply total_bind; [apply total_modify|intros; apply total_ret].
Qed.

Lemma Part_load_Ok fs p ct (st st1 : State) part :
  Part_load fs p ct st = (Ok part, st1) → partname part = p ∧ contains fs p = true.
Proof.
  unfold Part_load. intros (ts & st0 & _ & H)%bind_Ok_inv.
  apply bind_Ok_inv in H as ([b e] & st2 & Hbody & H).
  apply bind_Ok_inv in H as (ri & st3 & _ & H). unfold ret in H. simplify_eq.
  split; [done|]. by apply load_body_Ok in Hbody as [? _].
Qed.

Lemma loadpart_Ok fs p ct (st st' : State) part :
  loadpart fs p ct st = (Ok part, st') →
  partname_dict st !! p = None ∧ partname part = p ∧ contains fs p = true
  ∧ parts st' = parts st ++ [part]
  ∧ partname_dict st' = <[p := part]> (partname_dict st).
Proof.
  intros (Hnone & st1 & Hload & ->)%loadpart_Ok_inv.
  destruct (Part_load_Ok _ _ _ _ _ _ Hload) as [Hname Hc].
  pose proof (keeps_Part_load parts fs p ct (conj (λ _ _, eq_refl) (λ _ _, eq_refl))
                (λ _ _, eq_refl) _ _ _ Hload) as Hp.
  pose proof (keeps_Part_load partname_dict fs p ct (conj (λ _ _, eq_refl) (λ _ _, eq_refl))
                (λ _ _, eq_refl) _ _ _ Hload) as Hd.
  cbn. by rewrite Hp, Hd.
Qed.

Lemma extends_refl (st : State) : extends st st.
Proof. split; [exists []; by rewrite app_nil_r|done]. Qed.

Lemma extends_trans (st1 st2 st3 : State) :
  extends st1 st2 → extends st2 st3 → extends st1 st3.
Proof.
  intros [[n1 H1] Hd1] [[n2 H2] Hd2]. split; [|by eauto].
  exists (n1 ++ n2). by rewrite H2, H1, app_assoc.
Qed.

Lemma targets_loaded_mono rels rs (st st' : State) :
  extends st st' → targets_loaded rels rs st → targets_loaded rels rs st'.
Proof.
  intros [_ Hd] Ht r Hr. destruct (Ht r Hr) as (p & Hp & [part Hpart]).
  exists p. split; [done|]. exists part. by apply Hd.
Qed.

Lemma loadpart_wf fs p ct (st st' : State) part :
  parts_wf fs st → loadpart fs p ct st = (Ok part, st') →
  parts_wf fs st' ∧ extends st st' ∧ remaining fs st' < remaining fs st.
Proof.
  intros (Hnd & Hiff & Hfs) (Hnone & Hname & Hc & Hp & Hd)%loadpart_Ok.
  unfold parts_wf. split_and!.
  - rewrite Hp, fmap_app. apply NoDup_app. split_and!; [done| |by apply NoDup_singleton].
    intros x Hx. cbn. rewrite list_elem_of_singleton. intros ->.
    apply list_elem_of_fmap in Hx as (part' & Hn' & Hin').
    assert (partname_dict st !! p = Some part') as Hs by (apply Hiff; split; congruence).
    congruence.
  - intros q part'. rewrite Hd, Hp, lookup_insert, elem_of_app, list_elem_of_singleton.
    case_decide as Hq.
    + subst q. split; [intros [= <-]; auto|].
      intros [[Hin | ->] Hn]; [|done].
      assert (partname_dict st !! p = Some part') as Hs by (by apply Hiff). congruence.
    + rewrite Hiff. split; [intros [??]; auto|].
      intros [[Hin | ->] Hn]; [done|congruence].
  - intros part'. rewrite Hp, elem_of_app, list_elem_of_singleton.
    intros [Hin | ->]; [by apply Hfs|congruence].
  - split; [by eauto|]. intros q part' Hq. rewrite Hd, lookup_insert_ne; [done|congruence].
  - unfold remaining. rewrite Hd, dom_insert_L. apply subset_size.
    apply bool_decide_eq_true_1 in Hc.
    assert (p ∉ dom (partname_dict st)) by (by apply not_elem_of_dom).
    set_solver.
Qed.

Lemma extends_remaining fs (st st' : State) :
  extends st st' → remaining fs st' ≤ remaining fs st.
Proof.
  intros [_ Hd]. unfold remaining. apply subseteq_size.
  assert (dom (partname_dict st) ⊆ dom (partname_dict st')).
  { intros p [part Hp]%elem_of_dom. apply elem_of_dom. eauto. }
  set_solver.
Qed.

Lemma loadparts_loop_skip recurse fs cti rels r rs (st : State) p :
  target_partname rels r = Ok p → is_Some (partname_dict st !! p) →
  loadparts_loop recurse fs cti rels (r :: rs) st
  = loadparts_loop recurse fs cti rels rs st.
Proof.
  intros Hp Hin. cbn. unfold bind at 1, lift. rewrite Hp.
  unfold bind at 1, gets, PartCollection_contains.
  by rewrite bool_decide_eq_true_2.
Qed.

Lemma closed_from_refl fs (st : State) : parts_wf fs st → closed_from st st.
Proof.
  intros (_ & Hiff & _) part prels Hin Hnone.
  assert (partname_dict st !! partname part = Some part) by (by apply Hiff). congruence.
Qed.

Lemma loadparts_loop_post recurse fs cti rels :
  (∀ prels (st st' : State),
     parts_wf fs st → recurse prels st = (Ok (), st') →
     load_post fs prels (rc_list prels) st st') →
  ∀ rs (st st' : State),
    parts_wf fs st →
    loadparts_loop recurse fs cti rels rs st = (Ok (), st') →
    load_post fs rels rs st st'.
Proof.
  intros Hrec. induction rs as [|r rs IH]; intros st st' Hwf Hrun.
  { cbn in Hrun. unfold ret in Hrun. simplify_eq.
    split_and!; [done|apply extends_refl| |by eapply closed_from_refl].
    intros r Hr. by apply elem_of_nil in Hr. }
  cbn in Hrun.
  apply bind_Ok_inv in Hrun as (p & st0 & Hp & Hrun).
  unfold lift in Hp. injection Hp as Hp <-.
  apply bind_Ok_inv in Hrun as (known & st0 & Hk & Hrun).
  unfold gets in Hk. injection Hk as <- <-.
  unfold PartCollection_contains in Hrun. case_bool_decide as Hknown.
  { destruct (IH _ _ Hwf Hrun) as (Hwf' & Hext & Htl & Hcl).
    split_and!; try done.
    intros r' [-> | Hr']%elem_of_cons; [|by apply Htl].
    exists p. split; [done|]. destruct Hknown as [part Hpart].
    exists part. by apply Hext. }
  apply bind_Ok_inv in Hrun as (ct & st0 & Hct & Hrun).
  unfold lift in Hct. injection Hct as Hct <-.
  apply bind_Ok_inv in Hrun as (part & st1 & Hload & Hrun).
  apply bind_Ok_inv in Hrun as ([] & st2 & Hsub & Hrun).
  destruct (loadpart_wf _ _ _ _ _ _ Hwf Hload) as (Hwf1 & Hext1 & _).
  destruct (loadpart_Ok _ _ _ _ _ _ Hload) as (Hnone & Hname & _ & Hparts1 & Hdict1).
  assert (load_post fs (default (RelationshipCollection_init "") (relationships part))
            (default [] (rc_list <$> relationships part)) st1 st2) as Hsub'.
  { destruct (relationships part) as [prels|] eqn:Hrels; cbn.
    - case_bool_decide as Hne.
      + by apply Hrec.
      + unfold ret in Hsub. simplify_eq.
        split_and!; [done|apply extends_refl| |by eapply closed_from_refl].
        rewrite Hne. intros r' Hr'. by apply elem_of_nil in Hr'.
    - unfold ret in Hsub. simplify_eq.
      split_and!; [done|apply extends_refl| |by eapply closed_from_refl].
      intros r' Hr'. by apply elem_of_nil in Hr'. }
  destruct Hsub' as (Hwf2 & Hext2 & Htl2 & Hcl2).
  destruct (IH _ _ Hwf2 Hrun) as (Hwf3 & Hext3 & Htl3 & Hcl3).
  split_and!; [done|by eauto using extends_trans| |].
  - intros r' [-> | Hr']%elem_of_cons; [|by apply Htl3].
    exists p. split; [done|]. exists part.
    apply Hext3, Hext2. rewrite Hdict1. apply lookup_insert_eq.
  - intros part' prels' Hin3 Hnone' Hrels'.
    destruct (partname_dict st2 !! partname part') as [part2|] eqn:Hd2;
      [|by eapply Hcl3].
    assert (part2 = part') as ->.
    { destruct Hwf3 as (_ & Hiff3 & _).
      assert (partname_dict st' !! partname part' = Some part') as Hs by (by apply Hiff3).
      destruct Hext3 as [_ Hmono]. apply Hmono in Hd2. congruence. }
    apply (targets_loaded_mono _ _ st2); [done|].
    destruct (partname_dict st1 !! partname part') as [part1|] eqn:Hd1.
    + rewrite Hdict1, lookup_insert in Hd1. case_decide as Hq; [|congruence].
      assert (part' = part) as ->.
      { destruct Hext2 as [_ Hmono].
        assert (partname_dict st2 !! partname part' = Some part).
        { apply Hmono. rewrite Hdict1, Hq. apply lookup_insert_eq. }
        congruence. }
      rewrite Hrels' in Htl2. done.
    + destruct Hwf2 as (_ & Hiff2 & _). apply Hiff2 in Hd2 as [Hin2 _].
      by eapply Hcl2.
Qed.

Lemma size_list_to_set_le (l : list string) :
  size (list_to_set l : gset string) ≤ length l.
Proof.
  induction l as [|x l IH]; cbn; [by rewrite size_empty|].
  rewrite size_union_alt, size_singleton.
  etrans; [|apply le_n_S, IH]. apply le_n_S, subseteq_size. set_solver.
Qed.

Lemma remaining_le fs (st : State) : remaining fs st ≤ length (itemURIs fs).
Proof.
  unfold remaining. etrans; [|apply size_list_to_set_le].
  apply subseteq_size. set_solver.
Qed.

Lemma loadparts_loop_total recurse fs cti rels n :
  (∀ prels (st st' : State),
     parts_wf fs st → recurse prels st = (Ok (), st') →
     load_post fs prels (rc_list prels) st st') →
  (∀ prels (st : State),
     parts_wf fs st → remaining fs st < n → (recurse prels st).1 ≠ OutOfFuel) →
  ∀ rs (st : State),
    parts_wf fs st → remaining fs st ≤ n →
    (loadparts_loop recurse fs cti rels rs st).1 ≠ OutOfFuel.
Proof.
  intros Hpost Htot. induction rs as [|r rs IH]; intros st Hwf Hrem; [done|].
  cbn. unfold bind at 1, lift.
  destruct (target_partname rels r) as [p| |] eqn:Hp; [|done|].
  2: { unfold target_partname in Hp. by destruct (target r). }
  unfold bind at 1, gets, PartCollection_contains.
  case_bool_decide as Hknown; [by apply IH|].
  unfold bind at 1.
  destruct (ContentTypesItem_getitem cti p) as [ct| |] eqn:Hct; [|done|].
  2: { unfold ContentTypesItem_getitem in Hct. by repeat case_match. }
  unfold bind at 1.
  destruct (loadpart fs p ct st) as [[part| |] st1] eqn:Hload; [|done|].
  2: { pose proof (total_loadpart fs p ct st) as Ht. by rewrite Hload in Ht. }
  destruct (loadpart_wf _ _ _ _ _ _ Hwf Hload) as (Hwf1 & Hext1 & Hlt).
  unfold bind at 1.
  destruct (relationships part) as [prels|] eqn:Hrels.
  - case_bool_decide as Hne.
    + destruct (recurse prels st1) as [[[]| |] st2] eqn:Hrec; [|done|].
      * destruct (Hpost _ _ _ Hwf1 Hrec) as (Hwf2 & Hext2 & _).
        apply IH; [done|]. pose proof (extends_remaining fs _ _ Hext2). lia.
      * pose proof (Htot prels st1 Hwf1 ltac:(lia)) as Ht. by rewrite Hrec in Ht.
    + cbn. apply IH; [done|lia].
  - cbn. apply IH; [done|lia].
Qed.

Lemma loadparts_post fs cti fuel :
  ∀ rels (st st' : State),
    parts_wf fs st → loadparts fuel fs cti rels st = (Ok (), st') →
    load_post fs rels (rc_list rels) st st'.
Proof.
  induction fuel as [|fuel IH]; intros rels st st' Hwf Hrun; [done|].
  cbn in Hrun. by eapply loadparts_loop_post.
Qed.

Lemma loadparts_total fs cti fuel :
  ∀ rels (st : State),
    parts_wf fs st → remaining fs st < fuel →
    (loadparts fuel fs cti rels st).1 ≠ OutOfFuel.
Proof.
  induction fuel as [|fuel IH]; intros rels st Hwf Hrem; [lia|].
  cbn. apply (loadparts_loop_total _ _ _ _ fuel); [apply loadparts_post|done..|lia].
Qed.

Lemma filter_none {A} (P : A → Prop) `{∀ x, Decision (P x)} (l : list A) :
  (∀ x, x ∈ l → ¬ P x) → filter P l = [].
Proof.
  induction l as [|y l IH]; intros Hl; [done|].
  rewrite filter_cons_False by (apply Hl; left).
  apply IH. intros x Hx. apply Hl. by right.
Qed.

Lemma ZipFileSystem_new_file path (st : State) :
  (∀ files, disk st !! posixpath.abspath cwd path ≠ Some (Directory files)) →
  (disk st !! posixpath.abspath cwd path = None →
   creatable (posixpath.abspath cwd path) = true) →
  ZipFileSystem_new path st
  = (Ok (posixpath.abspath cwd path),
     with_disk (<[posixpath.abspath cwd path := ZipArchive []]> (disk st)) st).
Proof.
  intros Hnd Hcr. unfold ZipFileSystem_new.
  destruct (disk st !! posixpath.abspath cwd path) as [[files| |]|] eqn:Hd; try done.
  - by destruct (Hnd files).
  - by rewrite Hcr.
Qed.

Lemma ZipFileSystem_new_Ok path (st st' : State) z :
  ZipFileSystem_new path st = (Ok z, st') →
  z = posixpath.abspath cwd path
  ∧ st' = with_disk (<[z := ZipArchive []]> (disk st)) st
  ∧ (∀ files, disk st !! z ≠ Some (Directory files))
  ∧ (disk st !! z = None → creatable z = true).
Proof.
  unfold ZipFileSystem_new.
  destruct (disk st !! posixpath.abspath cwd path) as [[files| |]|] eqn:Hd; [done| | |].
  1,2: intros [= <- <-]; split_and!; [done|done|by rewrite Hd|by rewrite Hd].
  destruct (creatable _) eqn:Hcr; [|done].
  intros [= <- <-]. split_and!; [done|done|by rewrite Hd|done].
Qed.

End properties.

(** ** Round trip *)


Section roundtrip.
Context `{env : Environment}.
Local Abbreviation State := (state bytes loadclass).
Local Abbreviation M := (M State).

(** *** Relationship items survive serialisation *)

Lemma Relationship_element_Ok r e :
  Relationship_element r = Ok e →
  ∃ i t g, r = {| rId := Some i; reltype := Some t; target := Some g |}
           ∧ e = Element "Relationship" None [("Id", i); ("Type", t); ("Target", g)] [].
Proof.
  destruct r as [[i|] [t|] [g|]]; unfold Relationship_element; cbn; try done.
  rewrite !bool_decide_eq_false_2 by set_solver. cbn. intros [= <-]. eauto.
Qed.

Lemma append_rels_Ok t n a cs rels e :
  append_rels (Element t n a cs) rels = Ok e →
  ∃ es, Forall2 (λ r e', Relationship_element r = Ok e') rels es
        ∧ e = Element t n a (cs ++ es).
Proof.
  revert cs. induction rels as [|r rels IH]; intros cs; cbn.
  - intros [= <-]. exists []. by rewrite app_nil_r.
  - destruct (Relationship_element r) as [e'| |] eqn:He; try done.
    intros (es & Hes & ->)%IH. exists (e' :: es). split; [by constructor|].
    by rewrite <-app_assoc.
Qed.

Lemma Relationship_init_resolved scope r e :
  Relationship_element r = Ok e →
  Relationship_init (resolve_ns (Some scope) e) = r
  ∧ tag (resolve_ns (Some scope) e) = clark scope "Relationship".
Proof. intros (i & t & g & -> & ->)%Relationship_element_Ok. done. Qed.

Lemma rels_children_reload rels es :
  Forall2 (λ r e', Relationship_element r = Ok e') rels es →
  Relationship_init <$> filter (λ c, tag c = clark ns_pr "Relationship")
                          (map (resolve_ns (Some ns_pr)) es)
  = rels.
Proof.
  induction 1 as [|r e' rs es' He Hes IH]; [done|].
  destruct (Relationship_init_resolved ns_pr _ _ He) as [Hinit Htag].
  change (map ?f (e' :: es')) with (f e' :: map f es').
  rewrite filter_cons_True by done. rewrite fmap_cons. by rewrite Hinit, IH.
Qed.

Lemma RelationshipsItem_element_reload rels e :
  RelationshipsItem_element rels = Ok e →
  Relationship_init <$> findall (resolve_ns None e) (clark ns_pr "Relationship")
  = rc_list rels.
Proof.
  unfold RelationshipsItem_element. intros (es & Hes & ->)%append_rels_Ok.
  unfold findall. cbn [resolve_ns children app]. by apply rels_children_reload.
Qed.

Lemma additems_ext self elms elms' :
  Relationship_init <$> elms = Relationship_init <$> elms' →
  additems self elms = additems self elms'.
Proof.
  revert self elms'. induction elms as [|e elms IH]; intros self [|e' elms']; try done.
  rewrite !fmap_cons. intros Heq.
  assert (Relationship_init e = Relationship_init e'
          ∧ Relationship_init <$> elms = Relationship_init <$> elms') as [He Hrest]
    by (split; congruence).
  cbn. unfold additem. rewrite He.
  case_bool_decide; [done|]. by apply IH.
Qed.

Lemma additems_list self elms self' :
  additems self elms = Ok self' →
  rc_list self' = rc_list self ++ (Relationship_init <$> elms).
Proof.
  revert self. induction elms as [|e elms IH]; intros self; cbn.
  - intros [= <-]. by rewrite app_nil_r.
  - unfold additem. case_bool_decide; [done|]. intros ->%IH. cbn.
    by rewrite <-app_assoc.
Qed.

Lemma collection_reload b rels e :
  loaded_collection b rels →
  RelationshipsItem_element rels = Ok e →
  additems (RelationshipCollection_init b)
    (findall (resolve_ns None e) (clark ns_pr "Relationship")) = Ok rels.
Proof.
  intros [elms Helms] He. rewrite <-Helms. apply additems_ext.
  rewrite (RelationshipsItem_element_reload _ _ He).
  by rewrite (additems_list _ _ _ Helms).
Qed.

(** *** The content types item survives serialisation *)

Lemma dict_of_snoc {K} `{Countable K} {V} (l : list (K * V)) k v :
  dict_of (l ++ [(k, v)]) = <[k := v]> (dict_of l).
Proof. unfold dict_of. by rewrite foldl_app. Qed.

Lemma dict_of_lookup {K} `{Countable K} {V} (l : list (K * V)) i x :
  NoDup l.*1 → dict_of l !! i = Some x ↔ (i, x) ∈ l.
Proof.
  induction l as [|[k v] l IH] using rev_ind; intros Hnd.
  - unfold dict_of; cbn. rewrite lookup_empty. split; [done|]. by intros ?%elem_of_nil.
  - rewrite fmap_app in Hnd. apply NoDup_app in Hnd as (Hnd & Hk & _).
    rewrite dict_of_snoc, lookup_insert, elem_of_app, list_elem_of_singleton.
    case_decide as Hki.
    + subst k. split; [intros [= ->]; auto|]. intros [Hin | [= ->]]; [|done].
      exfalso. eapply (Hk i); [|cbn; left]. apply list_elem_of_fmap. by exists (i, x).
    + rewrite IH by done. split; [auto|]. intros [Hin | [= -> ->]]; done.
Qed.

Lemma dict_of_reload (d : gmap pystr pystr) keys (pairs : list (pystr * pystr)) :
  keys ≡ₚ (map_to_list d).*1 →
  Forall2 (λ k kv, kv.1 = k ∧ d !! k = Some kv.2) keys pairs →
  dict_of pairs = d.
Proof.
  intros Hperm Hpairs.
  assert (pairs.*1 = keys) as Hfst.
  { clear Hperm. induction Hpairs as [|k kv ks ps [Hk _] _ IH]; [done|].
    cbn. by rewrite Hk, IH. }
  assert (NoDup keys) as Hnd.
  { rewrite Hperm. apply NoDup_fst_map_to_list. }
  apply map_eq. intros i. apply option_eq. intros x.
  rewrite dict_of_lookup by (by rewrite Hfst). split.
  - intros Hin. apply list_elem_of_lookup in Hin as [n Hn].
    destruct (Forall2_lookup_r _ _ _ _ _ Hpairs Hn) as (k & _ & Hk & Hd).
    cbn in *. by subst.
  - intros Hd. assert (i ∈ keys) as Hin.
    { rewrite Hperm. apply list_elem_of_fmap. exists (i, x). split; [done|].
      by apply elem_of_map_to_list. }
    apply list_elem_of_lookup in Hin as [n Hn].
    destruct (Forall2_lookup_l _ _ _ _ _ Hpairs Hn) as ([k' v'] & Hkv & Hk & Hd').
    cbn in *. subst. apply list_elem_of_lookup. exists n. congruence.
Qed.

Lemma ct_children_Ok tagname keyattr d keys l :
  keyattr ≠ "ContentType" →
  ct_children tagname keyattr d keys = Ok l →
  Forall2 (λ k e, ∃ k' v', k = Some k' ∧ d !! k = Some (Some v')
                    ∧ e = Element tagname None [(keyattr, k'); ("ContentType", v')] [])
    keys l.
Proof.
  intros Hattr. revert l. induction keys as [|k keys IH]; intros l; cbn.
  - intros [= <-]. constructor.
  - destruct k as [k'|]; cbn; [|done].
    destruct (d !! Some k') as [[v'|]|] eqn:Hd; cbn; try done.
    rewrite bool_decide_eq_false_2 by set_solver. cbn.
    destruct (ct_children tagname keyattr d keys) as [l'| |]; try done.
    intros [= <-]. constructor; [|by apply IH]. eauto.
Qed.

Lemma clark_neq uri t1 t2 : t1 ≠ t2 → clark uri t1 ≠ clark uri t2.
Proof.
  intros Hne. unfold clark. intros Heq.
  apply (inj (String.app "{")), (inj (String.app uri)), (inj (String.app "}")) in Heq.
  done.
Qed.

Lemma get_two t n k1 v1 k2 v2 cs :
  k1 ≠ k2 →
  get (Element t n [(k1, v1); (k2, v2)] cs) k1 = Some v1
  ∧ get (Element t n [(k1, v1); (k2, v2)] cs) k2 = Some v2.
Proof.
  intros Hne. unfold get. cbn [attrib]. split.
  - by rewrite filter_cons_True by done.
  - rewrite filter_cons_False by (cbn; congruence).
    by rewrite filter_cons_True by done.
Qed.

Lemma resolve_ns_clark scope u t a :
  resolve_ns (Some scope) (Element (clark u t) None a [])
  = Element (clark u t) None a [].
Proof. reflexivity. Qed.

Lemma section_reload (tagname keyattr : string) (d : gmap pystr pystr)
    (l before after : list etree) :
  keyattr ≠ "ContentType" →
  ct_children (clark ns_ct tagname) keyattr d (sorted_keys d) = Ok l →
  Forall (λ e, tag e ≠ clark ns_ct tagname) before →
  Forall (λ e, tag e ≠ clark ns_ct tagname) after →
  dict_of ((λ x, (get x keyattr, get x "ContentType"))
             <$> filter (λ c, tag c = clark ns_ct tagname)
                   (before ++ map (resolve_ns (Some ns_ct)) l ++ after)) = d.
Proof.
  intros Hattr Hl Hb Ha.
  pose proof (ct_children_Ok _ _ _ _ _ Hattr Hl) as Hall.
  rewrite !filter_app.
  rewrite (filter_none _ before), (filter_none _ after), app_nil_l, app_nil_r.
  2: { intros x Hx. by eapply Forall_forall in Ha. }
  2: { intros x Hx. by eapply Forall_forall in Hb. }
  apply (dict_of_reload _ (sorted_keys d)).
  { unfold sorted_keys. apply merge_sort_Permutation. }
  clear Hl. induction Hall as [|k e ks es (k' & v' & -> & Hd & ->) _ IH]; [constructor|].
  change (map ?f (?x :: ?xs)) with (f x :: map f xs).
  rewrite resolve_ns_clark.
  rewrite filter_cons_True by done. rewrite fmap_cons. constructor; [|done].
  destruct (get_two (clark ns_ct tagname) None keyattr k' "ContentType" v' [] Hattr)
    as [-> ->].
  done.
Qed.

Lemma ContentTypesItem_element_reload d o e :
  ContentTypesItem_element {| defaults := Some d; overrides := Some o |} = Ok e →
  dict_of ((λ x, (get x "Extension", get x "ContentType"))
             <$> findall (resolve_ns None e) (clark ns_ct "Default")) = d
  ∧ dict_of ((λ x, (get x "PartName", get x "ContentType"))
               <$> findall (resolve_ns None e) (clark ns_ct "Override")) = o.
Proof.
  unfold ContentTypesItem_element. cbn [defaults overrides].
  destruct (ct_children (clark ns_ct "Default") _ d _) as [ds| |] eqn:Hds; try done.
  destruct (ct_children (clark ns_ct "Override") _ o _) as [os| |] eqn:Hos; try done.
  intros [= <-]. unfold findall. cbn [resolve_ns children]. rewrite map_app.
  assert (∀ t1 t2 k m l, k ≠ "ContentType" → t1 ≠ t2 →
            ct_children (clark ns_ct t1) k m (sorted_keys m) = Ok l →
            Forall (λ e, tag e ≠ clark ns_ct t2) (map (resolve_ns (Some ns_ct)) l)) as Hother.
  { intros t1 t2 k m l Hk Ht Hl. apply ct_children_Ok in Hl; [|done].
    revert Hl. generalize (sorted_keys m). intros ks Hl.
    induction Hl as [|?? ?? (k' & v' & -> & _ & ->) _ IH]; [by apply Forall_nil_2|].
    apply Forall_cons. split; [|done]. cbn. by apply clark_neq. }
  split.
  - apply (section_reload "Default" "Extension" d ds []); [done..|constructor|].
    eapply Hother; [| |exact Hos]; done.
  - rewrite <-(app_nil_r (map _ os)).
    apply (section_reload "Override" "PartName" o os _ []); [done..| |constructor].
    eapply Hother; [| |exact Hds]; done.
Qed.

(** *** Archives *)

Lemma sorted_elem (l : list string) u : u ∈ sorted l ↔ u ∈ l.
Proof. unfold sorted. by rewrite merge_sort_Permutation. Qed.

Lemma zip_itemURIs_elem (ms : list (string * bytes)) u :
  u ∈ zip_itemURIs ms ↔ ∃ n, u = "/" +:+ n ∧ n ∈ ms.*1 ∧ endswith n "/" = false.
Proof.
  unfold zip_itemURIs. rewrite sorted_elem, list_elem_of_fmap.
  split; intros (n & Hu & Hn); exists n; (split; [exact Hu|]).
  - apply list_elem_of_filter in Hn as [He Hn]. split; [done|].
    by destruct (endswith n "/").
  - apply list_elem_of_filter. destruct Hn as [Hn He]. split; [|done]. rewrite He. by intros [].
Qed.

Lemma member_uri_split u : member_uri u → u = "/" +:+ tail1 u.
Proof. intros [[u' ->]%startswith_slash _]. done. Qed.








(** *** What [save] writes *)

Lemma write_element_Ok z e u (st st' : State) :
  write_element z e u st = (Ok (), st') →
  ∃ ms x, e = Some x ∧ disk st !! z = Some (ZipArchive ms) ∧ (u ∉ zip_itemURIs ms)
          ∧ st' = with_disk (<[z := ZipArchive (ms ++ [(tail1 u, tostring x)])]> (disk st)) st.
Proof.
  unfold write_element. intros (ms & st0 & Hopen & Hrest)%bind_Ok_inv.
  unfold zip_open in Hopen. destruct (disk st !! z) as [[| |]|] eqn:Hd; simplify_eq.
  case_bool_decide; [done|]. destruct e as [x|]; [|done].
  unfold zip_writestr, bind, zip_open, modify in Hrest. rewrite Hd in Hrest.
  simplify_eq. eauto 10.
Qed.

Lemma write_blob_Ok z b u (st st' : State) :
  write_blob z b u st = (Ok (), st') →
  ∃ ms x, b = Some x ∧ disk st !! z = Some (ZipArchive ms) ∧ (u ∉ zip_itemURIs ms)
          ∧ st' = with_disk (<[z := ZipArchive (ms ++ [(tail1 u, x)])]> (disk st)) st.
Proof.
  unfold write_blob. intros (ms & st0 & Hopen & Hrest)%bind_Ok_inv.
  unfold zip_open in Hopen. destruct (disk st !! z) as [[| |]|] eqn:Hd; simplify_eq.
  case_bool_decide; [done|]. destruct b as [x|]; [|done].
  unfold zip_writestr, bind, zip_open, modify in Hrest. rewrite Hd in Hrest.
  simplify_eq. eauto 10.
Qed.

Lemma format_Ok ts (st st' : State) fmt :
  format ts st = (Ok fmt, st') →
  st' = st ∧ ∃ a, objects st !! ts ≫= attrs = Some a
                  ∧ fmt = if bool_decide (ext a = ".xml") then "xml" else "binary".
Proof.
  unfold format, bind, getattr, ret.
  destruct (objects st !! ts ≫= attrs) as [a|]; [|done]. intros [= <- <-]. eauto.
Qed.


Lemma with_disk_with_disk d d' (st : State) :
  with_disk d (with_disk d' st) = with_disk d st.
Proof. done. Qed.


Lemma keeps_compose_loop {B} (f : State → B) ps d o : keeps f (compose_loop ps d o).
Proof.
  revert d o. induction ps as [|part ps IH]; intros d o; cbn; [apply keeps_ret|].
  case_bool_decide.
  - apply keeps_bind; [apply keeps_getattr|intros; apply IH].
  - case_match; [apply IH|apply keeps_raise].
Qed.

Lemma keeps_compose {B} (f : State → B) ps : keeps f (compose ps).
Proof. unfold compose. repeat case_match; (apply keeps_compose_loop || apply keeps_raise). Qed.

Lemma compose_loop_objects ps d o (st1 st2 : State) :
  objects st1 = objects st2 →
  (compose_loop ps d o st1).1 = (compose_loop ps d o st2).1.
Proof.
  intros Hobj. revert d o. induction ps as [|part ps IH]; intros d o; cbn; [done|].
  case_bool_decide.
  - unfold bind, getattr. rewrite Hobj.
    destruct (objects st2 !! typespec part ≫= attrs); [apply IH|done].
  - case_match; [apply IH|done].
Qed.

Lemma compose_objects ps (st1 st2 : State) r :
  objects st1 = objects st2 →
  compose ps st1 = (r, st1) → compose ps st2 = (r, st2).
Proof.
  intros Hobj Hrun.
  destruct (compose ps st2) as [r2 st2'] eqn:Hrun2.
  pose proof (keeps_compose id ps _ _ _ Hrun2) as Hst. cbn in Hst. subst st2'.
  f_equal. unfold compose in *.
  destruct (default_content_types !! ".rels") as [a|];
    [destruct (default_content_types !! ".xml") as [b|]|];
    try (unfold raise in *; by simplify_eq).
  match type of Hrun with
  | compose_loop _ ?d ?o _ = _ =>
      pose proof (compose_loop_objects ps d o st1 st2 Hobj) as Heq
  end.
  rewrite Hrun, Hrun2 in Heq. done.
Qed.









Lemma RelationshipsItem_load_Ok b fs u (st st' : State) rels :
  RelationshipsItem_load b fs u st = (Ok rels, st') → loaded_collection b rels.
Proof.
  unfold RelationshipsItem_load. intros (e & st1 & _ & Hadd)%bind_Ok_inv.
  unfold lift in Hadd. injection Hadd as Hadd _. by eexists.
Qed.


Lemma target_partname_absolute rels r p :
  startswith (rc_baseURI rels) "/" = true →
  target_partname rels r = Ok p → startswith p "/" = true.
Proof.
  intros Hbase. unfold target_partname. destruct (target r) as [t|]; [|done].
  intros [= <-]. pose proof (join_absolute _ t Hbase) as Habs.
  rewrite abspath_absolute by done. by apply normpath_startswith.
Qed.

(** *** An invariant over the walk *)

Lemma loadparts_loop_invariant (I : State → Prop) recurse fs cti rels :
  (∀ prels (st st' : State),
     I st → startswith (rc_baseURI prels) "/" = true →
     recurse prels st = (Ok (), st') → I st') →
  (∀ p ct (st st' : State) part,
     I st → startswith p "/" = true → loadpart fs p ct st = (Ok part, st') →
     I st' ∧ ∀ prels, relationships part = Some prels →
              startswith (rc_baseURI prels) "/" = true) →
  startswith (rc_baseURI rels) "/" = true →
  ∀ rs (st st' : State),
    I st → loadparts_loop recurse fs cti rels rs st = (Ok (), st') → I st'.
Proof.
  intros Hrec Hstep Hbase. induction rs as [|r rs IH]; intros st st' HI Hrun.
  { cbn in Hrun. unfold ret in Hrun. by simplify_eq. }
  cbn in Hrun.
  apply bind_Ok_inv in Hrun as (p & st0 & Hp & Hrun).
  unfold lift in Hp. injection Hp as Hp <-.
  apply bind_Ok_inv in Hrun as (known & st0 & Hk & Hrun).
  unfold gets in Hk. injection Hk as <- <-.
  destruct (PartCollection_contains st p); [by eapply IH|].
  apply bind_Ok_inv in Hrun as (ct & st0 & Hct & Hrun).
  unfold lift in Hct. injection Hct as Hct <-.
  apply bind_Ok_inv in Hrun as (part & st1 & Hload & Hrun).
  apply bind_Ok_inv in Hrun as ([] & st2 & Hsub & Hrun).
  destruct (Hstep _ _ _ _ _ HI (target_partname_absolute _ _ _ Hbase Hp) Hload)
    as [HI1 Hbase1].
  apply (IH st2); [|done].
  destruct (relationships part) as [prels|]; [|unfold ret in Hsub; by simplify_eq].
  case_bool_decide; [|unfold ret in Hsub; by simplify_eq].
  apply (Hrec prels st1 st2); [done|by apply Hbase1|done].
Qed.

Lemma loadparts_invariant (I : State → Prop) fs cti :
  (∀ p ct (st st' : State) part,
     I st → startswith p "/" = true → loadpart fs p ct st = (Ok part, st') →
     I st' ∧ ∀ prels, relationships part = Some prels →
              startswith (rc_baseURI prels) "/" = true) →
  ∀ fuel rels (st st' : State),
    I st → startswith (rc_baseURI rels) "/" = true →
    loadparts fuel fs cti rels st = (Ok (), st') → I st'.
Proof.
  intros Hstep. induction fuel as [|fuel IH]; intros rels st st' HI Hbase Hrun; [done|].
  cbn in Hrun. eapply loadparts_loop_invariant; eauto.
Qed.

Lemma loaded_collection_baseURI b rels : loaded_collection b rels → rc_baseURI rels = b.
Proof. intros [elms Helms]. by apply additems_baseURI in Helms. Qed.


(** *** Enough fuel is as good as more *)



Section replay.
Variables (fs1 fs2 : FileSystem) (cti1 cti2 : ContentTypesItem).
Variables (insts : gmap pystr nat) (objs : list (PartTypeSpec_obj loadclass)).




End replay.




Lemma FileSystem_new_Ok path (st st' : State) fs :
  FileSystem_new path st = (Ok fs, st') →
  st' = st
  ∧ ((∃ files, disk st !! posixpath.abspath cwd path = Some (Directory files)
               ∧ fs = DirectoryFileSystem (posixpath.abspath cwd path) files)
     ∨ (∃ ms, disk st !! posixpath.abspath cwd path = Some (ZipArchive ms)
              ∧ fs = ZipFileSystem (posixpath.abspath cwd path) ms)).
Proof.
  unfold FileSystem_new.
  destruct (disk st !! posixpath.abspath cwd path) as [[files|ms|]|];
    intros; simplify_eq; eauto 10.
Qed.



Lemma getelement_Ok fs u (st st' : State) e :
  getelement fs u st = (Ok e, st') →
  contains fs u = true ∧ st' = with_reads (reads st ++ [u]) st.
Proof.
  intros Hrun. pose proof (getelement_Ok_contains _ _ _ _ _ Hrun) as Hc.
  apply getelement_state in Hrun. by rewrite Hc in Hrun.
Qed.

Lemma keeps_loadpart {B} (f : State → B) fs p ct :
  registry_blind f → reads_blind f →
  (∀ v d st, f (with_parts v d st) = f st) →
  keeps f (loadpart fs p ct).
Proof.
  intros Hr Hrd Hp. unfold loadpart.
  apply keeps_bind; [apply keeps_gets|intros [|]; [apply keeps_raise|]].
  apply keeps_bind; [by apply keeps_Part_load|intros part].
  apply keeps_bind; [|intros; apply keeps_ret].
  apply keeps_modify. intros. apply Hp.
Qed.

Lemma loadparts_pkg_relsitem fs cti fuel rels (st st' : State) :
  startswith (rc_baseURI rels) "/" = true →
  loadparts fuel fs cti rels st = (Ok (), st') →
  pkg_relsitem st' = pkg_relsitem st.
Proof.
  intros Hbase Hrun.
  apply (loadparts_invariant (λ s, pkg_relsitem s = pkg_relsitem st) fs cti)
    with (fuel := fuel) (rels := rels) (st := st); [|done..].
  intros p ct s s' part Hs Hp Hload. split.
  - rewrite <-Hs. by eapply (keeps_loadpart pkg_relsitem).
  - intros prels Hprels.
    (* the base of a part's relationships is the directory of the part *)
    apply loadpart_Ok_inv in Hload as (_ & s1 & Hload & _).
    unfold Part_load in Hload.
    apply bind_Ok_inv in Hload as (ts & s2 & _ & Hload).
    apply bind_Ok_inv in Hload as ([b e] & s3 & _ & Hload).
    apply bind_Ok_inv in Hload as (ri & s4 & Hri & Hret).
    unfold ret in Hret. injection Hret as <- <-.
    unfold relationships in Hprels. cbn in Hprels.
    destruct ri as [ri|]; [|done]. cbn in Hprels. injection Hprels as <-.
    unfold load_relsitem in Hri.
    apply bind_Ok_inv in Hri as (uri & s5 & _ & Hri).
    destruct uri as [uri|]; [|unfold ret in Hri; by simplify_eq].
    repeat case_match; try (unfold ret, raise in Hri; by simplify_eq).
    apply bind_Ok_inv in Hri as (ri' & s6 & Hri' & Hret).
    unfold ret in Hret. injection Hret as -> <-.
    unfold PartRelationshipsItem_load in Hri'.
    apply bind_Ok_inv in Hri' as (rels' & s7 & Hrl & Hret).
    unfold ret in Hret. injection Hret as <- <-. cbn.
    apply RelationshipsItem_load_baseURI in Hrl. rewrite Hrl.
    by apply split_absolute.
Qed.






Lemma Package_open_Ok location (st0 st1 : State) :
  Package_open location st0 = (Ok (), st1) →
  ∃ fs cti ri sc,
    FileSystem_new location st0 = (Ok fs, st0)
    ∧ contains fs "/[Content_Types].xml" = true
    ∧ contains fs "/_rels/.rels" = true
    ∧ loaded_collection "/" (pkg_relationships ri)
    ∧ sc = with_pkg_relsitem (Some ri) (with_reads (reads sc) st0)
    ∧ loadparts (S (length (itemURIs fs))) fs cti (pkg_relationships ri) sc = (Ok (), st1).
Proof.
  unfold Package_open.
  intros (fs & s1 & Hfs & Hrun)%bind_Ok_inv.
  pose proof (FileSystem_new_Ok _ _ _ _ Hfs) as [-> _].
  apply bind_Ok_inv in Hrun as (cti & s2 & Hcti & Hrun).
  unfold ContentTypesItem_load in Hcti.
  apply bind_Ok_inv in Hcti as (e & s3 & He & Hret).
  unfold ret in Hret. injection Hret as <- <-.
  apply getelement_Ok in He as [Hc1 ->].
  apply bind_Ok_inv in Hrun as (ri & s4 & Hri & Hrun).
  unfold PackageRelationshipsItem_load in Hri.
  apply bind_Ok_inv in Hri as (rels & s5 & Hrl & Hret).
  unfold ret in Hret. injection Hret as <- <-.
  pose proof (RelationshipsItem_load_Ok _ _ _ _ _ _ Hrl) as Hlc.
  unfold RelationshipsItem_load in Hrl.
  apply bind_Ok_inv in Hrl as (e' & s6 & He' & Hadd).
  unfold lift in Hadd. injection Hadd as _ <-.
  apply getelement_Ok in He' as [Hc2 ->].
  apply bind_Ok_inv in Hrun as ([] & s7 & Hmod & Hrun).
  unfold modify in Hmod. injection Hmod as <-.
  eexists fs, _, {| pkg_relationships := rels |}, _.
  split_and!; [done..| |exact Hrun]. done.
Qed.


End roundtrip.
(** * Saving over a file *)

Section replace.
Context `{env : Environment}.
Local Abbreviation State := (state bytes loadclass).
Local Abbreviation M := (M State).

Lemma save_parts_items z ps :
  ∀ (st st' : State) ms,
    disk st !! z = Some (ZipArchive ms) →
    save_parts z ps st = (Ok (), st') →
    ∃ items, parts_items (objects st) ps = Some items
             ∧ st' = with_disk (<[z := ZipArchive (ms ++ items)]> (disk st)) st.
Proof.
  induction ps as [|q ps IH]; intros st st' ms Hz Hrun.
  { cbn in Hrun. unfold ret in Hrun. injection Hrun as <-. exists []. split; [done|].
    rewrite app_nil_r, insert_id by done. by destruct st. }
  cbn in Hrun.
  apply bind_Ok_inv in Hrun as (fmt & s0 & Hfmt & Hrun).
  apply format_Ok in Hfmt as (-> & a & Ha & ->).
  apply bind_Ok_inv in Hrun as ([] & s1 & Hbody & Hrun).
  assert (∃ x, (if bool_decide (ext a = ".xml") then tostring <$> element q else blob q)
               = Some x
               ∧ s1 = with_disk (<[z := ZipArchive (ms ++ [(tail1 (partname q), x)])]> (disk st))
                        st) as (x & Hx & ->).
  { destruct (bool_decide (ext a = ".xml")) eqn:Hxml.
    - rewrite bool_decide_eq_true_2 in Hbody by done.
      apply write_element_Ok in Hbody as (ms0 & x & -> & Hms0 & _ & ->).
      rewrite Hz in Hms0. injection Hms0 as <-. eauto.
    - rewrite bool_decide_eq_false_2 in Hbody by done.
      apply write_blob_Ok in Hbody as (ms0 & x & -> & Hms0 & _ & ->).
      rewrite Hz in Hms0. injection Hms0 as <-. eauto. }
  apply bind_Ok_inv in Hrun as ([] & s2 & Hrels & Hrun).
  cbn [parts_items]. unfold part_items. rewrite Ha. cbn [mbind option_bind]. rewrite Hx.
  cbn [mbind option_bind].
  destruct (relsitem q) as [ri|].
  - apply bind_Ok_inv in Hrels as (e & s3 & [= He <-] & Hrels).
    apply write_element_Ok in Hrels as (ms0 & x' & [= <-] & Hms0 & _ & ->).
    cbn in Hms0. rewrite lookup_insert_eq in Hms0. injection Hms0 as <-.
    eapply IH in Hrun as (items & Hitems & ->); [|cbn; apply lookup_insert_eq].
    cbn [objects with_disk] in Hitems. rewrite He, Hitems. cbn [mbind option_bind].
    eexists. split; [done|]. cbn. rewrite !insert_insert_eq, <-!app_assoc. done.
  - unfold ret in Hrels. injection Hrels as <-.
    eapply IH in Hrun as (items & Hitems & ->); [|cbn; apply lookup_insert_eq].
    cbn [objects with_disk] in Hitems. rewrite Hitems. cbn [mbind option_bind].
    eexists. split; [done|]. cbn. rewrite !insert_insert_eq, <-!app_assoc. done.
Qed.

Lemma write_element_dup z (ms : list (string * bytes)) e u (st : State) :
  disk st !! z = Some (ZipArchive ms) → u ∈ zip_itemURIs ms →
  write_element z e u st
  = (Raise (DuplicateKeyError ("Item with URI '" +:+ u +:+ "' already in package")), st).
Proof.
  intros Hd Hin. unfold write_element, bind, zip_open. rewrite Hd.
  by rewrite bool_decide_eq_true_2.
Qed.

Lemma write_blob_dup z (ms : list (string * bytes)) b u (st : State) :
  disk st !! z = Some (ZipArchive ms) → u ∈ zip_itemURIs ms →
  write_blob z b u st
  = (Raise (DuplicateKeyError ("Item with URI '" +:+ u +:+ "' already in package")), st).
Proof.
  intros Hd Hin. unfold write_blob, bind, zip_open. rewrite Hd.
  by rewrite bool_decide_eq_true_2.
Qed.

Lemma write_element_new z (ms : list (string * bytes)) e u (st : State) :
  disk st !! z = Some (ZipArchive ms) → u ∉ zip_itemURIs ms →
  write_element z e u st
  = match e with
    | Some x => (Ok (), with_disk (<[z := ZipArchive (ms ++ [(tail1 u, tostring x)])]> (disk st)) st)
    | None => (Raise (TypeError "Type 'NoneType' cannot be serialized."), st)
    end.
Proof.
  intros Hd Hin. unfold write_element. unfold bind at 1. unfold zip_open at 1. rewrite Hd.
  rewrite bool_decide_eq_false_2 by done. destruct e as [x|]; [|done].
  unfold zip_writestr, bind, zip_open, modify. by rewrite Hd.
Qed.

Lemma write_blob_new z (ms : list (string * bytes)) b u (st : State) :
  disk st !! z = Some (ZipArchive ms) → u ∉ zip_itemURIs ms →
  write_blob z b u st
  = match b with
    | Some x => (Ok (), with_disk (<[z := ZipArchive (ms ++ [(tail1 u, x)])]> (disk st)) st)
    | None => (Raise (TypeError "must be string or buffer, not None"), st)
    end.
Proof.
  intros Hd Hin. unfold write_blob. unfold bind at 1. unfold zip_open at 1. rewrite Hd.
  rewrite bool_decide_eq_false_2 by done. destruct b as [x|]; [|done].
  unfold zip_writestr, bind, zip_open, modify. by rewrite Hd.
Qed.

Lemma Package_save_items path (st st' : State) :
  Package_save path st = (Ok (), st') →
  ∃ cti e_ct ri e_rels items,
    compose (parts st) st = (Ok cti, st)
    ∧ ContentTypesItem_element cti = Ok e_ct
    ∧ pkg_relsitem st = Some ri
    ∧ RelationshipsItem_element (pkg_relationships ri) = Ok e_rels
    ∧ parts_items (objects st) (parts st) = Some items
    ∧ st' = with_disk
              (<[posixpath.abspath cwd (normalizedpath path) :=
                   ZipArchive (("[Content_Types].xml", tostring e_ct)
                               :: ("_rels/.rels", tostring e_rels) :: items)]> (disk st)) st.
Proof.
  intros Hrun. unfold Package_save in Hrun.
  apply bind_Ok_inv in Hrun as (z & s0 & Hnew & Hrun).
  apply ZipFileSystem_new_Ok in Hnew as (Hz & -> & _). rewrite <-Hz. clear Hz.
  apply bind_Ok_inv in Hrun as (ps & s1 & [= <- <-] & Hrun).
  apply bind_Ok_inv in Hrun as (cti & s2 & Hcti & Hrun).
  pose proof (keeps_compose id _ _ _ _ Hcti) as Hs2. cbn in Hs2. subst s2.
  apply bind_Ok_inv in Hrun as (e & s3 & [= He <-] & Hrun).
  apply bind_Ok_inv in Hrun as ([] & s4 & Hw1 & Hrun).
  apply write_element_Ok in Hw1 as (m1 & x1 & [= <-] & Hm1 & _ & ->).
  cbn in Hm1. rewrite lookup_insert_eq in Hm1. injection Hm1 as <-.
  apply bind_Ok_inv in Hrun as (ri & s5 & Hri & Hrun).
  unfold gets in Hri. injection Hri as Hri <-.
  destruct ri as [ri|]; [|done].
  apply bind_Ok_inv in Hrun as (e2 & s6 & [= He2 <-] & Hrun).
  apply bind_Ok_inv in Hrun as ([] & s7 & Hw2 & Hrun).
  apply write_element_Ok in Hw2 as (m2 & x2 & [= <-] & Hm2 & _ & ->).
  cbn in Hm2. rewrite lookup_insert_eq in Hm2. injection Hm2 as <-.
  apply bind_Ok_inv in Hrun as (ps2 & s8 & [= <- <-] & Hrun).
  eapply save_parts_items in Hrun as (items & Hitems & ->); [|cbn; apply lookup_insert_eq].
  exists cti, e, ri, e2, items. cbn in Hri, Hitems |- *.
  split_and!; [|done..|].
  - eapply compose_objects; [|exact Hcti]. done.
  - by rewrite !insert_insert_eq.
Qed.

(** C3 (amended). [save] replaces what is at the suffix-normalised
    target, directories apart: [ZipFileSystem.new] truncates the file
    to an empty archive, the outcome of [save] is the same whatever
    the file held before, and the same as where there was no file; a
    [save] that succeeds leaves at the target the archive of
    [Content_Types].xml, the package relationships and the items of
    the parts in their order, and nothing of what was there.
    [write_element] and [write_blob] raise [DuplicateKeyError] for an
    item URI that is in the archive being written, and for no other. *)
Theorem save_replaces_target path (st : State) (e : disk_entry bytes) :
  let target := posixpath.abspath cwd (normalizedpath path) in
  let over e := with_disk (<[target := e]> (disk st)) st in
  (∀ files, e ≠ Directory files) →
  ZipFileSystem_new (normalizedpath path) (over e) = (Ok target, over (ZipArchive []))
  ∧ (∀ e', (∀ files, e' ≠ Directory files) →
       Package_save path (over e') = Package_save path (over e))
  ∧ (creatable target = true →
       Package_save path (with_disk (delete target (disk st)) st)
       = Package_save path (over e))
  ∧ (∀ st',
       Package_save path (over e) = (Ok (), st') →
       ∃ cti e_ct ri e_rels items,
         compose (parts st) st = (Ok cti, st)
         ∧ ContentTypesItem_element cti = Ok e_ct
         ∧ pkg_relsitem st = Some ri
         ∧ RelationshipsItem_element (pkg_relationships ri) = Ok e_rels
         ∧ parts_items (objects st) (parts st) = Some items
         ∧ st' = over (ZipArchive (("[Content_Types].xml", tostring e_ct)
                                   :: ("_rels/.rels", tostring e_rels) :: items)))
  ∧ (∀ members uri (st' : State),
       disk st' !! target = Some (ZipArchive members) →
       (uri ∈ zip_itemURIs members →
          ∀ elt blob,
            write_element target elt uri st'
            = (Raise (DuplicateKeyError ("Item with URI '" +:+ uri
                                         +:+ "' already in package")), st')
            ∧ write_blob target blob uri st'
              = (Raise (DuplicateKeyError ("Item with URI '" +:+ uri
                                           +:+ "' already in package")), st'))
       ∧ (uri ∉ zip_itemURIs members →
          ∀ elt blob,
            write_element target (Some elt) uri st'
            = (Ok (), with_disk (<[target := ZipArchive (members ++ [(tail1 uri, tostring elt)])]>
                                   (disk st')) st')
            ∧ write_blob target (Some blob) uri st'
              = (Ok (), with_disk (<[target := ZipArchive (members ++ [(tail1 uri, blob)])]>
                                     (disk st')) st')
            ∧ (∀ msg, (write_element target None uri st').1 ≠ Raise (DuplicateKeyError msg))
            ∧ (∀ msg, (write_blob target None uri st').1 ≠ Raise (DuplicateKeyError msg)))).
Proof.
  intros target over He.
  assert (∀ e', (∀ files, e' ≠ Directory files) →
            ZipFileSystem_new (normalizedpath path) (over e')
            = (Ok target, over (ZipArchive []))) as Hnew.
  { intros e' He'. rewrite ZipFileSystem_new_file.
    - fold target. unfold over. cbn. by rewrite !insert_insert_eq.
    - intros files. fold target. cbn. rewrite lookup_insert_eq. intros [= ->]. by eapply He'.
    - fold target. cbn. by rewrite lookup_insert_eq. }
  assert (∀ e', (∀ files, e' ≠ Directory files) →
            Package_save path (over e')
            = Package_save path (over (ZipArchive []))) as Hsave.
  { intros e' He'. unfold Package_save. cbn zeta.
    rewrite (bind_run_Ok _ _ _ _ _ (Hnew e' He')).
    by rewrite (bind_run_Ok _ _ _ _ _ (Hnew (ZipArchive []) ltac:(done))). }
  split_and!.
  - by apply Hnew.
  - intros e' He'. by rewrite (Hsave e' He'), (Hsave e He).
  - intros Hcr. rewrite (Hsave e He). unfold Package_save. cbn zeta.
    rewrite (bind_run_Ok _ _ _ _ _ (Hnew (ZipArchive []) ltac:(done))).
    erewrite bind_run_Ok; [done|]. rewrite ZipFileSystem_new_file.
    + fold target. unfold over. cbn. by rewrite insert_delete_eq.
    + intros files. fold target. cbn. by rewrite lookup_delete_eq.
    + done.
  - intros st' Hrun.
    apply Package_save_items in Hrun as (cti & e_ct & ri & e_rels & items & H1 & H2 & H3 & H4
                                         & H5 & ->).
    exists cti, e_ct, ri, e_rels, items. fold target. cbn in H1, H3, H5 |- *.
    split_and!; [|done..|].
    + eapply compose_objects; [|exact H1]. done.
    + unfold over. cbn. by rewrite insert_insert_eq.
  - intros members uri st' Hd. split; intros Hin elt blob.
    + split; [by eapply write_element_dup|by eapply write_blob_dup].
    + rewrite !(write_element_new _ _ _ _ _ Hd Hin), !(write_blob_new _ _ _ _ _ Hd Hin).
      done.
Qed.
End replace.


(** * Further properties of the module *)

Lemma append_cons a (s t : string) : String a s +:+ t = String a (s +:+ t).
Proof. reflexivity. Qed.

Lemma append_assoc' (a b c : string) : (a +:+ b) +:+ c = a +:+ (b +:+ c).
Proof. induction a as [|x a IH]; [done|]. by rewrite !append_cons, IH. Qed.

Lemma append_empty_r (a : string) : a +:+ "" = a.
Proof. induction a as [|x a IH]; [done|]. by rewrite append_cons, IH. Qed.

Lemma rev_app_app s1 s2 : String.rev_app s1 s2 = String.rev s1 +:+ s2.
Proof.
  unfold String.rev. revert s2. induction s1 as [|a s1 IH]; intros s2; [done|].
  change (String.rev_app s1 (String a s2) = String.rev_app s1 (String a "") +:+ s2).
  rewrite (IH (String a s2)), (IH (String a "")). by rewrite append_assoc'.
Qed.

Lemma rev_append s t : String.rev (s +:+ t) = String.rev t +:+ String.rev s.
Proof.
  induction s as [|a s IH].
  - by rewrite append_empty_r.
  - rewrite append_cons. unfold String.rev at 1 3.
    change (String.rev_app (s +:+ t) (String a "")
            = String.rev t +:+ String.rev_app s (String a "")).
    rewrite !rev_app_app, IH. apply append_assoc'.
Qed.

Lemma startswith_append pre s : startswith (pre +:+ s) pre = true.
Proof.
  induction pre as [|a pre IH]; [by destruct s|].
  rewrite append_cons. cbn. rewrite IH. by rewrite Ascii.eqb_refl.
Qed.

Lemma endswith_append s suf : endswith (s +:+ suf) suf = true.
Proof. unfold endswith. rewrite rev_append. apply startswith_append. Qed.

Section more_properties.
Context `{env : Environment}.
Local Abbreviation State := (state bytes loadclass).
Local Abbreviation M := (M State).

(** X1. The path [save] writes to is the path it is given when that
    ends in '.pptx' and the path with '.pptx' put behind it otherwise;
    so it always ends in '.pptx' and begins with the path given, and
    normalising a path twice is the same as normalising it once. *)
Theorem normalizedpath_suffix (path : string) :
  (endswith path ".pptx" = true → normalizedpath path = path)
  ∧ (endswith path ".pptx" = false → normalizedpath path = path +:+ ".pptx")
  ∧ endswith (normalizedpath path) ".pptx" = true
  ∧ startswith (normalizedpath path) path = true
  ∧ normalizedpath (normalizedpath path) = normalizedpath path.
Proof.
  assert (endswith (normalizedpath path) ".pptx" = true) as H.
  { unfold normalizedpath. destruct (endswith path ".pptx") eqn:He; [done|].
    apply endswith_append. }
  split_and!; [| |done| |].
  - intros He. unfold normalizedpath. by rewrite He.
  - intros He. unfold normalizedpath. by rewrite He.
  - unfold normalizedpath. destruct (endswith path ".pptx").
    + rewrite <-(append_empty_r path) at 1. apply startswith_append.
    + apply startswith_append.
  - unfold normalizedpath at 1. by rewrite H.
Qed.

Lemma zip_read_last (ms1 ms2 : list (string * bytes)) n b :
  n ∉ ms2.*1 → zip_read (ms1 ++ (n, b) :: ms2) n = Some b.
Proof.
  intros Hn. unfold zip_read. rewrite filter_app, filter_cons_True by done.
  rewrite (filter_none _ ms2).
  - by rewrite last_snoc.
  - intros kv Hkv <-. apply Hn. by apply list_elem_of_fmap_2.
Qed.

Lemma slash_inj (n n' : string) : "/" +:+ n = "/" +:+ n' → n = n'.
Proof. intros H. change (String "/" n = String "/" n') in H. by injection H. Qed.

Lemma getblob_member path (ms1 ms2 : list (string * bytes)) n b (st : State) :
  n ∉ ms2.*1 → endswith n "/" = false →
  getblob (ZipFileSystem path (ms1 ++ (n, b) :: ms2)) ("/" +:+ n) st
  = (Ok b, with_reads (reads st ++ ["/" +:+ n]) st).
Proof.
  intros Hn He.
  assert (contains (ZipFileSystem path (ms1 ++ (n, b) :: ms2)) ("/" +:+ n) = true) as Hc.
  { apply bool_decide_eq_true_2, zip_itemURIs_elem. exists n. split_and!; [done| |done].
    rewrite fmap_app, fmap_cons. set_solver. }
  unfold getblob, getstream. rewrite Hc. cbn [negb].
  unfold bind, modify. change (tail1 ("/" +:+ n)) with n.
  by rewrite zip_read_last.
Qed.

(** X3. [getblob] on an archive returns the bytes of the last member
    of the name and logs the read; for a name that ends in a slash or is
    not a member, and for a URI without leading slash, it raises
    [LookupError] and reads nothing. *)
Theorem getblob_zip path (ms : list (string * bytes)) (st : State) :
  (∀ ms1 n b ms2,
     ms = ms1 ++ (n, b) :: ms2 → n ∉ ms2.*1 → endswith n "/" = false →
     getblob (ZipFileSystem path ms) ("/" +:+ n) st
     = (Ok b, with_reads (reads st ++ ["/" +:+ n]) st))
  ∧ (∀ n, endswith n "/" = true ∨ n ∉ ms.*1 →
       getblob (ZipFileSystem path ms) ("/" +:+ n) st
       = (Raise (LookupError ("No package item with URI '" +:+ ("/" +:+ n) +:+ "'")), st))
  ∧ (∀ u, startswith u "/" = false →
       getblob (ZipFileSystem path ms) u st
       = (Raise (LookupError ("No package item with URI '" +:+ u +:+ "'")), st)).
Proof.
  split_and!.
  - intros ms1 n b ms2 -> Hn He. by apply getblob_member.
  - intros n Hn.
    assert (contains (ZipFileSystem path ms) ("/" +:+ n) = false) as Hc.
    { apply bool_decide_eq_false_2. intros (n' & Heq & Hin & He)%zip_itemURIs_elem.
      apply slash_inj in Heq as <-. destruct Hn as [Hn | Hn]; [congruence|done]. }
    unfold getblob. by rewrite Hc.
  - intros u Hu.
    assert (contains (ZipFileSystem path ms) u = false) as Hc.
    { apply bool_decide_eq_false_2. intros (n' & -> & _)%zip_itemURIs_elem. done. }
    unfold getblob. by rewrite Hc.
Qed.

Lemma zip_read_snoc_ne (ms : list (string * bytes)) n b n' :
  n' ≠ n → zip_read (ms ++ [(n, b)]) n' = zip_read ms n'.
Proof.
  intros Hne. unfold zip_read. rewrite filter_app, filter_cons_False, filter_nil, app_nil_r; [done|].
  cbn. congruence.
Qed.

Lemma zip_itemURIs_snoc (ms : list (string * bytes)) n b u :
  u ∈ zip_itemURIs (ms ++ [(n, b)])
  ↔ u ∈ zip_itemURIs ms ∨ (u = "/" +:+ n ∧ endswith n "/" = false).
Proof.
  rewrite !zip_itemURIs_elem. rewrite fmap_app. cbn. split.
  - intros (n' & -> & [Hin | ->%list_elem_of_singleton]%elem_of_app & He); eauto.
  - intros [(n' & -> & Hin & He) | [-> He]].
    + exists n'. rewrite elem_of_app. eauto.
    + exists n. rewrite elem_of_app, list_elem_of_singleton. eauto.
Qed.

Lemma getblob_snoc_ne z (ms : list (string * bytes)) u b u' (s : State) :
  member_uri u → u' ≠ u →
  getblob (ZipFileSystem z (ms ++ [(tail1 u, b)])) u' s = getblob (ZipFileSystem z ms) u' s.
Proof.
  intros Hu Hne.
  assert (contains (ZipFileSystem z (ms ++ [(tail1 u, b)])) u'
          = contains (ZipFileSystem z ms) u') as Hc.
  { unfold contains. apply bool_decide_ext. cbn. rewrite zip_itemURIs_snoc.
    rewrite <-(member_uri_split _ Hu). naive_solver. }
  unfold getblob, getstream. rewrite Hc.
  destruct (contains (ZipFileSystem z ms) u') eqn:Hin; [|done]. cbn [negb].
  unfold bind, modify. rewrite zip_read_snoc_ne; [done|].
  intros Heq. apply Hne. apply bool_decide_eq_true_1 in Hin. cbn in Hin.
  apply zip_itemURIs_elem in Hin as (n' & -> & _).
  change (tail1 ("/" +:+ n')) with n' in Heq. rewrite Heq.
  symmetry. by apply member_uri_split.
Qed.

(** X4. Writing a blob under a new item URI appends one member to
    the archive; reading that URI back gives the blob, every other URI
    reads as before, and writing the URI again raises
    [DuplicateKeyError] and leaves the archive alone. *)
Theorem write_blob_then_read z (ms : list (string * bytes)) b u (st : State) :
  disk st !! z = Some (ZipArchive ms) → member_uri u → u ∉ zip_itemURIs ms →
  let ms' := ms ++ [(tail1 u, b)] in
  let st' := with_disk (<[z := ZipArchive ms']> (disk st)) st in
  write_blob z (Some b) u st = (Ok (), st')
  ∧ (∀ s : State, getblob (ZipFileSystem z ms') u s = (Ok b, with_reads (reads s ++ [u]) s))
  ∧ (∀ u' (s : State), u' ≠ u →
       getblob (ZipFileSystem z ms') u' s = getblob (ZipFileSystem z ms) u' s)
  ∧ (∀ b', write_blob z b' u st'
           = (Raise (DuplicateKeyError ("Item with URI '" +:+ u +:+ "' already in package")),
              st')).
Proof.
  intros Hz Hu Hnew ms' st'. split_and!.
  - unfold write_blob, bind, zip_open. rewrite Hz.
    rewrite bool_decide_eq_false_2 by done.
    unfold zip_writestr, bind, zip_open, modify. by rewrite Hz.
  - intros s. destruct Hu as [Hu1 Hu2].
    rewrite (member_uri_split u) at 1 2 by done.
    rewrite (member_uri_split u) at 2 by done.
    apply (getblob_member z ms [] (tail1 u) b s); [set_solver|done].
  - intros u' s Hne. by apply getblob_snoc_ne.
  - intros b'. unfold write_blob, bind, zip_open. cbn. rewrite lookup_insert_eq.
    rewrite bool_decide_eq_true_2; [done|].
    apply zip_itemURIs_snoc. right. split; [by apply member_uri_split|by destruct Hu].
Qed.

Lemma write_element_run z (ms : list (string * bytes)) e u (st : State) :
  disk st !! z = Some (ZipArchive ms) → u ∉ zip_itemURIs ms →
  write_element z (Some e) u st
  = (Ok (), with_disk (<[z := ZipArchive (ms ++ [(tail1 u, tostring e)])]> (disk st)) st).
Proof.
  intros Hz Hnew. unfold write_element, bind, zip_open. rewrite Hz.
  rewrite bool_decide_eq_false_2 by done.
  unfold zip_writestr, bind, zip_open, modify. by rewrite Hz.
Qed.

Lemma getelement_written z (ms : list (string * bytes)) e u (s : State) :
  (∀ e, parse (tostring e) = Some (resolve_ns None e)) →
  member_uri u →
  getelement (ZipFileSystem z (ms ++ [(tail1 u, tostring e)])) u s
  = (Ok (resolve_ns None e), with_reads (reads s ++ [u]) s).
Proof.
  intros Hxml Hu.
  assert (contains (ZipFileSystem z (ms ++ [(tail1 u, tostring e)])) u = true) as Hc.
  { apply bool_decide_eq_true_2. cbn. apply zip_itemURIs_snoc. right.
    split; [by apply member_uri_split|by destruct Hu]. }
  unfold getelement, getstream. rewrite Hc. cbn [negb].
  unfold bind at 1. unfold bind at 1. unfold modify.
  replace (zip_read (ms ++ [(tail1 u, tostring e)]) (tail1 u)) with (Some (tostring e)).
  - unfold ret. by rewrite Hxml.
  - symmetry. apply (zip_read_last ms (@nil (string * bytes))). set_solver.
Qed.

(** X5. Writing an element under a new item URI appends its
    serialisation to the archive; [getelement] on that URI gives the
    tree back, its tags resolved against the default namespace; writing
    the URI again raises [DuplicateKeyError]. *)
Theorem write_element_then_read z (ms : list (string * bytes)) e u (st : State) :
  (∀ e, parse (tostring e) = Some (resolve_ns None e)) →
  disk st !! z = Some (ZipArchive ms) → member_uri u → u ∉ zip_itemURIs ms →
  let ms' := ms ++ [(tail1 u, tostring e)] in
  let st' := with_disk (<[z := ZipArchive ms']> (disk st)) st in
  write_element z (Some e) u st = (Ok (), st')
  ∧ (∀ s : State,
       getelement (ZipFileSystem z ms') u s
       = (Ok (resolve_ns None e), with_reads (reads s ++ [u]) s))
  ∧ (∀ e', write_element z e' u st'
           = (Raise (DuplicateKeyError ("Item with URI '" +:+ u +:+ "' already in package")),
              st')).
Proof.
  intros Hxml Hz Hu Hnew ms' st'. split_and!.
  - by apply write_element_run.
  - intros s. by apply getelement_written.
  - intros e'. unfold write_element, bind, zip_open. cbn. rewrite lookup_insert_eq.
    rewrite bool_decide_eq_true_2; [done|].
    apply zip_itemURIs_snoc. right. split; [by apply member_uri_split|by destruct Hu].
Qed.

(** X6. After [loadpart] succeeded for an item path, the path was not
    in the collection before and is now, [getitem] returns the new part,
    which is the last of the list and carries the path as its name;
    membership and lookup of every other path are as before, and a path
    that is not in the collection makes [getitem] raise [LookupError]. *)
Theorem loadpart_getitem fs p ct (st st' : State) part :
  loadpart fs p ct st = (Ok part, st') →
  PartCollection_contains st p = false
  ∧ PartCollection_contains st' p = true
  ∧ PartCollection_getitem p st' = (Ok part, st')
  ∧ partname part = p
  ∧ parts st' = parts st ++ [part]
  ∧ (∀ q, q ≠ p →
       PartCollection_contains st' q = PartCollection_contains st q
       ∧ (PartCollection_getitem q st').1 = (PartCollection_getitem q st).1)
  ∧ (∀ q, PartCollection_contains st' q = false →
       PartCollection_getitem q st'
       = (Raise (LookupError ("getitem() lookup in PartCollection failed with partname '"
                              +:+ q +:+ "'")), st')).
Proof.
  intros (Hnone & Hname & _ & Hparts & Hdict)%loadpart_Ok.
  unfold PartCollection_contains, PartCollection_getitem. rewrite Hdict, Hnone.
  rewrite lookup_insert_eq. split_and!; try done.
  - intros q Hq. rewrite lookup_insert_ne by done. split; [done|].
    by destruct (partname_dict st !! q).
  - intros q Hq%bool_decide_eq_false_1.
    destruct (<[p:=part]> (partname_dict st) !! q) eqn:E; [|done]. destruct Hq. eauto.
Qed.

Lemma collection_wf_init b : collection_wf (RelationshipCollection_init b).
Proof.
  split; [constructor|]. intros k r. cbn. rewrite lookup_empty. split; [done|].
  by intros [?%elem_of_nil _].
Qed.

Lemma additem_Ok self e rel self' :
  additem self e = (Ok rel, self') →
  _id_dict self !! get e "Id" = None
  ∧ rel = Relationship_init e
  ∧ self' = {| rc_baseURI := rc_baseURI self; rc_list := rc_list self ++ [rel];
               _id_dict := <[get e "Id" := rel]> (_id_dict self) |}.
Proof.
  unfold additem. case_bool_decide as Hd; [done|]. intros [= <- <-].
  split_and!; try done. cbn in Hd. destruct (_id_dict self !! get e "Id") eqn:E; [|done].
  destruct Hd. eauto.
Qed.

Lemma collection_wf_additem self e rel self' :
  collection_wf self → additem self e = (Ok rel, self') → collection_wf self'.
Proof.
  intros [Hnd Hiff] (Hnone & -> & ->)%additem_Ok. split; cbn.
  - rewrite fmap_app. apply NoDup_app. split_and!; [done| |apply NoDup_singleton].
    intros k (r & Hk & Hr)%list_elem_of_fmap Hk2%list_elem_of_singleton.
    assert (_id_dict self !! rId r = Some r) as Hr' by (by apply Hiff).
    rewrite <-Hk, Hk2 in Hr'. cbn in Hr'. congruence.
  - intros k r. destruct (decide (k = get e "Id")) as [->|Hne].
    + rewrite lookup_insert_eq, elem_of_app, list_elem_of_singleton. split.
      * intros [= <-]. eauto.
      * intros [[Hin | ->] Hid]; [|done].
        assert (_id_dict self !! get e "Id" = Some r) as Hr' by (by apply Hiff). congruence.
    + rewrite lookup_insert_ne by done. rewrite Hiff, elem_of_app, list_elem_of_singleton.
      split; [naive_solver|]. intros [[Hin | ->] Hid]; [done|]. by destruct Hne.
Qed.

(** X7. After [additem] succeeded, [getitem] on the id of the element
    returns the new relationship, which is the last of the list; the
    base URI and the lookup of every other id are as before, and the
    dictionary still indexes exactly the relationships of the list. *)
Theorem additem_getitem (self : RelationshipCollection) e rel self' :
  collection_wf self →
  additem self e = (Ok rel, self') →
  rel = Relationship_init e
  ∧ RelationshipCollection_getitem self' (get e "Id") = Ok rel
  ∧ rc_list self' = rc_list self ++ [rel]
  ∧ rc_baseURI self' = rc_baseURI self
  ∧ (∀ k, k ≠ get e "Id" →
       RelationshipCollection_getitem self' k = RelationshipCollection_getitem self k)
  ∧ collection_wf self'.
Proof.
  intros Hwf Hadd. pose proof (collection_wf_additem _ _ _ _ Hwf Hadd) as Hwf'.
  apply additem_Ok in Hadd as (Hnone & -> & ->).
  unfold RelationshipCollection_getitem. cbn. rewrite lookup_insert_eq.
  split_and!; try done. intros k Hk. by rewrite lookup_insert_ne.
Qed.

Lemma additems_app self elms self' :
  additems self elms = Ok self' →
  ∀ elms', additems self (elms ++ elms') = additems self' elms'.
Proof.
  revert self. induction elms as [|e elms IH]; intros self; cbn.
  - by intros [= <-].
  - destruct (additem self e) as [[rel| |] s1]; [|done..]. apply IH.
Qed.

Lemma additems_wf self elms self' :
  collection_wf self → additems self elms = Ok self' → collection_wf self'.
Proof.
  revert self. induction elms as [|e elms IH]; intros self Hwf; cbn.
  - by intros [= <-].
  - destruct (additem self e) as [[rel| |] s1] eqn:Hadd; [|done..].
    apply IH. by eapply collection_wf_additem.
Qed.

Lemma additems_run self elms :
  collection_wf self →
  if decide (NoDup ((rId <$> rc_list self) ++ ((λ x, get x "Id") <$> elms)))
  then ∃ self', additems self elms = Ok self'
  else ∃ msg, additems self elms = Raise (DuplicateKeyError msg).
Proof.
  revert self. induction elms as [|e elms IH]; intros self Hwf.
  - cbn. rewrite app_nil_r. destruct Hwf as [Hnd _]. rewrite decide_True by done. eauto.
  - cbn [additems fmap list_fmap]. unfold additem.
    destruct (_id_dict self !! rId (Relationship_init e)) as [r|] eqn:Hr.
    + rewrite bool_decide_eq_true_2 by eauto. rewrite decide_False; [eauto|].
      intros Hnd. apply NoDup_app in Hnd as (_ & Hdisj & _).
      apply (Hdisj (get e "Id")); [|left].
      destruct Hwf as [_ Hiff]. apply Hiff in Hr as [Hin Hid].
      apply list_elem_of_fmap. eauto.
    + rewrite bool_decide_eq_false_2 by (by intros [? ?]).
      set (self1 := {| rc_baseURI := rc_baseURI self;
                       rc_list := rc_list self ++ [Relationship_init e];
                       _id_dict := <[rId (Relationship_init e) := Relationship_init e]>
                                     (_id_dict self) |}).
      assert (collection_wf self1) as Hwf1.
      { apply (collection_wf_additem self e (Relationship_init e)); [done|].
        unfold additem. rewrite bool_decide_eq_false_2; [done|]. rewrite Hr. by intros [? ?]. }
      specialize (IH self1 Hwf1). cbn [rc_list self1] in IH.
      rewrite fmap_app in IH. cbn [fmap list_fmap] in IH. rewrite <-app_assoc in IH.
      exact IH.
Qed.

(** X8. [RelationshipsItem.load] succeeds when the ids of the
    Relationship elements of the item are distinct, with the
    relationships in document order, each found again by its id; when
    two elements share an id (or both lack one) it raises
    [DuplicateKeyError]. *)
Theorem RelationshipsItem_load_spec b fs u (st st' : State) e :
  getelement fs u st = (Ok e, st') →
  let elms := findall e (clark ns_pr "Relationship") in
  (NoDup ((λ x, get x "Id") <$> elms) →
     ∃ rels, RelationshipsItem_load b fs u st = (Ok rels, st')
             ∧ rc_baseURI rels = b
             ∧ rc_list rels = Relationship_init <$> elms
             ∧ (∀ r, r ∈ rc_list rels → RelationshipCollection_getitem rels (rId r) = Ok r))
  ∧ (¬ NoDup ((λ x, get x "Id") <$> elms) →
       ∃ msg, RelationshipsItem_load b fs u st = (Raise (DuplicateKeyError msg), st')).
Proof.
  intros He elms. unfold RelationshipsItem_load.
  rewrite (bind_run_Ok _ _ _ _ _ He). unfold lift. fold elms.
  pose proof (additems_run (RelationshipCollection_init b) elms (collection_wf_init b)) as Hrun.
  cbn [rc_list RelationshipCollection_init fmap list_fmap app] in Hrun.
  split; intros Hnd.
  - rewrite decide_True in Hrun by done. destruct Hrun as [rels Hrels]. exists rels.
    rewrite Hrels. split_and!; [done|..].
    + by rewrite (additems_baseURI _ _ _ Hrels).
    + by rewrite (additems_list _ _ _ Hrels).
    + intros r Hr. unfold RelationshipCollection_getitem.
      destruct (additems_wf _ _ _ (collection_wf_init b) Hrels) as [_ Hiff].
      assert (_id_dict rels !! rId r = Some r) as -> by (by apply Hiff). done.
  - rewrite decide_False in Hrun by done. destruct Hrun as [msg ->]. eauto.
Qed.

Lemma Relationship_element_complete i t g :
  Relationship_element {| rId := Some i; reltype := Some t; target := Some g |}
  = Ok (Element "Relationship" None [("Id", i); ("Type", t); ("Target", g)] []).
Proof. reflexivity. Qed.

Lemma Relationship_element_incomplete r :
  ¬ complete r → ∃ msg, Relationship_element r = Raise (TypeError msg).
Proof.
  destruct r as [[i|] [t|] [g|]]; intros Hc; try (by eexists).
  destruct Hc. unfold complete. cbn. eauto.
Qed.

Lemma append_rels_run rels :
  ∀ t n a cs,
    if decide (Forall complete rels)
    then ∃ es, append_rels (Element t n a cs) rels = Ok (Element t n a (cs ++ es))
               ∧ Forall2 (λ r e, ∃ i g y,
                            r = {| rId := Some i; reltype := Some g; target := Some y |}
                            ∧ e = Element "Relationship" None
                                    [("Id", i); ("Type", g); ("Target", y)] [])
                   rels es
    else ∃ msg, append_rels (Element t n a cs) rels = Raise (TypeError msg).
Proof.
  induction rels as [|r rels IH]; intros t n a cs.
  - rewrite decide_True by constructor. exists []. by rewrite app_nil_r.
  - cbn [append_rels]. destruct (decide (complete r)) as [Hr|Hr].
    + destruct r as [[i|] [g|] [y|]]; try (by destruct Hr as ([? ?] & [? ?] & [? ?])).
      rewrite Relationship_element_complete. cbn [append].
      specialize (IH t n a (cs ++ [Element "Relationship" None
                                     [("Id", i); ("Type", g); ("Target", y)] []])).
      destruct (decide (Forall complete rels)) as [Hrs|Hrs].
      * rewrite decide_True by (by constructor).
        destruct IH as (es & -> & Hes). eexists (_ :: es). rewrite <-app_assoc.
        split; [done|]. constructor; [|done]. by eexists _, _, _.
      * rewrite decide_False by (by intros [? ?]%Forall_cons). done.
    + rewrite decide_False by (by intros [? ?]%Forall_cons).
      destruct (Relationship_element_incomplete r Hr) as [msg ->]. eauto.
Qed.

(** X9. [relsitem.element] succeeds exactly when every
    relationship has its id, type and target; the element then has one
    Relationship child per relationship, in order, with the attributes
    Id, Type and Target; otherwise [TypeError] is raised. *)
Theorem RelationshipsItem_element_spec (rels : RelationshipCollection) :
  (Forall complete (rc_list rels) →
     ∃ es, RelationshipsItem_element rels
           = Ok (Element (clark ns_pr "Relationships") (Some ns_pr) [] es)
           ∧ Forall2 (λ r e, ∃ i g y,
                        r = {| rId := Some i; reltype := Some g; target := Some y |}
                        ∧ e = Element "Relationship" None
                                [("Id", i); ("Type", g); ("Target", y)] [])
               (rc_list rels) es)
  ∧ (¬ Forall complete (rc_list rels) →
       ∃ msg, RelationshipsItem_element rels = Raise (TypeError msg)).
Proof.
  unfold RelationshipsItem_element.
  pose proof (append_rels_run (rc_list rels) (clark ns_pr "Relationships") (Some ns_pr) [] [])
    as Hrun.
  split; intros H.
  - by rewrite decide_True in Hrun.
  - by rewrite decide_False in Hrun.
Qed.

Lemma all_str_insert m k v : all_str m → all_str (<[Some k := Some v]> m).
Proof.
  intros Hm k' v'. destruct (decide (k' = Some k)) as [->|Hne].
  - rewrite lookup_insert_eq. intros [= <-]. eauto.
  - rewrite lookup_insert_ne by done. apply Hm.
Qed.

Lemma set_Some e n v : ∃ e', set e n (Some v) = Ok e'.
Proof. destruct e. cbn. eauto. Qed.

Lemma ct_children_run tagname keyattr d keys :
  all_str d → (∀ k, k ∈ keys → is_Some (d !! k)) →
  ∃ l, ct_children tagname keyattr d keys = Ok l.
Proof.
  intros Hd. induction keys as [|k keys IH]; intros Hk; cbn [ct_children]; [eauto|].
  destruct (Hk k ltac:(left)) as [v Hv]. destruct (Hd _ _ Hv) as [[k' ->] [v' ->]].
  rewrite Hv. change (default None (Some (Some v'))) with (Some v').
  destruct (set_Some (Element tagname None [] []) keyattr k') as [e1 ->].
  destruct (set_Some e1 "ContentType" v') as [e2 ->].
  destruct IH as [l ->]; [|eauto]. intros; apply Hk. by right.
Qed.

Lemma sorted_keys_elem (d : gmap pystr pystr) k : k ∈ sorted_keys d → is_Some (d !! k).
Proof.
  unfold sorted_keys. rewrite merge_sort_Permutation.
  intros ([k' v] & -> & Hin)%list_elem_of_fmap. apply elem_of_map_to_list in Hin. eauto.
Qed.

Lemma element_all_str d o :
  all_str d → all_str o →
  ∃ e, ContentTypesItem_element {| defaults := Some d; overrides := Some o |} = Ok e.
Proof.
  intros Hd Ho. unfold ContentTypesItem_element. cbn.
  destruct (ct_children_run (clark ns_ct "Default") "Extension" d (sorted_keys d) Hd
              (sorted_keys_elem d)) as [l1 ->].
  destruct (ct_children_run (clark ns_ct "Override") "PartName" o (sorted_keys o) Ho
              (sorted_keys_elem o)) as [l2 ->].
  eauto.
Qed.

Lemma compose_loop_all_str ps :
  ∀ d o (st st' : State) cti,
    all_str d → all_str o →
    compose_loop ps d o st = (Ok cti, st') →
    ∃ d' o', cti = {| defaults := Some d'; overrides := Some o' |}
             ∧ all_str d' ∧ all_str o'.
Proof.
  induction ps as [|q ps IH]; intros d o st st' cti Hd Ho; cbn.
  - intros [= <- _]. eauto.
  - case_bool_decide.
    + intros (ct & s1 & _ & Hrun)%bind_Ok_inv. eapply IH; [| |exact Hrun]; [done|].
      by apply all_str_insert.
    + destruct (default_content_types !! _) as [v|]; [|done].
      intros Hrun. eapply IH; [| |exact Hrun]; [|done]. by apply all_str_insert.
Qed.

Lemma all_str_empty : all_str ∅.
Proof. intros k v. by rewrite lookup_empty. Qed.

Lemma compose_loop_run ps :
  ∀ d o (st : State),
    (∀ part, part ∈ ps → is_Some (objects st !! typespec part ≫= attrs)) →
    if decide (Forall (λ part,
                 (posixpath.splitext (partname part)).2 = ".xml"
                 ∨ is_Some (default_content_types !! (posixpath.splitext (partname part)).2))
                 ps)
    then ∃ cti, compose_loop ps d o st = (Ok cti, st)
    else ∃ ps1 part ps2,
           ps = ps1 ++ part :: ps2
           ∧ Forall (λ part,
                 (posixpath.splitext (partname part)).2 = ".xml"
                 ∨ is_Some (default_content_types !! (posixpath.splitext (partname part)).2))
               ps1
           ∧ (posixpath.splitext (partname part)).2 ≠ ".xml"
           ∧ default_content_types !! (posixpath.splitext (partname part)).2 = None
           ∧ compose_loop ps d o st
             = (Raise (LookupError ("extension '" +:+ (posixpath.splitext (partname part)).2
                                    +:+ "' not found in default_content_types")), st).
Proof.
  induction ps as [|q ps IH]; intros d o st Hattrs.
  - rewrite decide_True by constructor. cbn. eauto.
  - cbn [compose_loop].
    assert (∀ part, part ∈ ps → is_Some (objects st !! typespec part ≫= attrs)) as Hattrs'
      by (intros; apply Hattrs; by right).
    destruct (bool_decide ((posixpath.splitext (partname q)).2 = ".xml")) eqn:Hxml.
    + apply bool_decide_eq_true_1 in Hxml.
      destruct (Hattrs q ltac:(left)) as [a Ha].
      assert (getattr (typespec q) "content_type" content_type st = (Ok (content_type a), st))
        as Hget by (unfold getattr; by rewrite Ha).
      rewrite (bind_run_Ok _ _ _ _ _ Hget).
      specialize (IH d (<[Some (partname q) := Some (content_type a)]> o) st Hattrs').
      destruct (decide (Forall _ ps)) as [Hps|Hps].
      * rewrite decide_True by (constructor; eauto). done.
      * rewrite decide_False by (by intros [? ?]%Forall_cons).
        destruct IH as (ps1 & part & ps2 & -> & H1 & H2 & H3 & ->).
        exists (q :: ps1), part, ps2. split_and!; try done. constructor; eauto.
    + apply bool_decide_eq_false_1 in Hxml.
      destruct (default_content_types !! (posixpath.splitext (partname q)).2) as [v|] eqn:Hv.
      * specialize (IH (<[Some (tail1 (posixpath.splitext (partname q)).2) := Some v]> d)
                      o st Hattrs').
        destruct (decide (Forall _ ps)) as [Hps|Hps].
        -- rewrite decide_True; [done|]. constructor; [|done]. right. by rewrite Hv.
        -- rewrite decide_False by (by intros [? ?]%Forall_cons).
           destruct IH as (ps1 & part & ps2 & -> & H1 & H2 & H3 & ->).
           exists (q :: ps1), part, ps2. split_and!; try done. constructor; [|done].
           right. by rewrite Hv.
      * rewrite decide_False.
        -- exists [], q, ps. split_and!; try done.
        -- intros [[?|[? Hs]] _]%Forall_cons; [done|]. by rewrite Hv in Hs.
Qed.

(** X10. With the '.rels' and '.xml' defaults in the table and the type
    specs of the parts initialised, [compose] leaves the state alone;
    it succeeds when every part's extension is '.xml' or a key of
    [default_content_types], and the composed item then serialises;
    otherwise it raises [LookupError] naming the extension of the first
    part that is neither. *)
Theorem compose_spec ps (st : State) rels_ct xml_ct :
  default_content_types !! ".rels" = Some rels_ct →
  default_content_types !! ".xml" = Some xml_ct →
  (∀ part, part ∈ ps → is_Some (objects st !! typespec part ≫= attrs)) →
  let known part :=
    (posixpath.splitext (partname part)).2 = ".xml"
    ∨ is_Some (default_content_types !! (posixpath.splitext (partname part)).2) in
  (Forall known ps →
     ∃ cti e, compose ps st = (Ok cti, st) ∧ ContentTypesItem_element cti = Ok e)
  ∧ (∀ ps1 part ps2,
       ps = ps1 ++ part :: ps2 → Forall known ps1 → ¬ known part →
       compose ps st
       = (Raise (LookupError ("extension '" +:+ (posixpath.splitext (partname part)).2
                              +:+ "' not found in default_content_types")), st)).
Proof.
  intros Hrels Hxml Hattrs known. unfold compose. rewrite Hrels, Hxml.
  pose proof (compose_loop_run ps
                (<[Some "xml" := Some xml_ct]> (<[Some "rels" := Some rels_ct]> ∅)) ∅
                st Hattrs) as Hrun.
  split.
  - intros Hps. rewrite decide_True in Hrun by done. destruct Hrun as [cti Hcti].
    exists cti. rewrite Hcti.
    destruct (compose_loop_all_str _ _ _ _ _ _
                (all_str_insert _ _ _ (all_str_insert _ _ _ all_str_empty)) all_str_empty Hcti)
      as (d' & o' & -> & Hd' & Ho').
    destruct (element_all_str d' o' Hd' Ho') as [e He]. eauto.
  - intros ps1 part ps2 -> Hps1 Hpart.
    rewrite decide_False in Hrun.
    2: { intros (_ & [? _]%Forall_cons)%Forall_app. done. }
    destruct Hrun as (ps1' & part' & ps2' & Heq & H1 & H2 & H3 & ->).
    (* the first unknown part is [part] *)
    assert (ps1' = ps1 ∧ part' = part) as [-> ->]; [|done].
    clear -Heq H1 H2 H3 Hps1 Hpart.
    revert ps1' Heq H1. induction ps1 as [|x ps1 IH]; intros [|y ps1'] Heq H1.
    + by injection Heq as -> _.
    + injection Heq as -> _. apply Forall_cons in H1 as [Hy _]. by destruct Hpart.
    + injection Heq as <- _. apply Forall_cons in Hps1 as [Hx _].
      destruct Hx as [?|[? Hs]]; [done|]. by rewrite H3 in Hs.
    + injection Heq as <- Heq. apply Forall_cons in Hps1 as [_ Hps1].
      apply Forall_cons in H1 as [_ H1]. destruct (IH Hps1 ps1' Heq H1) as [-> ->]. done.
Qed.

Lemma compose_loop_dom ps :
  ∀ d o (st st' : State) cti,
    compose_loop ps d o st = (Ok cti, st') →
    ∃ d' o', cti = {| defaults := Some d'; overrides := Some o' |}
      ∧ dom d' = dom d ∪ list_to_set
                   ((λ part, Some (tail1 (posixpath.splitext (partname part)).2))
                      <$> filter (λ part, ¬ is_xml part) ps)
      ∧ dom o' = dom o ∪ list_to_set
                   ((λ part, Some (partname part)) <$> filter is_xml ps).
Proof.
  induction ps as [|q ps IH]; intros d o st st' cti; cbn [compose_loop].
  - intros [= <- _]. exists d, o. split; [done|]. cbn. set_solver.
  - destruct (bool_decide ((posixpath.splitext (partname q)).2 = ".xml")) eqn:Hxml.
    + apply bool_decide_eq_true_1 in Hxml.
      intros (ct & s1 & _ & Hrun)%bind_Ok_inv.
      destruct (IH _ _ _ _ _ Hrun) as (d' & o' & -> & Hd & Ho). exists d', o'.
      rewrite filter_cons_False by (unfold is_xml; tauto).
      rewrite filter_cons_True by done.
      split_and!; [done|done|]. rewrite Ho, dom_insert_L. cbn. set_solver.
    + apply bool_decide_eq_false_1 in Hxml.
      destruct (default_content_types !! _) as [v|]; [|done]. intros Hrun.
      destruct (IH _ _ _ _ _ Hrun) as (d' & o' & -> & Hd & Ho). exists d', o'.
      rewrite filter_cons_True by done.
      rewrite filter_cons_False by done.
      split_and!; [done| |done]. rewrite Hd, dom_insert_L. cbn. set_solver.
Qed.

Lemma size_list_to_set_length (l : list pystr) :
  size (list_to_set l : gset pystr) ≤ length l.
Proof.
  induction l as [|x l IHl]; cbn; [by rewrite size_empty|].
  rewrite size_union_alt, size_singleton.
  pose proof (subseteq_size (list_to_set l ∖ {[x]}) (list_to_set l : gset pystr)
                ltac:(set_solver)). lia.
Qed.

Lemma size_two : size ({[Some "rels"; Some "xml"]} : gset pystr) = 2.
Proof. rewrite size_union by set_solver. by rewrite !size_singleton. Qed.

(** X11. The item [compose] returns has the defaults 'rels' and 'xml'
    and one default per extension of a part that is not '.xml'; its
    overrides are the names of the '.xml' parts; its length counts the
    two maps, and lies between 2 and 2 plus the number of parts. *)
Theorem compose_contents ps (st st' : State) cti :
  compose ps st = (Ok cti, st') →
  st' = st
  ∧ ∃ d o,
      cti = {| defaults := Some d; overrides := Some o |}
      ∧ dom d = {[ Some "rels"; Some "xml" ]}
                ∪ list_to_set
                    ((λ part, Some (tail1 (posixpath.splitext (partname part)).2))
                       <$> filter (λ part, ¬ is_xml part) ps)
      ∧ dom o = list_to_set ((λ part, Some (partname part)) <$> filter is_xml ps)
      ∧ ContentTypesItem_len cti = size (dom d) + size (dom o)
      ∧ 2 ≤ ContentTypesItem_len cti ≤ 2 + length ps.
Proof.
  intros Hrun.
  assert (st' = st) as ->.
  { apply (keeps_compose id ps _ _ _ Hrun). }
  split; [done|]. unfold compose in Hrun.
  destruct (default_content_types !! ".rels") as [rels_ct|]; [|done].
  destruct (default_content_types !! ".xml") as [xml_ct|]; [|done].
  destruct (compose_loop_dom _ _ _ _ _ _ Hrun) as (d & o & -> & Hd & Ho).
  exists d, o. rewrite !dom_insert_L, dom_empty_L in Hd. rewrite dom_empty_L in Ho.
  assert (dom d = {[Some "rels"; Some "xml"]}
                  ∪ list_to_set
                      ((λ part, Some (tail1 (posixpath.splitext (partname part)).2))
                         <$> filter (λ part, ¬ is_xml part) ps)) as Hd'
    by (rewrite Hd; set_solver).
  assert (dom o = list_to_set ((λ part, Some (partname part)) <$> filter is_xml ps)) as Ho'
    by (rewrite Ho; set_solver).
  split_and!; [done|done|done|..].
  - unfold ContentTypesItem_len. cbn. by rewrite !size_dom.
  - unfold ContentTypesItem_len. cbn. rewrite <-!(size_dom (D:=gset pystr)).
    rewrite Hd', Ho', size_union_alt, size_two. lia.
  - unfold ContentTypesItem_len. cbn. rewrite <-!(size_dom (D:=gset pystr)).
    rewrite Hd', Ho', size_union_alt, size_two.
    pose proof (Permutation_length (filter_app_complement is_xml ps)) as Hlen.
    rewrite length_app in Hlen.
    pose proof (size_list_to_set_length
                  ((λ part, Some (tail1 (posixpath.splitext (partname part)).2))
                     <$> filter (λ part, ¬ is_xml part) ps)) as H1.
    pose proof (size_list_to_set_length
                  ((λ part, Some (partname part)) <$> filter is_xml ps)) as H2.
    rewrite length_fmap in H1, H2.
    pose proof (subseteq_size
      (list_to_set ((λ part, Some (tail1 (posixpath.splitext (partname part)).2))
                      <$> filter (λ part, ¬ is_xml part) ps)
       ∖ {[Some "rels"; Some "xml"]})
      (list_to_set ((λ part, Some (tail1 (posixpath.splitext (partname part)).2))
                      <$> filter (λ part, ¬ is_xml part) ps) : gset pystr)
      ltac:(set_solver)) as H3.
    lia.
Qed.

Lemma dict_of_last {K} `{Countable K} {V} (l : list (K * V)) k :
  dict_of l !! k = (λ kv, kv.2) <$> last (filter (λ kv, kv.1 = k) l).
Proof.
  induction l as [|[k' v'] l IH] using rev_ind; [done|].
  rewrite dict_of_snoc, filter_app.
  destruct (decide (k' = k)) as [->|Hne].
  - rewrite lookup_insert_eq. rewrite filter_cons_True by done.
    by rewrite filter_nil, last_snoc.
  - rewrite lookup_insert_ne by done. rewrite filter_cons_False by done.
    by rewrite filter_nil, app_nil_r.
Qed.

Lemma filter_fmap_key {A K V} `{EqDecision K} (f : A → K) (g : A → V) (xs : list A) k :
  filter (λ kv, kv.1 = k) ((λ x, (f x, g x)) <$> xs)
  = (λ x, (f x, g x)) <$> filter (λ x, f x = k) xs.
Proof.
  induction xs as [|x xs IH]; [done|]. rewrite fmap_cons.
  destruct (decide (f x = k)) as [Hk|Hk].
  - rewrite !filter_cons_True by done. by rewrite fmap_cons, IH.
  - by rewrite !filter_cons_False by done.
Qed.

Lemma dict_of_fmap_last {A} (f g : A → pystr) (xs : list A) k :
  dict_of ((λ x, (f x, g x)) <$> xs) !! k = g <$> last (filter (λ x, f x = k) xs).
Proof.
  rewrite dict_of_last, filter_fmap_key, fmap_last.
  by destruct (last (filter (λ x, f x = k) xs)).
Qed.

(** X12. After [load], looking a part name up gives the content
    type of the last Override element with that part name, else of the
    last Default element with the extension of the name, else raises
    [LookupError]. *)
Theorem load_then_getitem fs (st st' : State) cti :
  ContentTypesItem_load fs st = (Ok cti, st') →
  ∃ e,
    getelement fs "/[Content_Types].xml" st = (Ok e, st')
    ∧ ∀ p,
        ContentTypesItem_getitem cti p
        = match last (filter (λ x, get x "PartName" = Some p)
                        (findall e (clark ns_ct "Override"))) with
          | Some x => Ok (get x "ContentType")
          | None =>
              match last (filter (λ x, get x "Extension" = Some (extension p))
                            (findall e (clark ns_ct "Default"))) with
              | Some x => Ok (get x "ContentType")
              | None => Raise (LookupError ("No part name '" +:+ p
                                            +:+ "' in package content types item"))
              end
          end.
Proof.
  unfold ContentTypesItem_load. intros (e & s1 & He & Hret)%bind_Ok_inv.
  unfold ret in Hret. injection Hret as <- <-. exists e. split; [done|].
  intros p. unfold ContentTypesItem_getitem. cbn [defaults overrides].
  rewrite !dict_of_fmap_last. fold (extension p).
  destruct (last (filter _ (findall e (clark ns_ct "Override")))); [done|]. cbn.
  by destruct (last (filter _ (findall e (clark ns_ct "Default")))).
Qed.

Lemma with_disk_id (st : State) : st = with_disk (disk st) st.
Proof. by destruct st. Qed.

Lemma only_writes_pure {A} z (c : M A) :
  (∀ st, ∃ r, c st = (r, st) ∧ r ≠ OutOfFuel) → only_writes z c.
Proof.
  intros Hc st r st' Hrun. destruct (Hc st) as (r' & Hr & Hne). rewrite Hr in Hrun.
  injection Hrun as <- <-. split_and!; [done|apply with_disk_id|done|eauto].
Qed.

Lemma only_writes_bind {A B} z (c : M A) (k : A → M B) :
  only_writes z c → (∀ a, only_writes z (k a)) → only_writes z (bind c k).
Proof.
  intros Hc Hk st r st' Hrun. unfold bind in Hrun.
  destruct (c st) as [[a| e |] s1] eqn:Hcs.
  - destruct (Hc _ _ _ Hcs) as (_ & Hs1 & Hp1 & Hz1).
    destruct (Hk a _ _ _ Hrun) as (Hr & Hs2 & Hp2 & Hz2). split_and!; [done|..].
    + rewrite Hs2, Hs1 at 1. by rewrite with_disk_with_disk.
    + intros p Hp. by rewrite Hp2, Hp1.
    + intros ms Hms. destruct (Hz1 _ Hms) as [ms1 Hms1]. eauto.
  - injection Hrun as <- <-. destruct (Hc _ _ _ Hcs) as (_ & ? & ? & ?). done.
  - injection Hrun as <- <-. by destruct (Hc _ _ _ Hcs) as (? & _).
Qed.

Lemma only_writes_ret {A} z (a : A) : only_writes z (ret (S:=State) a).
Proof. apply only_writes_pure. intros st. by exists (Ok a). Qed.

Lemma only_writes_raise {A} z e : only_writes z (raise (S:=State) (A:=A) e).
Proof. apply only_writes_pure. intros st. by exists (Raise e). Qed.

Lemma only_writes_gets {A} z (f : State → A) : only_writes z (gets f).
Proof. apply only_writes_pure. intros st. by exists (Ok (f st)). Qed.

Lemma only_writes_lift {A} z (r : res A) : r ≠ OutOfFuel → only_writes z (lift (S:=State) r).
Proof. intros Hr. apply only_writes_pure. intros st. by exists r. Qed.

Lemma only_writes_getattr {A} z a n (f : _ → A) : only_writes z (getattr a n f).
Proof.
  apply only_writes_pure. intros st. unfold getattr.
  destruct (objects st !! a ≫= attrs); eauto.
Qed.

Lemma only_writes_format z a : only_writes z (format a).
Proof.
  apply only_writes_bind; [apply only_writes_getattr|]. intros e. apply only_writes_ret.
Qed.

Lemma only_writes_zip_open z : only_writes z (zip_open z).
Proof.
  apply only_writes_pure. intros st. unfold zip_open.
  destruct (disk st !! z) as [[| |]|]; eauto.
Qed.

Lemma only_writes_zip_writestr z n b : only_writes z (zip_writestr z n b).
Proof.
  apply only_writes_bind; [apply only_writes_zip_open|]. intros ms st r st'.
  unfold modify. intros [= <- <-]. cbn. split_and!; [done|done|..].
  - intros p Hp. by rewrite lookup_insert_ne.
  - intros ms0 _. rewrite lookup_insert_eq. eauto.
Qed.

Lemma only_writes_write_blob z b u : only_writes z (write_blob z b u).
Proof.
  apply only_writes_bind; [apply only_writes_zip_open|]. intros ms.
  case_bool_decide; [apply only_writes_raise|].
  destruct b; [apply only_writes_zip_writestr|apply only_writes_raise].
Qed.

Lemma only_writes_write_element z e u : only_writes z (write_element z e u).
Proof.
  apply only_writes_bind; [apply only_writes_zip_open|]. intros ms.
  case_bool_decide; [apply only_writes_raise|].
  destruct e; [apply only_writes_zip_writestr|apply only_writes_raise].
Qed.

Lemma append_rels_total e rels : append_rels e rels ≠ OutOfFuel.
Proof.
  revert e. induction rels as [|r rels IH]; intros e; cbn; [done|].
  destruct (Relationship_element r) as [e'| |] eqn:Hr; [apply IH|done|].
  destruct r as [[?|] [?|] [?|]]; done.
Qed.

Lemma ct_children_total t k d keys : ct_children t k d keys ≠ OutOfFuel.
Proof.
  induction keys as [|x keys IH]; cbn; [done|].
  destruct (set _ k x) as [e1| |] eqn:H1; [|done|by destruct x].
  destruct (set e1 _ _) as [e2| |] eqn:H2; [|done|].
  - by destruct (ct_children t k d keys).
  - destruct e1. by destruct (default None (d !! x)).
Qed.

Lemma ContentTypesItem_element_total cti : ContentTypesItem_element cti ≠ OutOfFuel.
Proof.
  unfold ContentTypesItem_element.
  destruct (defaults cti) as [d|], (overrides cti) as [o|]; cbn.
  - pose proof (ct_children_total (clark ns_ct "Default") "Extension" d (sorted_keys d)).
    pose proof (ct_children_total (clark ns_ct "Override") "PartName" o (sorted_keys o)).
    destruct (ct_children _ _ d _); [|done..]. by destruct (ct_children _ _ o _).
  - pose proof (ct_children_total (clark ns_ct "Default") "Extension" d (sorted_keys d)).
    by destruct (ct_children _ _ d _).
  - pose proof (ct_children_total (clark ns_ct "Override") "PartName" o (sorted_keys o)).
    by destruct (ct_children _ _ o _).
  - done.
Qed.

Lemma only_writes_compose_loop z ps d o : only_writes z (compose_loop ps d o).
Proof.
  revert d o. induction ps as [|q ps IH]; intros d o; cbn; [apply only_writes_ret|].
  case_bool_decide.
  - apply only_writes_bind; [apply only_writes_getattr|]. intros ct. apply IH.
  - destruct (default_content_types !! _); [apply IH|apply only_writes_raise].
Qed.

Lemma only_writes_compose z ps : only_writes z (compose ps).
Proof.
  unfold compose.
  destruct (default_content_types !! ".rels"), (default_content_types !! ".xml");
    try apply only_writes_raise. apply only_writes_compose_loop.
Qed.

Lemma only_writes_save_parts z ps : only_writes z (save_parts z ps).
Proof.
  induction ps as [|q ps IH]; cbn; [apply only_writes_ret|].
  apply only_writes_bind; [apply only_writes_format|]. intros fmt.
  apply only_writes_bind.
  { case_bool_decide; [apply only_writes_write_element|apply only_writes_write_blob]. }
  intros _. apply only_writes_bind; [|by intros _].
  destruct (relsitem q) as [ri|]; [|apply only_writes_ret].
  apply only_writes_bind; [apply only_writes_lift, append_rels_total|].
  intros e. apply only_writes_write_element.
Qed.

(** X13. [save] always comes to an end and changes nothing but the disk,
    and of the disk nothing but the target; when the target is a
    directory, or when there is no file at the target and none can be
    made there, it raises [IOError] and changes nothing at all;
    otherwise the target holds an archive afterwards, whether [save]
    succeeded or not. *)
Theorem save_frame path (st st' : State) r :
  Package_save path st = (r, st') →
  let target := posixpath.abspath cwd (normalizedpath path) in
  r ≠ OutOfFuel
  ∧ st' = with_disk (disk st') st
  ∧ (∀ p, p ≠ target → disk st' !! p = disk st !! p)
  ∧ (∀ files, disk st !! target = Some (Directory files) →
       st' = st ∧ ∃ msg, r = Raise (IOError msg))
  ∧ (disk st !! target = None → creatable target = false →
       st' = st ∧ ∃ msg, r = Raise (IOError msg))
  ∧ ((∀ files, disk st !! target ≠ Some (Directory files)) →
     (disk st !! target = None → creatable target = true) →
       ∃ ms, disk st' !! target = Some (ZipArchive ms)).
Proof.
  intros Hrun target. unfold Package_save in Hrun. unfold bind at 1 in Hrun.
  assert ((∀ files, disk st !! target ≠ Some (Directory files)) →
          (disk st !! target = None → creatable target = true) →
          r ≠ OutOfFuel ∧ st' = with_disk (disk st') st
          ∧ (∀ p, p ≠ target → disk st' !! p = disk st !! p)
          ∧ ∃ ms, disk st' !! target = Some (ZipArchive ms)) as Hgood.
  { intros Hnd Hcr.
    rewrite (ZipFileSystem_new_file _ _ Hnd Hcr) in Hrun. fold target in Hrun.
    set (st0 := with_disk (<[target := ZipArchive []]> (disk st)) st) in Hrun.
    match type of Hrun with ?c st0 = _ => assert (only_writes target c) as Hw end.
    { apply only_writes_bind; [apply only_writes_gets|]; intros ps.
      apply only_writes_bind; [apply only_writes_compose|]; intros cti.
      apply only_writes_bind; [apply only_writes_lift, ContentTypesItem_element_total|].
      intros e. apply only_writes_bind; [apply only_writes_write_element|]; intros _.
      apply only_writes_bind; [apply only_writes_gets|]; intros [ri|].
      2: apply only_writes_raise.
      apply only_writes_bind; [apply only_writes_lift, append_rels_total|]; intros e2.
      apply only_writes_bind; [apply only_writes_write_element|]; intros _.
      apply only_writes_bind; [apply only_writes_gets|]; intros ps2.
      apply only_writes_save_parts. }
    destruct (Hw _ _ _ Hrun) as (Hr & Hs & Hp & Hz).
    split_and!; [done|..].
    - rewrite Hs at 1. unfold st0. by rewrite with_disk_with_disk.
    - intros p Hp'. rewrite (Hp p Hp'). cbn. by rewrite lookup_insert_ne.
    - apply (Hz []). cbn. by rewrite lookup_insert_eq. }
  assert (∀ msg, ZipFileSystem_new (normalizedpath path) st = (Raise (IOError msg), st) →
                 r = Raise (IOError msg) ∧ st' = st) as Hbad.
  { intros msg Hnew. rewrite Hnew in Hrun. by injection Hrun as <- <-. }
  clear Hrun.
  destruct (disk st !! target) as [[files| |]|] eqn:Hd.
  - destruct (Hbad ("Is a directory: " +:+ target)) as [-> ->].
    { unfold ZipFileSystem_new. fold target. by rewrite Hd. }
    split_and!; [done|apply with_disk_id|done| |done|].
    + intros ? _. eauto.
    + intros Hno. by destruct (Hno files).
  - destruct Hgood as (? & ? & ? & ?); [done..|]. split_and!; done.
  - destruct Hgood as (? & ? & ? & ?); [done..|]. split_and!; done.
  - destruct (creatable target) eqn:Hcr.
    + destruct Hgood as (? & ? & ? & ?); [done..|]. split_and!; done.
    + destruct (Hbad ("No such file or directory: " +:+ target)) as [-> ->].
      { unfold ZipFileSystem_new. fold target. by rewrite Hd, Hcr. }
      split_and!; [done|apply with_disk_id|done|done| |].
      * intros _ _. eauto.
      * intros _ Hc. by specialize (Hc eq_refl).
Qed.

(** X14. Saving a package that was never opened, to a target that is a
    file or where a file can be made, raises [AttributeError] for the
    missing package relationships, after the target was replaced by an
    archive that holds [Content_Types].xml only. *)
Theorem save_unopened path (st : State) rels_ct xml_ct :
  default_content_types !! ".rels" = Some rels_ct →
  default_content_types !! ".xml" = Some xml_ct →
  let target := posixpath.abspath cwd (normalizedpath path) in
  (∀ files, disk st !! target ≠ Some (Directory files)) →
  (disk st !! target = None → creatable target = true) →
  ∃ e,
    ContentTypesItem_element
      {| defaults := Some (<[Some "xml" := Some xml_ct]> (<[Some "rels" := Some rels_ct]> ∅));
         overrides := Some ∅ |} = Ok e
    ∧ (Package_init ;; Package_save path) st
      = (Raise (AttributeError "'NoneType' object has no attribute 'element'"),
         with_disk (<[target := ZipArchive [("[Content_Types].xml", tostring e)]]> (disk st))
           (with_pkg_relsitem None (with_parts [] ∅ st))).
Proof.
  intros Hrels Hxml target Hnd Hcr.
  destruct (element_all_str _ _
              (all_str_insert _ "xml" xml_ct (all_str_insert _ "rels" rels_ct all_str_empty))
              all_str_empty) as [e He].
  exists e. split; [done|].
  unfold Package_init. unfold bind at 1. unfold modify.
  set (st0 := with_pkg_relsitem None (with_parts [] ∅ st)).
  unfold Package_save. unfold bind at 1.
  rewrite (ZipFileSystem_new_file _ st0) by (first [intros files; apply Hnd | apply Hcr]).
  fold target.
  unfold bind at 1, gets. cbn [parts st0 with_disk with_pkg_relsitem with_parts].
  unfold bind at 1. unfold compose. rewrite Hrels, Hxml. cbn [compose_loop]. unfold ret.
  unfold bind at 1, lift. rewrite He.
  unfold bind at 1. unfold write_element, bind, zip_open. cbn.
  rewrite lookup_insert_eq. rewrite bool_decide_eq_false_2 by (vm_compute; by intros ?%elem_of_nil).
  unfold zip_writestr, bind, zip_open, modify, gets, raise. cbn.
  rewrite lookup_insert_eq. cbn. by rewrite insert_insert_eq.
Qed.

Lemma reachable_mono (st st' : State) rels p :
  (∀ q part, partname_dict st !! q = Some part → partname_dict st' !! q = Some part) →
  reachable st rels p → reachable st' rels p.
Proof.
  intros Hmono. induction 1 as [r p Hr Hp|q part prels r p _ IH Hq Hrels Hr Hp].
  - by eapply reach_root.
  - eapply reach_step; eauto.
Qed.

Lemma reachable_via (st : State) rels prels p part q :
  reachable st rels p → partname_dict st !! p = Some part →
  relationships part = Some prels →
  reachable st prels q → reachable st rels q.
Proof.
  intros Hp Hd Hrels. induction 1 as [r q Hr Hq|q' part' prels' r q _ IH Hq' Hrels' Hr Hq].
  - eapply reach_step; eauto.
  - eapply reach_step; [exact IH|..]; eauto.
Qed.

Lemma loadparts_loop_reach recurse fs cti rels :
  (∀ prels (st st' : State),
     parts_wf fs st → recurse prels st = (Ok (), st') →
     load_post fs prels (rc_list prels) st st' ∧ only_reachable prels st st') →
  ∀ rs (st st' : State),
    (∀ r, r ∈ rs → r ∈ rc_list rels) →
    parts_wf fs st →
    loadparts_loop recurse fs cti rels rs st = (Ok (), st') →
    only_reachable rels st st'.
Proof.
  intros Hrec.
  assert (∀ prels (st st' : State),
            parts_wf fs st → recurse prels st = (Ok (), st') →
            load_post fs prels (rc_list prels) st st') as Hpost
    by (intros ????? ; by eapply Hrec).
  induction rs as [|r rs IH]; intros st st' Hsub Hwf Hrun.
  { cbn in Hrun. unfold ret in Hrun. injection Hrun as <-. intros part ?. by left. }
  assert (∀ r', r' ∈ rs → r' ∈ rc_list rels) as Hsub' by (intros; apply Hsub; by right).
  cbn in Hrun.
  apply bind_Ok_inv in Hrun as (p & st0 & Hp & Hrun).
  unfold lift in Hp. injection Hp as Hp <-.
  apply bind_Ok_inv in Hrun as (known & st0 & Hk & Hrun).
  unfold gets in Hk. injection Hk as <- <-.
  unfold PartCollection_contains in Hrun. case_bool_decide as Hknown.
  { by apply IH. }
  apply bind_Ok_inv in Hrun as (ct & st0 & Hct & Hrun).
  unfold lift in Hct. injection Hct as Hct <-.
  apply bind_Ok_inv in Hrun as (part & st1 & Hload & Hrun).
  apply bind_Ok_inv in Hrun as ([] & st2 & Hsubrun & Hrun).
  destruct (loadpart_wf _ _ _ _ _ _ Hwf Hload) as (Hwf1 & Hext1 & _).
  destruct (loadpart_Ok _ _ _ _ _ _ Hload) as (Hnone & Hname & _ & Hparts1 & Hdict1).
  (* the parts added below the new part *)
  assert (parts_wf fs st2 ∧ extends st1 st2
          ∧ ∀ part', part' ∈ parts st2 →
              part' ∈ parts st1
              ∨ ∃ prels, relationships part = Some prels
                         ∧ reachable st2 prels (partname part')) as (Hwf2 & Hext2 & Hnew2).
  { destruct (relationships part) as [prels|] eqn:Hrels; cbn in Hsubrun.
    - case_bool_decide as Hne.
      + destruct (Hrec _ _ _ Hwf1 Hsubrun) as [(? & ? & _) Hreach].
        split_and!; [done..|]. intros part' Hin. destruct (Hreach _ Hin); eauto.
      + unfold ret in Hsubrun. injection Hsubrun as <-.
        split_and!; [done|apply extends_refl|]. intros; by left.
    - unfold ret in Hsubrun. injection Hsubrun as <-.
      split_and!; [done|apply extends_refl|]. intros; by left. }
  pose proof (loadparts_loop_post _ _ _ _ Hpost _ _ _ Hwf2 Hrun) as (Hwf3 & Hext3 & _).
  specialize (IH _ _ Hsub' Hwf2 Hrun).
  assert (reachable st' rels p) as Hreach_p.
  { eapply reach_root; [|exact Hp]. apply Hsub. left. }
  assert (partname_dict st' !! p = Some part) as Hd3.
  { apply Hext3, Hext2. rewrite Hdict1. apply lookup_insert_eq. }
  intros part' Hin3. destruct (IH _ Hin3) as [Hin2 | ?]; [|by right].
  destruct (Hnew2 _ Hin2) as [Hin1 | (prels & Hrels & Hreach)].
  - rewrite Hparts1 in Hin1. apply elem_of_app in Hin1 as [? | ->%list_elem_of_singleton];
      [by left|]. right. by rewrite Hname.
  - right. eapply reachable_via; [exact Hreach_p|exact Hd3|exact Hrels|].
    eapply reachable_mono; [|exact Hreach]. apply Hext3.
Qed.

Lemma loadparts_reach fs cti fuel :
  ∀ rels (st st' : State),
    parts_wf fs st → loadparts fuel fs cti rels st = (Ok (), st') →
    only_reachable rels st st'.
Proof.
  induction fuel as [|fuel IH]; intros rels st st' Hwf Hrun; [done|].
  cbn in Hrun. eapply loadparts_loop_reach; [|done|done|exact Hrun].
  intros prels s s' Hs Hr. split; [by eapply loadparts_post|by eapply IH].
Qed.

(** X15. After [open] succeeded on an empty collection, every part of
    the collection is an item of the package and is reached from the
    package relationships through the relationships of parts that were
    loaded themselves, so that nothing is loaded that no loaded
    relationship leads to; every relationship the package or a loaded
    part holds has its target in the collection; and the dictionary of
    the collection holds the names of the parts of its list. *)
Theorem loaded_only_reachable location (st st' : State) :
  parts st = [] → partname_dict st = ∅ →
  Package_open location st = (Ok (), st') →
  ∃ fs ri,
    FileSystem_new location st = (Ok fs, st)
    ∧ pkg_relsitem st' = Some ri
    ∧ (∀ p, PartCollection_contains st' p = true → reachable st' (pkg_relationships ri) p)
    ∧ (∀ p, PartCollection_contains st' p = true → contains fs p = true)
    ∧ (∀ p, PartCollection_contains st' p = true ↔ p ∈ partname <$> parts st')
    ∧ targets_loaded (pkg_relationships ri) (rc_list (pkg_relationships ri)) st'
    ∧ (∀ part prels, part ∈ parts st' → relationships part = Some prels →
         targets_loaded prels (rc_list prels) st').
Proof.
  intros Hp0 Hd0 Hopen.
  destruct (Package_open_Ok _ _ _ Hopen) as (fs & cti & ri & sc & Hfs & _ & _ & Hlc & Hsc & Hload).
  exists fs, ri.
  assert (parts sc = [] ∧ partname_dict sc = ∅ ∧ pkg_relsitem sc = Some ri)
    as (Hpc & Hdc & Hrc) by (rewrite Hsc; done).
  assert (parts_wf fs sc) as Hwfc.
  { unfold parts_wf. rewrite Hpc, Hdc. split_and!.
    - constructor.
    - intros p part. rewrite lookup_empty. split; [done|]. by intros [?%elem_of_nil _].
    - by intros part ?%elem_of_nil. }
  pose proof (loadparts_post _ _ _ _ _ _ Hwfc Hload) as Hpost.
  pose proof (loadparts_reach _ _ _ _ _ _ Hwfc Hload) as Hreach.
  destruct Hpost as ((Hnd & Hiff & Hin_fs) & _ & Htl & Hcl).
  assert (startswith (rc_baseURI (pkg_relationships ri)) "/" = true) as Habs
    by (by rewrite (loaded_collection_baseURI _ _ Hlc)).
  split_and!; [done| | | | |done|].
  - rewrite (loadparts_pkg_relsitem _ _ _ _ _ _ Habs Hload). done.
  - intros p [part Hpart]%bool_decide_eq_true_1. apply Hiff in Hpart as [Hin <-].
    destruct (Hreach _ Hin) as [Hin0 | ?]; [|done]. rewrite Hpc in Hin0.
    by apply elem_of_nil in Hin0.
  - intros p [part Hpart]%bool_decide_eq_true_1. apply Hiff in Hpart as [Hin <-].
    by apply Hin_fs.
  - intros p. unfold PartCollection_contains. rewrite bool_decide_eq_true. split.
    + intros [part Hpart]. apply Hiff in Hpart as [Hin <-]. by apply list_elem_of_fmap_2.
    + intros (part & -> & Hin)%list_elem_of_fmap. exists part. by apply Hiff.
  - intros part prels Hin Hrels. eapply Hcl; [done| |done]. by rewrite Hdc.
Qed.

Lemma keeps_loadparts_loop {B} (f : State → B) recurse fs cti rels :
  load_blind f → (∀ prels, keeps f (recurse prels)) →
  ∀ rs, keeps f (loadparts_loop recurse fs cti rels rs).
Proof.
  intros (Hreg & Hrd & Hparts & _) Hrec. induction rs as [|r rs IH]; cbn.
  - apply keeps_ret.
  - apply keeps_bind; [apply keeps_lift|]. intros p.
    apply keeps_bind; [apply keeps_gets|]. intros [|]; [done|].
    apply keeps_bind; [apply keeps_lift|]. intros ct.
    apply keeps_bind; [by apply keeps_loadpart|]. intros part.
    apply keeps_bind; [|done].
    destruct (relationships part) as [prels|]; [|apply keeps_ret].
    case_bool_decide; [apply Hrec|apply keeps_ret].
Qed.

Lemma keeps_loadparts {B} (f : State → B) fs cti fuel :
  load_blind f → ∀ rels, keeps f (loadparts fuel fs cti rels).
Proof.
  intros Hf. induction fuel as [|fuel IH]; intros rels; cbn.
  - by intros st r st' [= <- <-].
  - by apply keeps_loadparts_loop.
Qed.

Lemma keeps_Package_open {B} (f : State → B) path :
  load_blind f → keeps f (Package_open path).
Proof.
  intros Hf. pose proof Hf as (Hreg & Hrd & Hparts & Hrel).
  unfold Package_open.
  apply keeps_bind.
  { intros st r st'. unfold FileSystem_new.
    destruct (disk st !! _) as [[| |]|]; by intros [= <- <-]. }
  intros fs. apply keeps_bind.
  { apply keeps_bind; [by apply keeps_getelement|]. intros e. apply keeps_ret. }
  intros cti. apply keeps_bind.
  { apply keeps_bind; [by apply keeps_RelationshipsItem_load|]. intros e. apply keeps_ret. }
  intros ri. apply keeps_bind.
  { intros st r st'. unfold modify. intros [= <- <-]. apply Hrel. }
  intros _. by apply keeps_loadparts.
Qed.

Lemma load_blind_disk : load_blind (disk (bytes:=bytes) (loadclass:=loadclass)).
Proof. by split_and!; [split|..]. Qed.

Lemma load_blind_loadclassmap : load_blind (loadclassmap (bytes:=bytes) (loadclass:=loadclass)).
Proof. by split_and!; [split|..]. Qed.

Lemma load_blind_defloadclass : load_blind (defloadclass (bytes:=bytes) (loadclass:=loadclass)).
Proof. by split_and!; [split|..]. Qed.

(** X16. [open] never changes the disk or the registered load classes,
    whatever its outcome, and on an empty collection it always comes to
    an end. *)
Theorem open_frame path (st st' : State) r :
  Package_open path st = (r, st') →
  disk st' = disk st
  ∧ loadclassmap st' = loadclassmap st
  ∧ defloadclass st' = defloadclass st
  ∧ (parts st = [] → partname_dict st = ∅ → r ≠ OutOfFuel).
Proof.
  intros Hrun. split_and!.
  - apply (keeps_Package_open disk path load_blind_disk _ _ _ Hrun).
  - apply (keeps_Package_open loadclassmap path load_blind_loadclassmap _ _ _ Hrun).
  - apply (keeps_Package_open defloadclass path load_blind_defloadclass _ _ _ Hrun).
  - intros Hp0 Hd0 ->. unfold Package_open in Hrun.
    unfold bind at 1 in Hrun.
    destruct (FileSystem_new path st) as [[fs| |] s0] eqn:Hfs; [|done|].
    2: { unfold FileSystem_new in Hfs. by destruct (disk st !! _) as [[| |]|]. }
    apply FileSystem_new_Ok in Hfs as [-> _].
    unfold bind at 1 in Hrun.
    destruct (ContentTypesItem_load fs st) as [[cti| |] s1] eqn:Hcti; [|done|].
    2: { unfold ContentTypesItem_load, bind in Hcti.
         pose proof (total_getelement fs "/[Content_Types].xml" st) as Ht.
         destruct (getelement fs _ st) as [[?| |] ?]; [|done|]; done. }
    unfold bind at 1 in Hrun.
    destruct (PackageRelationshipsItem_load fs s1) as [[ri| |] s2] eqn:Hri; [|done|].
    2: { unfold PackageRelationshipsItem_load, bind in Hri.
         pose proof (total_RelationshipsItem_load "/" fs "/_rels/.rels" s1) as Ht.
         destruct (RelationshipsItem_load _ fs _ s1) as [[?| |] ?]; [|done|]; done. }
    unfold bind at 1, modify in Hrun.
    assert (keeps parts (ContentTypesItem_load fs)) as K1.
    { apply keeps_bind; [by apply keeps_getelement|]. intros e. apply keeps_ret. }
    assert (keeps partname_dict (ContentTypesItem_load fs)) as K2.
    { apply keeps_bind; [by apply keeps_getelement|]. intros e. apply keeps_ret. }
    assert (keeps parts (PackageRelationshipsItem_load fs)) as K3.
    { apply keeps_bind; [by apply keeps_RelationshipsItem_load|]. intros e. apply keeps_ret. }
    assert (keeps partname_dict (PackageRelationshipsItem_load fs)) as K4.
    { apply keeps_bind; [by apply keeps_RelationshipsItem_load|]. intros e. apply keeps_ret. }
    set (sc := with_pkg_relsitem (Some ri) s2) in Hrun.
    assert (parts sc = [] ∧ partname_dict sc = ∅) as [Hpc Hdc].
    { cbn. rewrite (K3 _ _ _ Hri), (K4 _ _ _ Hri), (K1 _ _ _ Hcti), (K2 _ _ _ Hcti). done. }
    assert (parts_wf fs sc) as Hwfc.
    { unfold parts_wf. rewrite Hpc, Hdc. split_and!.
      - constructor.
      - intros p part. rewrite lookup_empty. split; [done|]. by intros [?%elem_of_nil _].
      - by intros part ?%elem_of_nil. }
    pose proof (loadparts_total fs cti (S (length (itemURIs fs))) (pkg_relationships ri) sc Hwfc
                  ltac:(apply Nat.lt_succ_r, remaining_le)) as Ht.
    by rewrite Hrun in Ht.
Qed.
(** X17. A part that [Part.load] returns carries the item path as its
    name; it has an element and no blob when its type's extension is
    '.xml', a blob and no element otherwise; a relationships item is
    there only for a type that is not 'never', loaded from the
    companion item of the part, and missing only for 'never' or for
    'optional' without companion item; the part item and then the
    companion item are all that was read, and the collection and the
    disk are as before. *)
Theorem Part_load_post fs p ct (st st' : State) part :
  Part_load fs p ct st = (Ok part, st') →
  partname part = p ∧ contains fs p = true
  ∧ (∃ a,
       objects st' !! typespec part ≫= attrs = Some a
       ∧ (if bool_decide (ext a = ".xml")
          then blob part = None ∧ is_Some (element part)
          else element part = None ∧ is_Some (blob part))
       ∧ match relsitem part with
         | Some ri =>
             has_rels a ≠ "never"
             ∧ pri_itemURI ri = companion p
             ∧ pri_baseURI ri = (posixpath.split p).1
             ∧ rc_baseURI (pri_relationships ri) = (posixpath.split p).1
             ∧ contains fs (companion p) = true
         | None =>
             has_rels a = "never"
             ∨ (has_rels a = "optional" ∧ contains fs (companion p) = false)
         end)
  ∧ reads st' = reads st ++ p :: match relsitem part with
                                 | Some _ => [companion p]
                                 | None => []
                                 end
  ∧ parts st' = parts st ∧ partname_dict st' = partname_dict st
  ∧ disk st' = disk st.
Proof.
  intros Hrun.
  assert (parts st' = parts st ∧ partname_dict st' = partname_dict st
          ∧ disk st' = disk st) as (Hparts & Hdict & Hdisk).
  { split_and!.
    - by apply (keeps_Part_load parts fs p ct (conj (λ _ _, eq_refl) (λ _ _, eq_refl))
                  (λ _ _, eq_refl) _ _ _ Hrun).
    - by apply (keeps_Part_load partname_dict fs p ct (conj (λ _ _, eq_refl) (λ _ _, eq_refl))
                  (λ _ _, eq_refl) _ _ _ Hrun).
    - by apply (keeps_Part_load disk fs p ct (conj (λ _ _, eq_refl) (λ _ _, eq_refl))
                  (λ _ _, eq_refl) _ _ _ Hrun). }
  unfold Part_load in Hrun.
  apply bind_Ok_inv in Hrun as (ts & st1 & Hts & Hrun).
  pose proof (keeps_PartTypeSpec reads ct (conj (λ _ _, eq_refl) (λ _ _, eq_refl)) _ _ _ Hts)
    as Hreads1.
  apply bind_Ok_inv in Hrun as ([b e] & st2 & Hbody & Hrun).
  apply bind_Ok_inv in Hrun as (ri & st3 & Hrels & Hrun).
  unfold ret in Hrun. injection Hrun as <- <-.
  destruct (load_body_Ok _ _ _ _ _ _ Hbody) as [Hc ->].
  unfold load_body in Hbody.
  apply bind_Ok_inv in Hbody as (fmt & st0 & Hfmt & Hbody).
  apply format_Ok in Hfmt as (-> & a & Ha & ->).
  set (st2 := with_reads (reads st1 ++ [p]) st1) in *.
  assert (objects st2 !! ts ≫= attrs = Some a) as Ha2 by done.
  assert (objects st3 = objects st2) as Ho3
    by (by rewrite (keeps_load_relsitem objects fs p ts (λ _ _, eq_refl) _ _ _ Hrels)).
  rewrite (load_relsitem_run _ _ _ _ _ Ha2) in Hrels.
  cbn [partname typespec blob element relsitem].
  split_and!; [done|done| | |done..].
  - exists a. rewrite Ho3. split_and!; [done|..].
    + destruct (bool_decide (ext a = ".xml")).
      * rewrite bool_decide_eq_true_2 in Hbody by done.
        apply bind_Ok_inv in Hbody as (e' & st4 & He' & Hret).
        unfold ret in Hret. simplify_eq. eauto.
      * rewrite bool_decide_eq_false_2 in Hbody by done.
        apply bind_Ok_inv in Hbody as (b' & st4 & Hb' & Hret).
        unfold ret in Hret. simplify_eq. eauto.
    + case_bool_decide as Hnever; [simplify_eq; by left|].
      destruct (contains fs (companion p)) eqn:Hcomp; cbn in Hrels.
      * rewrite andb_false_r in Hrels.
        apply bind_Ok_inv in Hrels as (ri' & st4 & Hri' & Hret).
        unfold ret in Hret. simplify_eq.
        unfold PartRelationshipsItem_load in Hri'.
        apply bind_Ok_inv in Hri' as (rels & st5 & Hrl & Hret).
        unfold ret in Hret. simplify_eq. cbn.
        split_and!; [done..| |done]. by eapply RelationshipsItem_load_baseURI.
      * rewrite andb_true_r in Hrels. case_bool_decide; [|done].
        simplify_eq. by right.
  - case_bool_decide as Hnever.
    { injection Hrels as <- <-. cbn. by rewrite Hreads1. }
    destruct (contains fs (companion p)) eqn:Hcomp; cbn in Hrels.
    + rewrite andb_false_r in Hrels.
      apply bind_Ok_inv in Hrels as (ri' & st4 & Hri' & Hret).
      unfold ret in Hret. injection Hret as <- <-.
      apply PartRelationshipsItem_load_state in Hri'. rewrite Hcomp in Hri'. subst st4.
      cbn. rewrite Hreads1. by rewrite <-app_assoc.
    + rewrite andb_true_r in Hrels. case_bool_decide; [|done].
      injection Hrels as <- <-. cbn. by rewrite Hreads1.
Qed.

Lemma cut_after_last_none c s :
  mem_char c s = false → posixpath.cut_after_last c s = None.
Proof.
  induction s as [|a s IH]; cbn; [done|].
  intros [Ha Hs]%orb_false_elim. by rewrite (IH Hs), Ha.
Qed.

Lemma split_root_level name :
  mem_char "/" name = false → posixpath.split ("/" +:+ name) = ("/", name).
Proof.
  intros Hn. unfold posixpath.split. change ("/" +:+ name) with (String "/" name).
  cbn [posixpath.cut_after_last]. by rewrite (cut_after_last_none _ _ Hn).
Qed.

Lemma companion_root_level name :
  mem_char "/" name = false →
  companion ("/" +:+ name) = "//_rels/" +:+ name +:+ ".rels".
Proof. intros Hn. unfold companion. by rewrite (split_root_level _ Hn). Qed.

(** X18. For a part directly below the package root the
    companion URI starts with two slashes, so that it is no item of a
    file system none of whose item URIs does: such a part cannot be
    loaded when its type always has relationships, and is loaded
    without them when they are optional. *)
Theorem root_level_part_loses_rels fs name ct (st st1 st2 : State) ts b e a :
  mem_char "/" name = false →
  Forall (λ u, startswith u "//" = false) (itemURIs fs) →
  PartTypeSpec ct st = (Ok ts, st1) →
  objects st1 !! ts ≫= attrs = Some a →
  load_body fs ("/" +:+ name) ts st1 = (Ok (b, e), st2) →
  companion ("/" +:+ name) = "//_rels/" +:+ name +:+ ".rels"
  ∧ contains fs (companion ("/" +:+ name)) = false
  ∧ (has_rels a = "always" →
       Part_load fs ("/" +:+ name) ct st
       = (Raise (CorruptedPackageError
                   ("required relationships item '" +:+ companion ("/" +:+ name)
                    +:+ "' not found in package")), st2))
  ∧ (has_rels a = "optional" →
       Part_load fs ("/" +:+ name) ct st
       = (Ok {| partname := "/" +:+ name; typespec := ts; blob := b; element := e;
                relsitem := None |}, st2)).
Proof.
  intros Hn Hfs Hts Ha Hbody.
  pose proof (companion_root_level _ Hn) as Hcomp.
  assert (contains fs (companion ("/" +:+ name)) = false) as Hc.
  { apply bool_decide_eq_false_2. intros Hin.
    rewrite Forall_forall in Hfs. apply Hfs in Hin. by rewrite Hcomp in Hin. }
  split_and!; [done|done|..].
  - intros Halways. unfold Part_load.
    rewrite (bind_run_Ok _ _ _ _ _ Hts), (bind_run_Ok _ _ _ _ _ Hbody).
    destruct (load_body_Ok _ _ _ _ _ _ Hbody) as [_ Hst2].
    assert (objects st2 !! ts ≫= attrs = Some a) as Ha2 by (by rewrite Hst2).
    unfold bind. rewrite (load_relsitem_run _ _ _ _ _ Ha2), Halways, Hc.
    rewrite !bool_decide_eq_false_2 by done. done.
  - intros Hopt. unfold Part_load.
    rewrite (bind_run_Ok _ _ _ _ _ Hts), (bind_run_Ok _ _ _ _ _ Hbody).
    destruct (load_body_Ok _ _ _ _ _ _ Hbody) as [_ Hst2].
    assert (objects st2 !! ts ≫= attrs = Some a) as Ha2 by (by rewrite Hst2).
    unfold bind. rewrite (load_relsitem_run _ _ _ _ _ Ha2), Hopt, Hc.
    rewrite bool_decide_eq_false_2 by done. rewrite bool_decide_eq_true_2 by done. done.
Qed.

(** X19. Registering two maps one after the other is
    registering their union, the later one taking precedence; the
    first construction of a type spec takes its load class from the
    registered map, else from the default load class; a registration
    after that does not change the instance. *)
Theorem loadclass_registration (st : State) (c : string) (pt : parttype)
    (m1 m2 : gmap pystr loadclass) :
  instances st !! Some c = None → pml_parttypes !! c = Some pt →
  (register m1 ;; register m2) st = register (m2 ∪ m1) st
  ∧ ∃ a st',
      (register m1 ;; PartTypeSpec (Some c)) st = (Ok a, st')
      ∧ objects st' !! a
        = Some {| _loaded := true;
                  attrs := Some (spec_attrs c pt
                                   (match m1 !! Some c with
                                    | Some l => Some l
                                    | None =>
                                        match loadclassmap st !! Some c with
                                        | Some l => Some l
                                        | None => defloadclass st
                                        end
                                    end)) |}
      ∧ (register m2 ;; PartTypeSpec (Some c)) st' = (Ok a, with_loadclassmap (m2 ∪ loadclassmap st') st').
Proof.
  intros Hi Hpt. split.
  - unfold register, bind, modify. cbn. unfold with_loadclassmap. cbn.
    by rewrite (assoc_L (∪)).
  - unfold register. unfold bind at 1, modify.
    set (s1 := with_loadclassmap (m1 ∪ loadclassmap st) st).
    assert (instances s1 !! Some c = None) as Hi1 by done.
    rewrite (PartTypeSpec_fresh s1 (Some c) Hi1). cbn zeta. cbn [mbind option_bind].
    rewrite Hpt. cbn [fmap option_fmap option_map].
    eexists _, _. split; [done|]. split.
    + cbn. rewrite lookup_app_r by lia. rewrite Nat.sub_diag. cbn.
      rewrite lookup_union. by destruct (m1 !! Some c), (loadclassmap st !! Some c).
    + unfold bind at 1, modify.
      unfold PartTypeSpec, bind, PartTypeSpec_new, PartTypeSpec_init, ret. cbn.
      rewrite lookup_insert_eq. cbn.
      rewrite lookup_app_r by lia. rewrite Nat.sub_diag. cbn. done.
Qed.

(** X21. Writing the element of a populated content
    types item to an archive and loading the item from it gives the
    same defaults and overrides. *)
Theorem content_types_item_round_trip z (ms : list (string * bytes)) d o e (st : State) :
  (∀ e, parse (tostring e) = Some (resolve_ns None e)) →
  ContentTypesItem_element {| defaults := Some d; overrides := Some o |} = Ok e →
  disk st !! z = Some (ZipArchive ms) →
  "/[Content_Types].xml" ∉ zip_itemURIs ms →
  let ms' := ms ++ [("[Content_Types].xml", tostring e)] in
  write_element z (Some e) "/[Content_Types].xml" st
  = (Ok (), with_disk (<[z := ZipArchive ms']> (disk st)) st)
  ∧ ∀ s : State,
      ContentTypesItem_load (ZipFileSystem z ms') s
      = (Ok {| defaults := Some d; overrides := Some o |},
         with_reads (reads s ++ ["/[Content_Types].xml"]) s).
Proof.
  intros Hxml He Hz Hnew ms'. split; [by apply write_element_run|].
  intros s. unfold ContentTypesItem_load.
  rewrite (bind_run_Ok _ _ _ _ _
             (getelement_written z ms e "/[Content_Types].xml" s Hxml ltac:(done))).
  destruct (ContentTypesItem_element_reload _ _ _ He) as [-> ->]. done.
Qed.

(** X22. Writing the element of a loaded relationship
    collection to an archive and loading it again, under the same base
    URI, gives the same collection. *)
Theorem relationships_item_round_trip z (ms : list (string * bytes)) b u rels e
    (st : State) :
  (∀ e, parse (tostring e) = Some (resolve_ns None e)) →
  loaded_collection b rels →
  RelationshipsItem_element rels = Ok e →
  disk st !! z = Some (ZipArchive ms) → member_uri u → u ∉ zip_itemURIs ms →
  let ms' := ms ++ [(tail1 u, tostring e)] in
  write_element z (Some e) u st
  = (Ok (), with_disk (<[z := ZipArchive ms']> (disk st)) st)
  ∧ ∀ s : State,
      RelationshipsItem_load b (ZipFileSystem z ms') u s
      = (Ok rels, with_reads (reads s ++ [u]) s).
Proof.
  intros Hxml Hlc He Hz Hu Hnew ms'. split; [by apply write_element_run|].
  intros s. unfold RelationshipsItem_load.
  rewrite (bind_run_Ok _ _ _ _ _ (getelement_written z ms e u s Hxml Hu)).
  unfold lift. by rewrite (collection_reload _ _ _ Hlc He).
Qed.

Lemma save_parts_names z ps :
  ∀ (st st' : State) ms,
    disk st !! z = Some (ZipArchive ms) →
    save_parts z ps st = (Ok (), st') →
    ∃ new, disk st' !! z = Some (ZipArchive (ms ++ new))
           ∧ new.*1 = flat_map part_members ps.
Proof.
  induction ps as [|q ps IH]; intros st st' ms Hz Hrun.
  { cbn in Hrun. unfold ret in Hrun. injection Hrun as <-. exists [].
    by rewrite app_nil_r. }
  cbn in Hrun.
  apply bind_Ok_inv in Hrun as (fmt & s0 & Hfmt & Hrun).
  apply format_Ok in Hfmt as (-> & _).
  apply bind_Ok_inv in Hrun as ([] & s1 & Hbody & Hrun).
  assert (∃ x, s1 = with_disk (<[z := ZipArchive (ms ++ [(tail1 (partname q), x)])]> (disk st))
                       st) as [x ->].
  { case_bool_decide.
    - apply write_element_Ok in Hbody as (ms0 & x & _ & Hms0 & _ & ->).
      rewrite Hz in Hms0. injection Hms0 as <-. eauto.
    - apply write_blob_Ok in Hbody as (ms0 & x & _ & Hms0 & _ & ->).
      rewrite Hz in Hms0. injection Hms0 as <-. eauto. }
  apply bind_Ok_inv in Hrun as ([] & s2 & Hrels & Hrun).
  unfold part_members. cbn [flat_map].
  destruct (relsitem q) as [ri|].
  - apply bind_Ok_inv in Hrels as (e & s3 & [= He <-] & Hrels).
    apply write_element_Ok in Hrels as (ms0 & x' & [= <-] & Hms0 & _ & ->).
    cbn in Hms0. rewrite lookup_insert_eq in Hms0. injection Hms0 as <-.
    eapply IH in Hrun as (new & Hnew & Hnames); [|cbn; apply lookup_insert_eq].
    eexists (_ :: _ :: new). rewrite Hnew. split.
    + by rewrite <-!app_assoc.
    + cbn. by rewrite Hnames.
  - unfold ret in Hrels. injection Hrels as <-.
    eapply IH in Hrun as (new & Hnew & Hnames); [|cbn; apply lookup_insert_eq].
    eexists (_ :: new). rewrite Hnew. split.
    + by rewrite <-!app_assoc.
    + cbn. by rewrite Hnames.
Qed.

(** X23. After [save] succeeded the target archive holds
    [Content_Types].xml first and _rels/.rels second, followed, part by
    part in the order of the collection, by the part's item and then
    its relationships item if it has one. *)
Theorem save_members path (st st' : State) :
  Package_save path st = (Ok (), st') →
  ∃ ms,
    disk st' !! posixpath.abspath cwd (normalizedpath path) = Some (ZipArchive ms)
    ∧ ms.*1 = "[Content_Types].xml" :: "_rels/.rels" :: flat_map part_members (parts st).
Proof.
  intros Hrun. unfold Package_save in Hrun.
  apply bind_Ok_inv in Hrun as (z & s0 & Hnew & Hrun).
  assert (z = posixpath.abspath cwd (normalizedpath path)
          ∧ s0 = with_disk (<[z := ZipArchive []]> (disk st)) st) as [Hz ->].
  { by apply ZipFileSystem_new_Ok in Hnew as (Hz & Hs0 & _). }
  rewrite <-Hz. clear Hz.
  apply bind_Ok_inv in Hrun as (ps & s1 & [= <- <-] & Hrun).
  apply bind_Ok_inv in Hrun as (cti & s2 & Hcti & Hrun).
  pose proof (keeps_compose id _ _ _ _ Hcti) as Hs2. cbn in Hs2. subst s2.
  apply bind_Ok_inv in Hrun as (e & s3 & [= He <-] & Hrun).
  apply bind_Ok_inv in Hrun as ([] & s4 & Hw1 & Hrun).
  apply write_element_Ok in Hw1 as (m1 & x1 & [= <-] & Hm1 & _ & ->).
  cbn in Hm1. rewrite lookup_insert_eq in Hm1. injection Hm1 as <-.
  apply bind_Ok_inv in Hrun as (ri & s5 & Hri & Hrun).
  unfold gets in Hri. injection Hri as Hri <-.
  destruct ri as [ri|]; [|done].
  apply bind_Ok_inv in Hrun as (e2 & s6 & [= He2 <-] & Hrun).
  apply bind_Ok_inv in Hrun as ([] & s7 & Hw2 & Hrun).
  apply write_element_Ok in Hw2 as (m2 & x2 & [= <-] & Hm2 & _ & ->).
  cbn in Hm2. rewrite lookup_insert_eq in Hm2. injection Hm2 as <-.
  apply bind_Ok_inv in Hrun as (ps2 & s8 & [= <- <-] & Hrun).
  eapply save_parts_names in Hrun as (new & Hdisk & Hnames); [|cbn; apply lookup_insert_eq].
  eexists. split; [exact Hdisk|]. cbn. by rewrite Hnames.
Qed.

(** X24. When [loadpart] raises, for any reason, the part
    collection, the package relationships and the disk are as before. *)
Theorem loadpart_failure fs p ct (st st' : State) e :
  loadpart fs p ct st = (Raise e, st') →
  parts st' = parts st ∧ partname_dict st' = partname_dict st
  ∧ pkg_relsitem st' = pkg_relsitem st ∧ disk st' = disk st
  ∧ (∀ q, PartCollection_getitem q st' = (let (r, _) := PartCollection_getitem q st in (r, st'))).
Proof.
  intros Hrun.
  assert (parts st' = parts st ∧ partname_dict st' = partname_dict st
          ∧ pkg_relsitem st' = pkg_relsitem st ∧ disk st' = disk st) as (H1 & H2 & H3 & H4).
  { unfold loadpart, bind, gets in Hrun.
    destruct (PartCollection_contains st p); [by injection Hrun as _ <-|].
    destruct (Part_load fs p ct st) as [[part| |] s1] eqn:Hload; [done| |done].
    injection Hrun as _ <-.
    split_and!.
    - by apply (keeps_Part_load parts fs p ct (conj (λ _ _, eq_refl) (λ _ _, eq_refl))
                  (λ _ _, eq_refl) _ _ _ Hload).
    - by apply (keeps_Part_load partname_dict fs p ct (conj (λ _ _, eq_refl) (λ _ _, eq_refl))
                  (λ _ _, eq_refl) _ _ _ Hload).
    - by apply (keeps_Part_load pkg_relsitem fs p ct (conj (λ _ _, eq_refl) (λ _ _, eq_refl))
                  (λ _ _, eq_refl) _ _ _ Hload).
    - by apply (keeps_Part_load disk fs p ct (conj (λ _ _, eq_refl) (λ _ _, eq_refl))
                  (λ _ _, eq_refl) _ _ _ Hload). }
  split_and!; [done..|]. intros q. unfold PartCollection_getitem. rewrite H2.
  by destruct (partname_dict st !! q).
Qed.

(** X25. For an item that is not in the file system [getelement]
    and [getblob] raise [LookupError] without reading; otherwise
    [getelement] is [getblob] followed by parsing, raising
    [NotXMLError] when the bytes are not XML. *)
Theorem getelement_outcomes fs u (st : State) :
  (contains fs u = false →
     getelement fs u st
     = (Raise (LookupError ("No package item with URI '" +:+ u +:+ "'")), st)
     ∧ getblob fs u st
       = (Raise (LookupError ("No package item with URI '" +:+ u +:+ "'")), st))
  ∧ (∀ b st', getblob fs u st = (Ok b, st') →
       st' = with_reads (reads st ++ [u]) st
       ∧ getelement fs u st
         = match parse b with
           | Some e => (Ok e, st')
           | None => (Raise (NotXMLError ("package item " +:+ u +:+ " is not XML")), st')
           end)
  ∧ (∀ x st', getblob fs u st = (Raise x, st') → getelement fs u st = (Raise x, st')).
Proof.
  unfold getelement, getblob. split_and!.
  - by intros ->.
  - intros b st'. destruct (contains fs u) eqn:Hc; [|done]. cbn [negb]. intros Hget.
    pose proof (getstream_state _ _ _ _ _ Hget) as Hst. rewrite Hc in Hst.
    split; [done|]. rewrite (bind_run_Ok _ _ _ _ _ Hget). unfold ret, raise.
    by destruct (parse b).
  - intros x st'. destruct (contains fs u) eqn:Hc; cbn [negb]; [|unfold raise; by intros [= <- <-]]. intros Hget.
    by rewrite (bind_run_Raise _ _ _ _ _ Hget).
Qed.

Lemma element_Ok_all_str d o e :
  ContentTypesItem_element {| defaults := Some d; overrides := Some o |} = Ok e →
  all_str d ∧ all_str o.
Proof.
  unfold ContentTypesItem_element. cbn [defaults overrides].
  destruct (ct_children (clark ns_ct "Default") _ d _) as [ds| |] eqn:Hds; try done.
  destruct (ct_children (clark ns_ct "Override") _ o _) as [os| |] eqn:Hos; try done.
  intros _.
  assert (∀ t k (m : gmap pystr pystr) l,
            k ≠ "ContentType" → ct_children t k m (sorted_keys m) = Ok l → all_str m) as H.
  { intros t k m l Hk Hl x v Hx. apply ct_children_Ok in Hl; [|done].
    assert (x ∈ sorted_keys m) as Hin.
    { unfold sorted_keys. rewrite merge_sort_Permutation.
      apply list_elem_of_fmap. exists (x, v). split; [done|]. by apply elem_of_map_to_list. }
    revert Hin Hl. generalize (sorted_keys m). intros ks Hin Hl.
    induction Hl as [|k0 e0 ks es (k' & v' & -> & Hv & _) _ IH]; [by apply elem_of_nil in Hin|].
    apply elem_of_cons in Hin as [-> | Hin]; [|by apply IH].
    rewrite Hx in Hv. injection Hv as ->. eauto. }
  split; eapply H; [|exact Hds| |exact Hos]; done.
Qed.

(** X26. The element of a populated content types
    item exists exactly when no key or value of its maps is [None], and
    [TypeError] is raised otherwise; its children are the defaults in
    the order of their keys followed by the overrides in the order of
    theirs. *)
Theorem ContentTypesItem_element_spec (d o : gmap pystr pystr) :
  let cti := {| defaults := Some d; overrides := Some o |} in
  ((all_str d ∧ all_str o) ↔ ∃ e, ContentTypesItem_element cti = Ok e)
  ∧ (¬ (all_str d ∧ all_str o) → ∃ msg, ContentTypesItem_element cti = Raise (TypeError msg))
  ∧ (∀ e, ContentTypesItem_element cti = Ok e →
       ∃ ds os,
         e = Element (clark ns_ct "Types") (Some ns_ct) [] (ds ++ os)
         ∧ Forall2 (λ k x, ∃ k' v', k = Some k' ∧ d !! k = Some (Some v')
                      ∧ x = Element (clark ns_ct "Default") None
                              [("Extension", k'); ("ContentType", v')] [])
             (sorted_keys d) ds
         ∧ Forall2 (λ k x, ∃ k' v', k = Some k' ∧ o !! k = Some (Some v')
                      ∧ x = Element (clark ns_ct "Override") None
                              [("PartName", k'); ("ContentType", v')] [])
             (sorted_keys o) os).
Proof.
  intros cti. split_and!.
  - split.
    + intros [Hd Ho]. by apply element_all_str.
    + intros [e He]. by eapply element_Ok_all_str.
  - intros Hno. destruct (ContentTypesItem_element cti) as [e|x|] eqn:He.
    + destruct Hno. by eapply element_Ok_all_str.
    + assert (∀ t k (m : gmap pystr pystr) keys x,
                ct_children t k m keys = Raise x → ∃ msg, x = TypeError msg) as H.
      { clear. intros t k m keys. induction keys as [|y keys IH]; intros x; cbn; [done|].
        destruct y as [y|]; cbn; [|intros [= <-]; eauto].
        destruct (default None (m !! Some y)) as [v|]; cbn; [|intros [= <-]; eauto].
        destruct (bool_decide _); cbn.
        all: destruct (ct_children t k m keys) as [l|x'|] eqn:Hl; try done.
        all: intros [= <-]; by eapply IH. }
      unfold ContentTypesItem_element, cti in He. cbn [defaults overrides] in He.
      destruct (ct_children (clark ns_ct "Default") _ d _) as [ds|x1|] eqn:Hds.
      * destruct (ct_children (clark ns_ct "Override") _ o _) as [os|x2|] eqn:Hos; try done.
        injection He as <-. destruct (H _ _ _ _ _ Hos) as [msg ->]. eauto.
      * injection He as <-. destruct (H _ _ _ _ _ Hds) as [msg ->]. eauto.
      * done.
    + by destruct (ContentTypesItem_element_total cti).
  - intros e He. unfold ContentTypesItem_element, cti in He. cbn [defaults overrides] in He.
    destruct (ct_children (clark ns_ct "Default") _ d _) as [ds| |] eqn:Hds; try done.
    destruct (ct_children (clark ns_ct "Override") _ o _) as [os| |] eqn:Hos; try done.
    injection He as <-. exists ds, os. split_and!; [done|..].
    + by apply ct_children_Ok in Hds.
    + by apply ct_children_Ok in Hos.
Qed.

End more_properties.
(** * Parts directly below the package root *)

Section below_root.
Context `{env : Environment}.
Local Abbreviation State := (state bytes loadclass).
Local Abbreviation M := (M State).

Lemma startswith_cons_ne a s : a ≠ "/"%char → startswith (String a s) "/" = false.
Proof.
  intros Ha. change (startswith (String a s) "/") with (Ascii.eqb "/" a && true).
  rewrite andb_true_r. apply Ascii.eqb_neq. congruence.
Qed.

Lemma startswith_name_rels name :
  mem_char "/" name = false → startswith (name +:+ ".rels") "/" = false.
Proof.
  destruct name as [|a s]; [done|]. cbn [mem_char]. intros [Ha _]%orb_false_elim.
  rewrite append_cons. apply startswith_cons_ne. by apply Ascii.eqb_neq in Ha.
Qed.

Lemma sibling_root_level name :
  mem_char "/" name = false → sibling ("/" +:+ name) = "/_rels/" +:+ name +:+ ".rels".
Proof.
  intros Hn. unfold sibling. rewrite (split_root_level _ Hn). cbn [fst snd].
  change (posixpath.join "/" "_rels") with "/_rels".
  unfold posixpath.join. rewrite (startswith_name_rels _ Hn). done.
Qed.

Lemma companion_not_sibling name :
  mem_char "/" name = false → companion ("/" +:+ name) ≠ sibling ("/" +:+ name).
Proof.
  intros Hn. rewrite (companion_root_level _ Hn), (sibling_root_level _ Hn). done.
Qed.

Lemma cut_after_last_tail c p h t :
  posixpath.cut_after_last c p = Some (h, t) → mem_char c t = false.
Proof.
  revert h t. induction p as [|a p IH]; intros h t; cbn; [done|].
  destruct (posixpath.cut_after_last c p) as [[h' t']|] eqn:Hcut.
  - intros [= <- <-]. by eapply IH.
  - destruct (Ascii.eqb a c); [|done]. intros [= <- <-].
    clear IH. induction p as [|b p IH]; cbn in *; [done|].
    destruct (posixpath.cut_after_last c p) as [[h' t']|]; [done|].
    destruct (Ascii.eqb b c) eqn:Hb; [done|]. cbn. by apply IH.
Qed.

Lemma endswith_rels_dir h : endswith (h +:+ "/_rels") "/" = false.
Proof.
  unfold endswith. rewrite rev_append. done.
Qed.

(** Anywhere but directly below the root, the URI [Part.load] computes
    is that of the item beside the part. *)
Lemma companion_sibling p :
  (posixpath.split p).1 ≠ "" → endswith (posixpath.split p).1 "/" = false →
  companion p = sibling p.
Proof.
  intros Hne Hend. unfold companion, sibling.
  assert (mem_char "/" (posixpath.split p).2 = false) as Htail.
  { revert Hne. unfold posixpath.split.
    destruct (posixpath.cut_after_last "/" p) as [[h t]|] eqn:Hcut; cbn; [|done].
    intros _. by eapply cut_after_last_tail. }
  set (h := (posixpath.split p).1) in *. set (t := (posixpath.split p).2) in *.
  assert (posixpath.join h "_rels" = h +:+ "/_rels") as ->.
  { unfold posixpath.join. cbn [startswith]. rewrite Hend.
    rewrite bool_decide_eq_false_2 by done. done. }
  unfold posixpath.join. rewrite (startswith_name_rels _ Htail).
  rewrite endswith_rels_dir.
  rewrite bool_decide_eq_false_2 by (by destruct h).
  cbn [orb]. rewrite !append_assoc'. done.
Qed.

Lemma not_item_root_level fs name :
  mem_char "/" name = false →
  Forall (λ u, startswith u "//" = false) (itemURIs fs) →
  contains fs (companion ("/" +:+ name)) = false.
Proof.
  intros Hn Hfs. apply bool_decide_eq_false_2. intros Hin.
  rewrite Forall_forall in Hfs. apply Hfs in Hin.
  by rewrite (companion_root_level _ Hn) in Hin.
Qed.

(** C5. For a part directly below the package root, [Part.load] does
    not look for the relationships item beside the part,
    '/_rels/<name>.rels', but for '//_rels/<name>.rels', which is no
    item of the package.  So, with the item beside the part in the
    package and the type spec and the body of the part loaded: a part
    whose type always has relationships is refused with
    [CorruptedPackageError], and a part whose type has optional
    relationships is loaded without relationships; in both cases the
    part item is all that was read.  Below any directory the two URIs
    are the same. *)
Theorem sibling_item_missed fs name ct (st st1 st2 : State) ts b e a :
  mem_char "/" name = false →
  Forall (λ u, startswith u "//" = false) (itemURIs fs) →
  contains fs (sibling ("/" +:+ name)) = true →
  PartTypeSpec ct st = (Ok ts, st1) →
  objects st1 !! ts ≫= attrs = Some a →
  load_body fs ("/" +:+ name) ts st1 = (Ok (b, e), st2) →
  sibling ("/" +:+ name) = "/_rels/" +:+ name +:+ ".rels"
  ∧ companion ("/" +:+ name) = "//_rels/" +:+ name +:+ ".rels"
  ∧ contains fs (companion ("/" +:+ name)) = false
  ∧ (has_rels a = "always" →
       Part_load fs ("/" +:+ name) ct st
       = (Raise (CorruptedPackageError
                   ("required relationships item '" +:+ companion ("/" +:+ name)
                    +:+ "' not found in package")), st2))
  ∧ (has_rels a = "optional" →
       Part_load fs ("/" +:+ name) ct st
       = (Ok {| partname := "/" +:+ name; typespec := ts; blob := b; element := e;
                relsitem := None |}, st2))
  ∧ reads st2 = reads st ++ ["/" +:+ name]
  ∧ (∀ p, (posixpath.split p).1 ≠ "" → endswith (posixpath.split p).1 "/" = false →
       companion p = sibling p).
Proof.
  intros Hn Hfs Hsib Hts Ha Hbody.
  pose proof (not_item_root_level _ _ Hn Hfs) as Hc.
  destruct (Part_load_companion fs ("/" +:+ name) ct st st1 st2 ts b e a Hts Ha Hbody)
    as (Halways & _ & Hopt & _).
  split_and!.
  - by apply sibling_root_level.
  - by apply companion_root_level.
  - done.
  - intros H. by destruct (Halways H Hc).
  - intros H. by destruct (Hopt H Hc).
  - pose proof (keeps_PartTypeSpec reads ct (conj (λ _ _, eq_refl) (λ _ _, eq_refl)) _ _ _ Hts)
      as Hreads1.
    destruct (load_body_Ok _ _ _ _ _ _ Hbody) as [_ ->]. cbn. by rewrite Hreads1.
  - apply companion_sibling.
Qed.

(** ** What the walk makes of it *)

Lemma Part_load_relsitem fs p ct (st st' : State) part :
  Part_load fs p ct st = (Ok part, st') →
  partname part = p
  ∧ ∀ ri, relsitem part = Some ri → contains fs (companion p) = true.
Proof.
  unfold Part_load.
  intros (ts & st1 & Hts & Hrun)%bind_Ok_inv.
  apply bind_Ok_inv in Hrun as ([b e] & st2 & Hbody & Hrun).
  apply bind_Ok_inv in Hrun as (ri & st3 & Hrels & Hrun).
  unfold ret in Hrun. injection Hrun as <- <-. cbn. split; [done|].
  intros ri' ->.
  destruct (load_body_Ok _ _ _ _ _ _ Hbody) as [_ Hst2].
  unfold load_body in Hbody.
  apply bind_Ok_inv in Hbody as (fmt & st0 & Hfmt & _).
  apply format_Ok in Hfmt as (-> & a & Ha & _).
  assert (objects st2 !! ts ≫= attrs = Some a) as Ha2 by (by rewrite Hst2).
  rewrite (load_relsitem_run _ _ _ _ _ Ha2) in Hrels.
  destruct (contains fs (companion p)); [done|]. cbn in Hrels.
  rewrite andb_true_r in Hrels. by repeat case_bool_decide.
Qed.

Lemma loadparts_loop_parts (J : Part bytes → Prop) recurse fs cti rels :
  (∀ p ct (st st' : State) part, Part_load fs p ct st = (Ok part, st') → J part) →
  (∀ prels (st st' : State),
     Forall J (parts st) → recurse prels st = (Ok (), st') → Forall J (parts st')) →
  ∀ rs (st st' : State),
    Forall J (parts st) →
    loadparts_loop recurse fs cti rels rs st = (Ok (), st') → Forall J (parts st').
Proof.
  intros Hload Hrec. induction rs as [|r rs IH]; intros st st' HJ Hrun.
  { cbn in Hrun. unfold ret in Hrun. by simplify_eq. }
  cbn in Hrun.
  apply bind_Ok_inv in Hrun as (p & st0 & Hp & Hrun).
  unfold lift in Hp. injection Hp as Hp <-.
  apply bind_Ok_inv in Hrun as (known & st0 & Hk & Hrun).
  unfold gets in Hk. injection Hk as <- <-.
  destruct (PartCollection_contains st p); [by eapply IH|].
  apply bind_Ok_inv in Hrun as (ct & st0 & Hct & Hrun).
  unfold lift in Hct. injection Hct as Hct <-.
  apply bind_Ok_inv in Hrun as (part & st1 & Hlp & Hrun).
  apply bind_Ok_inv in Hrun as ([] & st2 & Hsub & Hrun).
  apply loadpart_Ok_inv in Hlp as (_ & s & Hpl & ->).
  pose proof (keeps_Part_load parts fs p ct (conj (λ _ _, eq_refl) (λ _ _, eq_refl))
                (λ _ _, eq_refl) _ _ _ Hpl) as Hparts.
  apply (IH st2); [|done].
  assert (Forall J (parts (with_parts (parts s ++ [part]) (<[p:=part]> (partname_dict s)) s)))
    as HJ1.
  { cbn. rewrite Hparts. apply Forall_app. split; [done|].
    apply Forall_singleton. by eapply Hload. }
  destruct (relationships part) as [prels|]; [|unfold ret in Hsub; by simplify_eq].
  case_bool_decide; [|unfold ret in Hsub; by simplify_eq].
  by eapply Hrec.
Qed.

Lemma loadparts_parts (J : Part bytes → Prop) fs cti :
  (∀ p ct (st st' : State) part, Part_load fs p ct st = (Ok part, st') → J part) →
  ∀ fuel rels (st st' : State),
    Forall J (parts st) →
    loadparts fuel fs cti rels st = (Ok (), st') → Forall J (parts st').
Proof.
  intros Hload. induction fuel as [|fuel IH]; intros rels st st' HJ Hrun; [done|].
  cbn in Hrun. eapply loadparts_loop_parts; eauto.
Qed.

(** C2. Started on an empty part collection, with fuel one more than the
    number of items of the package, [loadparts] comes to an end,
    whatever cycles the relationship graph has; a relationship whose
    target is already in the collection is skipped; and when it
    succeeds no part name occurs twice in the collection.  But not
    every item the relationship graph reaches is loaded: a part
    directly below the package root is always left without
    relationships, whatever the relationships item beside it says,
    and a part gets into the collection only as the target of one of
    the relationships walked or of a relationship that a loaded part
    holds, so that nothing is loaded on account of the relationships
    item of a part directly below the root. *)
Theorem root_level_relationships_dropped fs cti rels (st : State) :
  parts st = [] → partname_dict st = ∅ →
  (loadparts (S (length (itemURIs fs))) fs cti rels st).1 ≠ OutOfFuel
  ∧ (∀ recurse r rs (st0 : State) p,
       target_partname rels r = Ok p → is_Some (partname_dict st0 !! p) →
       loadparts_loop recurse fs cti rels (r :: rs) st0
       = loadparts_loop recurse fs cti rels rs st0)
  ∧ (∀ st',
       loadparts (S (length (itemURIs fs))) fs cti rels st = (Ok (), st') →
       NoDup (partname <$> parts st')
       ∧ (Forall (λ u, startswith u "//" = false) (itemURIs fs) →
          ∀ name part,
            mem_char "/" name = false →
            partname_dict st' !! ("/" +:+ name) = Some part →
            part ∈ parts st' ∧ relationships part = None)
       ∧ (∀ part,
            part ∈ parts st' →
            (∃ r, r ∈ rc_list rels ∧ target_partname rels r = Ok (partname part))
            ∨ (∃ q prels r,
                 q ∈ parts st' ∧ relationships q = Some prels
                 ∧ r ∈ rc_list prels ∧ target_partname prels r = Ok (partname part)))).
Proof.
  intros Hp0 Hd0.
  assert (parts_wf fs st) as Hwf.
  { unfold parts_wf. rewrite Hp0, Hd0. split_and!.
    - constructor.
    - intros p part. rewrite lookup_empty. split; [done|]. by intros [?%elem_of_nil _].
    - by intros part ?%elem_of_nil. }
  split_and!.
  - apply loadparts_total; [done|]. pose proof (remaining_le fs st). lia.
  - intros. by eapply loadparts_loop_skip.
  - intros st' Hrun.
    pose proof (loadparts_post _ _ _ _ _ _ Hwf Hrun) as ((Hnd & Hiff & _) & _).
    split; [done|]. split; [|].
    2: { intros part Hin.
         destruct (loadparts_reach _ _ _ _ _ _ Hwf Hrun part Hin) as [Hin0 | Hreach].
         { rewrite Hp0 in Hin0. by apply elem_of_nil in Hin0. }
         destruct Hreach as [r p Hr Hp|q part' prels r p _ Hq Hrels Hr Hp]; [left; eauto|].
         right. apply Hiff in Hq as [Hq _]. eauto 10. }
    intros Hfs name part Hn Hpart.
    apply Hiff in Hpart as [Hin Hname]. split; [done|].
    assert (Forall (λ part, ∀ ri, relsitem part = Some ri →
                      contains fs (companion (partname part)) = true) (parts st')) as HJ.
    { eapply (loadparts_parts _ fs cti); [|by rewrite Hp0|exact Hrun].
      intros p ct s s' part' Hload ri Hri.
      apply Part_load_relsitem in Hload as [-> Hc]. by eapply Hc. }
    rewrite Forall_forall in HJ. specialize (HJ _ Hin).
    unfold relationships. destruct (relsitem part) as [ri|]; [|done].
    specialize (HJ ri eq_refl). rewrite Hname in HJ.
    by rewrite (not_item_root_level _ _ Hn Hfs) in HJ.
Qed.

End below_root.

(** * The properties on the example package *)

Import Example Fixture.

Lemma registry_wf_initial d : registry_wf (env := toy_env) (initial d).
Proof.
  unfold registry_wf, initial; cbn. split_and!; try done.
Qed.

Lemma content_type_resolution_witness :
  ContentTypesItem_getitem
    {| defaults := Some {[Some "xml" := Some "application/xml"]};
       overrides := Some {[Some "/ppt/foo.xml" := Some "application/vnd.custom+xml"]} |}
    "/ppt/foo.xml" = Ok (Some "application/vnd.custom+xml")
  ∧ ContentTypesItem_getitem
    {| defaults := Some {[Some "xml" := Some "application/xml"]};
       overrides := Some {[Some "/ppt/foo.xml" := Some "application/vnd.custom+xml"]} |}
    "/ppt/bar.xml" = Ok (Some "application/xml").
Proof.
  split.
  - destruct (content_type_resolution
             {[Some "xml" := Some "application/xml"]}
             {[Some "/ppt/foo.xml" := Some "application/vnd.custom+xml"]} "/ppt/foo.xml")
      as (H1 & _).
    apply H1. vm_compute. reflexivity.
  - destruct (content_type_resolution
             {[Some "xml" := Some "application/xml"]}
             {[Some "/ppt/foo.xml" := Some "application/vnd.custom+xml"]} "/ppt/bar.xml")
      as (_ & H2 & _).
    apply H2; vm_compute; reflexivity.
Defined.

Lemma lowercase_counterexample :
  ContentTypesItem_getitem
    {| defaults := Some {[Some "xml" := Some "application/xml"]}; overrides := Some ∅ |}
    "/ppt/foo.XML"
  ≠ resolve lower ∅ {[Some "xml" := Some "application/xml"]} "/ppt/foo.XML".
Proof. vm_compute. discriminate. Qed.

Lemma cache_identity_witness :
  ∃ a st1,
    PartTypeSpec (Some ct_slideMaster) (initial ∅) = (Ok a, st1)
    ∧ PartTypeSpec (Some ct_slideMaster) st1 = (Ok a, st1).
Proof.
  destruct (cache_identity (env := toy_env) (initial ∅) ct_slideMaster pt_slideMaster
              (registry_wf_initial ∅) ltac:(vm_compute; reflexivity))
    as (a & st1 & lc & H1 & H2 & H3).
  exists a, st1. split; [exact H1|]. apply H3. apply rtc_refl.
Defined.

Lemma unknown_content_type_cached_witness :
  ∃ st1 a msg,
    PartTypeSpec (Some "application/xml") (initial ∅) = (Raise (KeyError msg), st1)
    ∧ PartTypeSpec (Some "application/xml") st1 = (Ok a, st1).
Proof.
  destruct (unknown_content_type_cached (env := toy_env) (initial ∅) (Some "application/xml")
              ltac:(reflexivity) ltac:(vm_compute; reflexivity))
    as (st1 & a & H1 & H2 & _).
  exists st1, a. eexists. split; [exact H1|exact H2].
Defined.

Lemma duplicates_rejected_witness :
  let st := with_parts [one_part] {[ "/ppt/presentation.xml" := one_part ]} (initial ∅) in
  loadpart deck_fs "/ppt/presentation.xml" (Some ct_presentation) st
  = (Raise (DuplicateKeyError
              "cannot add part with duplicate key ('/ppt/presentation.xml')"), st).
Proof.
  intros st. destruct (duplicates_rejected (env := toy_env)) as (H & _).
  apply (H deck_fs "/ppt/presentation.xml" (Some ct_presentation) st).
  vm_compute. eauto.
Defined.

Lemma target_resolution_witness :
  target_partname
    {| rc_baseURI := "/ppt/slides"; rc_list := []; _id_dict := ∅ |}
    {| rId := Some "rId1"; reltype := Some (rt "slideLayout");
       target := Some "../slideLayouts/slideLayout1.xml" |}
  = Ok (posixpath.normpath
          (posixpath.join "/ppt/slides" "../slideLayouts/slideLayout1.xml")).
Proof.
  destruct (target_resolution (env := toy_env)) as (H & _).
  apply (H {| rc_baseURI := "/ppt/slides"; rc_list := []; _id_dict := ∅ |}
           {| rId := Some "rId1"; reltype := Some (rt "slideLayout");
              target := Some "../slideLayouts/slideLayout1.xml" |}
           "../slideLayouts/slideLayout1.xml"); reflexivity.
Defined.

Lemma root_level_relationships_dropped_witness :
  let run := loadparts (S (length (itemURIs rooted_fs))) rooted_fs rooted_cti rooted_rels
               (initial rooted_disk) in
  run.1 = Ok ()
  ∧ partname <$> parts run.2 = ["/theme1.xml"]
  ∧ (∃ theme, partname_dict run.2 !! "/theme1.xml" = Some theme
              ∧ theme ∈ parts run.2 ∧ relationships theme = None)
  ∧ contains rooted_fs (sibling "/theme1.xml") = true
  ∧ declares rooted_fs "/" (sibling "/theme1.xml") "/media/image1.png"
  ∧ contains rooted_fs "/media/image1.png" = true
  ∧ PartCollection_contains run.2 "/media/image1.png" = false.
Proof.
  intros run.
  assert (run = (Ok (), run.2)) as Hrun by (vm_compute; reflexivity).
  destruct (root_level_relationships_dropped (env := toy_env) rooted_fs rooted_cti rooted_rels
              (initial rooted_disk) eq_refl eq_refl) as (_ & _ & H).
  destruct (H run.2 Hrun) as (_ & Hroot & _).
  split; [vm_compute; reflexivity|].
  split; [vm_compute; reflexivity|].
  split.
  { exists (ok_or one_part (Part_load rooted_fs "/theme1.xml" (Some ct_theme)
                              (initial rooted_disk)).1).
    split; [vm_compute; reflexivity|].
    apply (Hroot ltac:(vm_compute; repeat constructor) "theme1.xml"); [reflexivity|].
    vm_compute. reflexivity. }
  split; [vm_compute; reflexivity|].
  split.
  { exists (initial rooted_disk),
      (RelationshipsItem_load "/" rooted_fs (sibling "/theme1.xml") (initial rooted_disk)).2,
      (ok_or (RelationshipCollection_init "/")
         (RelationshipsItem_load "/" rooted_fs (sibling "/theme1.xml") (initial rooted_disk)).1),
      {| rId := Some "rId1"; reltype := Some (rt "image"); target := Some "media/image1.png" |}.
    split; [vm_compute; reflexivity|]. split; [|vm_compute; reflexivity].
    vm_compute. left. }
  split; vm_compute; reflexivity.
Defined.

Lemma sibling_item_missed_witness :
  let st := initial ∅ in
  (contains flat_fs (sibling "/presentation.xml") = true
   ∧ sibling "/presentation.xml" = "/_rels/presentation.xml.rels"
   ∧ ∃ st2,
       Part_load flat_fs "/presentation.xml" (Some ct_presentation) st
       = (Raise (CorruptedPackageError
                   "required relationships item '//_rels/presentation.xml.rels' not found in package"),
          st2)
       ∧ reads st2 = ["/presentation.xml"])
  ∧ (contains rooted_fs (sibling "/theme1.xml") = true
     ∧ ∃ theme st2,
         Part_load rooted_fs "/theme1.xml" (Some ct_theme) st = (Ok theme, st2)
         ∧ relationships theme = None
         ∧ reads st2 = ["/theme1.xml"]).
Proof.
  intros st. split.
  - pose (st1 := (PartTypeSpec (env := toy_env) (Some ct_presentation) st).2).
    pose (st2 := (load_body flat_fs "/presentation.xml" 0 st1).2).
    destruct (sibling_item_missed (env := toy_env) flat_fs "presentation.xml"
                (Some ct_presentation) st st1 st2 0
                (ok_or (None, None) (load_body flat_fs "/presentation.xml" 0 st1).1).1
                (ok_or (None, None) (load_body flat_fs "/presentation.xml" 0 st1).1).2
                (spec_attrs ct_presentation pt_presentation None))
      as (Hs & _ & _ & Halways & _ & Hreads & _).
    + reflexivity.
    + vm_compute. repeat constructor.
    + vm_compute. reflexivity.
    + vm_compute. reflexivity.
    + vm_compute. reflexivity.
    + vm_compute. reflexivity.
    + split; [vm_compute; reflexivity|]. split; [exact Hs|].
      exists st2. split; [exact (Halways eq_refl)|exact Hreads].
  - pose (st1 := (PartTypeSpec (env := toy_env) (Some ct_theme) st).2).
    pose (st2 := (load_body rooted_fs "/theme1.xml" 0 st1).2).
    destruct (sibling_item_missed (env := toy_env) rooted_fs "theme1.xml"
                (Some ct_theme) st st1 st2 0
                (ok_or (None, None) (load_body rooted_fs "/theme1.xml" 0 st1).1).1
                (ok_or (None, None) (load_body rooted_fs "/theme1.xml" 0 st1).1).2
                (spec_attrs ct_theme pt_theme None))
      as (_ & _ & _ & _ & Hopt & Hreads & _).
    + reflexivity.
    + vm_compute. repeat constructor.
    + vm_compute. reflexivity.
    + vm_compute. reflexivity.
    + vm_compute. reflexivity.
    + vm_compute. reflexivity.
    + split; [vm_compute; reflexivity|].
      eexists _, st2. split; [exact (Hopt eq_refl)|]. split; [reflexivity|exact Hreads].
Defined.

Lemma save_replaces_target_witness :
  let over e := with_disk (<["/home/user/out.pptx" := e]> (disk opened)) opened in
  (Package_save "out" (over (ZipArchive blank))).1 = Ok ()
  ∧ Package_save "out" (over PlainFile) = Package_save "out" (over (ZipArchive blank))
  ∧ Package_save "out" opened = Package_save "out" (over (ZipArchive blank))
  ∧ ∃ e_ct e_rels items,
      parts_items (objects opened) (parts opened) = Some items
      ∧ disk (Package_save "out" (over (ZipArchive blank))).2 !! "/home/user/out.pptx"
        = Some (ZipArchive (("[Content_Types].xml", tostring e_ct)
                            :: ("_rels/.rels", tostring e_rels) :: items)).
Proof.
  intros over.
  assert (posixpath.abspath (cwd (Environment := toy_env)) (normalizedpath "out")
          = "/home/user/out.pptx") as Ht by (vm_compute; reflexivity).
  pose proof (save_replaces_target (env := toy_env) "out" opened (ZipArchive blank)) as H.
  cbv zeta in H.
  rewrite Ht in H.
  unfold over. clear over.
  destruct (H ltac:(intros files; discriminate)) as (_ & Hind & Hnone & Hitems & _).
  clear H.
  split; [vm_compute; reflexivity|].
  split; [exact (Hind PlainFile ltac:(intros files; discriminate))|].
  split.
  { transitivity (Package_save "out"
                    (with_disk (delete "/home/user/out.pptx" (disk opened)) opened)).
    - assert (with_disk (delete "/home/user/out.pptx" (disk opened)) opened = opened) as ->
        by (vm_compute; reflexivity).
      reflexivity.
    - exact (Hnone ltac:(vm_compute; reflexivity)). }
  match goal with
  | |- context [disk (snd ?r) !! _] =>
      destruct (Hitems (snd r) ltac:(vm_compute; reflexivity))
        as (cti & e_ct & ri & e_rels & items & _ & _ & _ & _ & Hi & Hst)
  end.
  exists e_ct, e_rels, items. split; [exact Hi|].
  rewrite Hst. cbn [disk with_disk]. apply lookup_insert_eq.
Defined.

Lemma save_overwrites_counterexample :
  let st1 := ((Package_open "blank.pptx" ;; Package_save "out") (initial deck_disk)).2 in
  ∃ prior st2,
    disk st1 !! "/home/user/out.pptx" = Some (ZipArchive prior)
    ∧ (Package_init ;; Package_open "deck.pptx" ;; Package_save "out") st1 = (Ok (), st2)
    ∧ disk st2 !! "/home/user/out.pptx" ≠ Some (ZipArchive prior).
Proof.
  eexists _, _. split; [vm_compute; reflexivity|].
  split; [vm_compute; reflexivity|].
  vm_compute. discriminate.
Qed.



(** * The further properties on the example packages *)

Import Fixture.

Lemma getblob_zip_witness :
  getblob deck_fs "/ppt/media/image1.png" (initial deck_disk)
  = (Ok (Raw "PNG"),
     with_reads (reads (initial deck_disk) ++ ["/ppt/media/image1.png"]) (initial deck_disk)).
Proof.
  destruct (getblob_zip (env := toy_env) "/home/user/deck.pptx" deck (initial deck_disk))
    as (H & _).
  apply (H (take 9 deck) "ppt/media/image1.png" (Raw "PNG") []).
  - reflexivity.
  - vm_compute. by intros ?%elem_of_nil.
  - reflexivity.
Defined.

Lemma write_blob_then_read_witness :
  let st := initial scratch_disk in
  write_blob "/home/user/new.pptx" (Some (Raw "PNG")) "/ppt/media/image1.png" st
  = (Ok (),
     with_disk (<["/home/user/new.pptx" := ZipArchive [("ppt/media/image1.png", Raw "PNG")]]>
                  (disk st)) st).
Proof.
  intros st.
  destruct (write_blob_then_read (env := toy_env) "/home/user/new.pptx" [] (Raw "PNG")
              "/ppt/media/image1.png" st) as (H & _).
  - reflexivity.
  - split; reflexivity.
  - vm_compute. by intros ?%elem_of_nil.
  - exact H.
Defined.

Lemma write_element_then_read_witness :
  let e := Element "Relationships" (Some uri_pr) [] [Rel "rId1" (rt "theme") "theme1.xml"] in
  getelement
    (ZipFileSystem "/home/user/new.pptx" [("_rels/.rels", XmlDoc e)]) "/_rels/.rels"
    (initial scratch_disk)
  = (Ok (resolve_ns None e),
     with_reads (reads (initial scratch_disk) ++ ["/_rels/.rels"]) (initial scratch_disk)).
Proof.
  intros e.
  destruct (write_element_then_read (env := toy_env) "/home/user/new.pptx" [] e
              "/_rels/.rels" (initial scratch_disk)) as (_ & H & _).
  - intros x. reflexivity.
  - reflexivity.
  - split; reflexivity.
  - vm_compute. by intros ?%elem_of_nil.
  - exact (H (initial scratch_disk)).
Defined.

Lemma loadpart_getitem_witness :
  let st' := (loadpart deck_fs "/ppt/theme/theme1.xml" (Some ct_theme) (initial deck_disk)).2 in
  PartCollection_getitem "/ppt/theme/theme1.xml" st' = (Ok theme_part, st').
Proof.
  intros st'.
  destruct (loadpart_getitem (env := toy_env) deck_fs "/ppt/theme/theme1.xml" (Some ct_theme)
              (initial deck_disk) st' theme_part) as (_ & _ & H & _).
  - vm_compute. reflexivity.
  - exact H.
Defined.

Lemma additem_getitem_witness :
  let e := Rel "rId1" (rt "theme") "theme1.xml" in
  let self' := (additem (RelationshipCollection_init "/ppt") e).2 in
  RelationshipCollection_getitem self' (Some "rId1") = Ok (Relationship_init e).
Proof.
  intros e self'.
  destruct (additem_getitem (RelationshipCollection_init "/ppt") e (Relationship_init e) self')
    as (_ & H & _).
  - apply collection_wf_init.
  - vm_compute. reflexivity.
  - exact H.
Defined.

Lemma RelationshipsItem_load_spec_witness :
  let st := initial deck_disk in
  let e := ok_or (Element "" None [] []) (getelement deck_fs "/_rels/.rels" st).1 in
  ∃ rels,
    RelationshipsItem_load "/" deck_fs "/_rels/.rels" st
    = (Ok rels, (getelement deck_fs "/_rels/.rels" st).2)
    ∧ rc_baseURI rels = "/"
    ∧ rc_list rels = Relationship_init <$> findall e (clark uri_pr "Relationship").
Proof.
  intros st e.
  destruct (RelationshipsItem_load_spec (env := toy_env) "/" deck_fs "/_rels/.rels" st
              (getelement deck_fs "/_rels/.rels" st).2 e) as (H & _).
  - vm_compute. reflexivity.
  - destruct H as (rels & H1 & H2 & H3 & _).
    + vm_compute. apply NoDup_singleton.
    + exists rels. by split_and!.
Defined.

Lemma RelationshipsItem_element_spec_witness :
  ∃ msg,
    RelationshipsItem_element
      {| rc_baseURI := "/"; rc_list := [{| rId := Some "rId1"; reltype := None;
                                           target := Some "ppt/presentation.xml" |}];
         _id_dict := ∅ |}
    = Raise (TypeError msg).
Proof.
  destruct (RelationshipsItem_element_spec (env := toy_env)
              {| rc_baseURI := "/"; rc_list := [{| rId := Some "rId1"; reltype := None;
                                                   target := Some "ppt/presentation.xml" |}];
                 _id_dict := ∅ |}) as (_ & H).
  apply H. intros [(_ & [x Hx] & _) _]%Forall_cons. discriminate Hx.
Defined.

Lemma compose_spec_witness :
  let st := (PartTypeSpec (Some ct_presentation) (initial ∅)).2 in
  ∃ cti e, compose [one_part] st = (Ok cti, st) ∧ ContentTypesItem_element cti = Ok e.
Proof.
  intros st.
  destruct (compose_spec (env := toy_env) [one_part] st
              "application/vnd.openxmlformats-package.relationships+xml" "application/xml")
    as (H & _).
  - reflexivity.
  - reflexivity.
  - intros part ->%list_elem_of_singleton. vm_compute. eauto.
  - apply H. constructor; [|constructor]. left. reflexivity.
Defined.

Lemma compose_contents_witness :
  let st := (PartTypeSpec (Some ct_presentation) (initial ∅)).2 in
  let cti := ok_or ContentTypesItem_init (compose [one_part] st).1 in
  2 ≤ ContentTypesItem_len cti ≤ 3.
Proof.
  intros st cti.
  destruct (compose_contents (env := toy_env) [one_part] st st cti) as (_ & d & o & H).
  - vm_compute. reflexivity.
  - destruct H as (_ & _ & _ & _ & H). exact H.
Defined.

Lemma load_then_getitem_witness :
  let st := initial deck_disk in
  ∃ e,
    getelement deck_fs "/[Content_Types].xml" st
    = (Ok e, (ContentTypesItem_load deck_fs st).2)
    ∧ ContentTypesItem_getitem deck_cti "/ppt/presentation.xml"
      = match last (filter (λ x, get x "PartName" = Some "/ppt/presentation.xml")
                      (findall e (clark uri_ct "Override"))) with
        | Some x => Ok (get x "ContentType")
        | None =>
            match last (filter (λ x, get x "Extension" = Some (extension "/ppt/presentation.xml"))
                          (findall e (clark uri_ct "Default"))) with
            | Some x => Ok (get x "ContentType")
            | None => Raise (LookupError ("No part name '" +:+ "/ppt/presentation.xml"
                                          +:+ "' in package content types item"))
            end
        end.
Proof.
  intros st.
  destruct (load_then_getitem (env := toy_env) deck_fs st (ContentTypesItem_load deck_fs st).2
              deck_cti) as (e & He & Hp).
  - vm_compute. reflexivity.
  - exists e. split; [exact He|]. exact (Hp "/ppt/presentation.xml").
Defined.

Lemma Part_load_post_witness :
  let st := initial deck_disk in
  let st' := (Part_load deck_fs "/ppt/theme/theme1.xml" (Some ct_theme) st).2 in
  partname theme_part = "/ppt/theme/theme1.xml"
  ∧ reads st' = reads st ++ ["/ppt/theme/theme1.xml"].
Proof.
  intros st st'.
  destruct (Part_load_post (env := toy_env) deck_fs "/ppt/theme/theme1.xml" (Some ct_theme)
              st st' theme_part) as (H1 & _ & _ & H2 & _).
  - vm_compute. reflexivity.
  - split; [exact H1|exact H2].
Defined.

Lemma root_level_part_loses_rels_witness :
  let st := initial ∅ in
  let st1 := (PartTypeSpec (env := toy_env) (Some ct_presentation) st).2 in
  let st2 := (load_body flat_fs "/presentation.xml" 0 st1).2 in
  Part_load flat_fs "/presentation.xml" (Some ct_presentation) st
  = (Raise (CorruptedPackageError
              ("required relationships item '" +:+ companion "/presentation.xml"
               +:+ "' not found in package")), st2).
Proof.
  intros st st1 st2.
  destruct (root_level_part_loses_rels (env := toy_env) flat_fs "presentation.xml"
              (Some ct_presentation) st st1 st2 0
              (ok_or (None, None) (load_body flat_fs "/presentation.xml" 0 st1).1).1
              (ok_or (None, None) (load_body flat_fs "/presentation.xml" 0 st1).1).2
              (spec_attrs ct_presentation pt_presentation None))
    as (_ & _ & H & _).
  all: try exact (H eq_refl).
  - reflexivity.
  - vm_compute. repeat constructor.
  - vm_compute. reflexivity.
  - vm_compute. reflexivity.
  - vm_compute. reflexivity.
Defined.

Lemma loadclass_registration_witness :
  ∃ a st',
    (register (env := toy_env) {[ Some ct_theme := "Theme" ]} ;; PartTypeSpec (Some ct_theme))
      (initial ∅) = (Ok a, st')
    ∧ objects st' !! a
      = Some {| _loaded := true;
                attrs := Some (spec_attrs ct_theme pt_theme (Some "Theme")) |}.
Proof.
  destruct (loadclass_registration (env := toy_env) (initial ∅) ct_theme pt_theme
              {[ Some ct_theme := "Theme" ]} ∅) as (_ & a & st' & H1 & H2 & _).
  - reflexivity.
  - vm_compute. reflexivity.
  - exists a, st'. split; [exact H1|]. rewrite H2. vm_compute. reflexivity.
Defined.

Lemma content_types_item_round_trip_witness :
  let d : gmap pystr pystr := {[ Some "xml" := Some "application/xml" ]} in
  let o : gmap pystr pystr := {[ Some "/ppt/presentation.xml" := Some ct_presentation ]} in
  let cti := {| defaults := Some d; overrides := Some o |} in
  let e := ok_or (Element "" None [] []) (ContentTypesItem_element (env := toy_env) cti) in
  ContentTypesItem_load
    (ZipFileSystem "/home/user/new.pptx" [("[Content_Types].xml", XmlDoc e)])
    (initial scratch_disk)
  = (Ok cti, with_reads (reads (initial scratch_disk) ++ ["/[Content_Types].xml"])
               (initial scratch_disk)).
Proof.
  intros d o cti e.
  destruct (content_types_item_round_trip (env := toy_env) "/home/user/new.pptx" [] d o e
              (initial scratch_disk)) as (_ & H).
  - intros x. reflexivity.
  - vm_compute. reflexivity.
  - reflexivity.
  - vm_compute. by intros ?%elem_of_nil.
  - exact (H (initial scratch_disk)).
Defined.

Lemma relationships_item_round_trip_witness :
  let elms := [Rel "rId1" (rt "slideLayout") "../slideLayouts/slideLayout1.xml";
               Rel "rId2" (rt "theme") "../theme/theme1.xml"] in
  let rels := ok_or (RelationshipCollection_init "")
                (additems (RelationshipCollection_init "/ppt/slideMasters") elms) in
  let e := ok_or (Element "" None [] []) (RelationshipsItem_element (env := toy_env) rels) in
  let u := "/ppt/slideMasters/_rels/slideMaster1.xml.rels" in
  RelationshipsItem_load "/ppt/slideMasters"
    (ZipFileSystem "/home/user/new.pptx" [(tail1 u, XmlDoc e)]) u (initial scratch_disk)
  = (Ok rels, with_reads (reads (initial scratch_disk) ++ [u]) (initial scratch_disk)).
Proof.
  intros elms rels e u.
  destruct (relationships_item_round_trip (env := toy_env) "/home/user/new.pptx" []
              "/ppt/slideMasters" u rels e (initial scratch_disk)) as (_ & H).
  - intros x. reflexivity.
  - exists elms. vm_compute. reflexivity.
  - vm_compute. reflexivity.
  - reflexivity.
  - split; reflexivity.
  - vm_compute. by intros ?%elem_of_nil.
  - exact (H (initial scratch_disk)).
Defined.

Lemma save_members_witness :
  ∃ ms,
    disk (Package_save (env := toy_env) "out" opened).2 !! "/home/user/out.pptx"
    = Some (ZipArchive ms)
    ∧ ms.*1 = "[Content_Types].xml" :: "_rels/.rels" :: flat_map part_members (parts opened).
Proof.
  destruct (save_members (env := toy_env) "out" opened
              (Package_save (env := toy_env) "out" opened).2) as (ms & H1 & H2).
  - vm_compute. reflexivity.
  - exists ms. split; [exact H1|exact H2].
Defined.

Lemma loadpart_failure_witness :
  let st := initial deck_disk in
  let st' := (loadpart deck_fs "/ppt/missing.xml" (Some ct_theme) st).2 in
  parts st' = parts st ∧ partname_dict st' = partname_dict st.
Proof.
  intros st st'.
  destruct (loadpart_failure (env := toy_env) deck_fs "/ppt/missing.xml" (Some ct_theme) st st'
              (LookupError "No package item with URI '/ppt/missing.xml'")) as (H1 & H2 & _).
  - vm_compute. reflexivity.
  - split; [exact H1|exact H2].
Defined.

Lemma getelement_outcomes_witness :
  let st := initial deck_disk in
  getelement deck_fs "/ppt/media/image1.png" st
  = (Raise (NotXMLError "package item /ppt/media/image1.png is not XML"),
     with_reads (reads st ++ ["/ppt/media/image1.png"]) st).
Proof.
  intros st.
  destruct (getelement_outcomes (env := toy_env) deck_fs "/ppt/media/image1.png" st)
    as (_ & H & _).
  destruct (H (Raw "PNG")
              (with_reads (env := toy_env) (reads st ++ ["/ppt/media/image1.png"]) st))
    as [_ H'].
  - vm_compute. reflexivity.
  - exact H'.
Defined.

Lemma ContentTypesItem_element_spec_witness :
  ∃ msg,
    ContentTypesItem_element (env := toy_env)
      {| defaults := Some {[ None := Some "application/xml" ]}; overrides := Some ∅ |}
    = Raise (TypeError msg).
Proof.
  destruct (ContentTypesItem_element_spec (env := toy_env)
              {[ None := Some "application/xml" ]} ∅) as (_ & H & _).
  apply H. intros [Hd _].
  destruct (Hd None (Some "application/xml")) as [[x Hx] _]; [reflexivity|discriminate Hx].
Defined.

Lemma save_frame_witness :
  let st' := (Package_save (env := toy_env) "out" opened).2 in
  (Package_save (env := toy_env) "out" opened).1 = Ok ()
  ∧ st' = with_disk (disk st') opened
  ∧ disk st' !! "/home/user/deck.pptx" = disk opened !! "/home/user/deck.pptx"
  ∧ ∃ ms, disk st' !! "/home/user/out.pptx" = Some (ZipArchive ms).
Proof.
  intros st'. split; [vm_compute; reflexivity|].
  destruct (save_frame (env := toy_env) "out" opened st' (Ok ()))
    as (_ & H2 & H3 & _ & _ & H5).
  - vm_compute. reflexivity.
  - split; [exact H2|]. split; [apply H3; vm_compute; discriminate|].
    apply H5.
    + intros files. vm_compute. discriminate.
    + intros _. vm_compute. reflexivity.
Defined.

Lemma save_unopened_witness :
  ∃ e,
    (Package_init ;; Package_save "out") (initial deck_disk)
    = (Raise (AttributeError "'NoneType' object has no attribute 'element'"),
       with_disk (<["/home/user/out.pptx" := ZipArchive [("[Content_Types].xml", XmlDoc e)]]>
                    deck_disk)
         (with_pkg_relsitem None (with_parts [] ∅ (initial deck_disk)))).
Proof.
  destruct (save_unopened (env := toy_env) "out" (initial deck_disk)
              "application/vnd.openxmlformats-package.relationships+xml" "application/xml")
    as (e & _ & H).
  - reflexivity.
  - reflexivity.
  - intros files. vm_compute. discriminate.
  - intros _. vm_compute. reflexivity.
  - exists e. exact H.
Defined.

Lemma loaded_only_reachable_witness :
  ∃ fs ri,
    FileSystem_new "deck.pptx" (initial deck_disk) = (Ok fs, initial deck_disk)
    ∧ pkg_relsitem opened = Some ri
    ∧ reachable opened (pkg_relationships ri) "/ppt/media/image1.png"
    ∧ contains fs "/ppt/media/image1.png" = true.
Proof.
  destruct (loaded_only_reachable (env := toy_env) "deck.pptx" (initial deck_disk) opened)
    as (fs & ri & H1 & H2 & H3 & H4 & _).
  - reflexivity.
  - reflexivity.
  - vm_compute. reflexivity.
  - exists fs, ri. split_and!; [exact H1|exact H2|apply H3|apply H4]; vm_compute; reflexivity.
Defined.

Lemma open_frame_witness :
  let st := initial deck_disk in
  (Package_open (env := toy_env) "deck.pptx" st).1 = Ok ()
  ∧ disk opened = disk st
  ∧ loadclassmap opened = loadclassmap st.
Proof.
  intros st. split; [vm_compute; reflexivity|].
  destruct (open_frame (env := toy_env) "deck.pptx" st opened (Ok ())) as (H1 & H2 & _).
  - vm_compute. reflexivity.
  - split; [exact H1|exact H2].
Defined.
